(** * github-filler.py: the contribution scheduler and its repository gateway

    A shallow embedding of [src/github-filler.py].  The script is a
    sequential program whose every step talks to its environment: the
    wall clock, the [random] module, the terminal, the file system and the
    external [git] tool.  It is modelled in a state-and-exception monad
    over a [world] that holds

    - the observable state (clock, working directory, directories, files),
    - one oracle per source of nondeterminism (clock ticks, random draws,
      terminal input, results of the spawned processes, faults of the
      file-system calls), consumed in program order, and
    - the trace of the interactions performed so far, newest first.

    Python exceptions are the [Raise] results of the monad; [try]/[except]
    is [try_except].  Theorems quantify over every world, hence over every
    behaviour of the environment.

    What the model leaves out:
    - [git] is an oracle: a command is an event of the trace with the
      result the environment gives it.  The files and directories of the
      world are those that the script itself reads and writes; what git
      writes under .git is not part of them;
    - the text of the console output: a run of consecutive [print]
      statements is one message, which keeps the computed values it shows;
    - the inside of [argparse], which is used through its contract:
      [main_argv] is [main()] from its first line, [main] is [main()] once
      the command line is parsed (from line 426 on);
    - adjustments of the clock: successive readings never decrease;
    - interruptions between two interactions: [KeyboardInterrupt] is
      raised by a prompt, by a spawned process or by a file-system call. *)

From Stdlib Require Import ZArith List Lia Bool Ascii.
From stdpp Require Import gmap strings list.

Local Open Scope string_scope.
Local Open Scope Z_scope.

(** ** Datetimes

    A naive [datetime] is represented by the number of microseconds since
    midnight of the day of proleptic ordinal 0, so that
    [d.toordinal() = d / DAY] and Python's field-wise comparison of two
    datetimes is the comparison of these numbers.  [datetime.max] is not
    modelled: [current_date + timedelta(days=1)] never overflows. *)

Abbreviation datetime := Z (only parsing).

Definition SECOND : Z := 1000000.
Definition MINUTE : Z := 60 * SECOND.
Definition HOUR : Z := 60 * MINUTE.
Definition DAY : Z := 24 * HOUR.

Definition toordinal (d : datetime) : Z := d / DAY.
Definition hour_of (d : datetime) : Z := (d mod DAY) / HOUR.
Definition minute_of (d : datetime) : Z := (d mod HOUR) / MINUTE.
Definition second_of (d : datetime) : Z := (d mod MINUTE) / SECOND.
Definition microsecond_of (d : datetime) : Z := d mod SECOND.

(** [d.weekday()]: Monday is 0 and Sunday is 6; ordinal 1 is a Monday. *)
Definition weekday (d : datetime) : Z := (toordinal d + 6) mod 7.

(** [d.replace(hour=h, minute=m, second=s)]: the date and the microsecond
    are kept. *)
Definition replace_hms (d : datetime) (h m s : Z) : datetime :=
  toordinal d * DAY + h * HOUR + m * MINUTE + s * SECOND + microsecond_of d.

(** [timedelta(days=n)] and [(a - b).days] (a floor, as [timedelta]
    normalises to [0 <= seconds < 86400]). *)
Definition timedelta_days (n : Z) : Z := n * DAY.
Definition days_between (a b : datetime) : Z := (a - b) / DAY.

(** [d.strftime('%Y-%m-%d %H:%M:%S')]: the text is determined by, and
    determines, the whole second; it is represented by that second. *)
Definition strftime (d : datetime) : Z := d / SECOND.

(** ** Exceptions and results *)

Inductive os_error := FileNotFound | PermissionDenied | OtherOSError.

Inductive exn :=
| SystemExit (code : Z)
| KeyboardInterrupt
| CalledProcessError
| OSError (k : os_error)
| EOFError.

(** [except Exception] catches everything but [SystemExit] and
    [KeyboardInterrupt]; [except IOError] (an alias of [OSError]) catches
    every [OSError]. *)
Definition is_Exception (e : exn) : bool :=
  match e with SystemExit _ | KeyboardInterrupt => false | _ => true end.

Definition is_OSError (e : exn) : bool :=
  match e with OSError _ => true | _ => false end.

Inductive result (A : Type) :=
| Ok (a : A)
| Raise (e : exn).
Arguments Ok {A} a.
Arguments Raise {A} e.

(** ** The environment *)

(** What a call into the operating system can do instead of completing:
    fail with an [OSError], or be interrupted from the keyboard. *)
Inductive fault := FaultOS (k : os_error) | FaultInterrupt.

Definition exn_of_fault (f : fault) : exn :=
  match f with FaultOS k => OSError k | FaultInterrupt => KeyboardInterrupt end.

(** The outcome of [subprocess.run]: the process ran to completion with a
    return code and a captured standard output, or the call itself
    failed. *)
Inductive proc_result :=
| Completed (returncode : Z) (stdout : string)
| ProcFault (f : fault).

Record completed := { returncode : Z; stdout : string }.

(** The outcome of [input(prompt)]. *)
Inductive input_result := Line (s : string) | InputEOF | InputInterrupt.

(** The pieces of text the program writes to its two files.  Time stamps
    stand for their [strftime] text. *)
Inductive chunk :=
| ReadmeTitle
| ReadmeText
| ReadmeGenerated (stamp : Z)
| DataHeader
| DataStarted (stamp : Z)
| DataEntry (stamp : Z) (tag : Z).

(** Console output.  Messages that carry computed values keep them; the
    others are identified by a short key. *)
Inductive msg :=
| Banner (start_day stop_day : Z) (intensity local_path : string) (repo_url : option string)
| DryRunDays (days : Z)
| RangeWarning (days : Z)
| Progress (successful total : Z)
| Totals (total successful : Z)
| Failed (n : Z)
| Note (key : string).

Inductive event :=
| EvNow (t : datetime)
| EvPrint (m : msg)
| EvInput (prompt : string) (r : input_result)
| EvRun (command : list string) (env_date : option Z) (r : proc_result)
| EvMkdir (path : string) (f : option fault)
| EvChdir (path : string) (f : option fault)
| EvOpen (path : string) (mode : string) (f : option fault)
| EvWrite (path : string) (c : chunk)
| EvCreateCommit (date : datetime).

Record world := World {
  clock : datetime;                (* the latest reading of the clock *)
  ticks : list N;                  (* time elapsed before each next reading *)
  rng : list N;                    (* raw draws of the [random] module *)
  stdin : list input_result;       (* what the terminal answers *)
  procs : list proc_result;        (* what the spawned processes do *)
  io_faults : list (option fault); (* how file-system calls fare *)
  cwd : string;
  dirs : gset string;
  files : gmap string (list chunk);
  trace : list event               (* newest first *)
}.

Definition with_clock (c : datetime) (t : list N) (w : world) : world :=
  World c t (rng w) (stdin w) (procs w) (io_faults w) (cwd w) (dirs w) (files w) (trace w).
Definition with_rng (r : list N) (w : world) : world :=
  World (clock w) (ticks w) r (stdin w) (procs w) (io_faults w) (cwd w) (dirs w) (files w) (trace w).
Definition with_stdin (i : list input_result) (w : world) : world :=
  World (clock w) (ticks w) (rng w) i (procs w) (io_faults w) (cwd w) (dirs w) (files w) (trace w).
Definition with_procs (p : list proc_result) (w : world) : world :=
  World (clock w) (ticks w) (rng w) (stdin w) p (io_faults w) (cwd w) (dirs w) (files w) (trace w).
Definition with_io_faults (f : list (option fault)) (w : world) : world :=
  World (clock w) (ticks w) (rng w) (stdin w) (procs w) f (cwd w) (dirs w) (files w) (trace w).
Definition with_cwd (c : string) (w : world) : world :=
  World (clock w) (ticks w) (rng w) (stdin w) (procs w) (io_faults w) c (dirs w) (files w) (trace w).
Definition with_dirs (d : gset string) (w : world) : world :=
  World (clock w) (ticks w) (rng w) (stdin w) (procs w) (io_faults w) (cwd w) d (files w) (trace w).
Definition with_files (f : gmap string (list chunk)) (w : world) : world :=
  World (clock w) (ticks w) (rng w) (stdin w) (procs w) (io_faults w) (cwd w) (dirs w) f (trace w).
Definition log (e : event) (w : world) : world :=
  World (clock w) (ticks w) (rng w) (stdin w) (procs w) (io_faults w) (cwd w) (dirs w) (files w)
        (e :: trace w).

(** ** The monad *)

Definition prog (A : Type) : Type := world -> result A * world.

Definition ret {A} (a : A) : prog A := fun w => (Ok a, w).

Definition raise {A} (e : exn) : prog A := fun w => (Raise e, w).

Definition bind {A B} (m : prog A) (k : A -> prog B) : prog B :=
  fun w => match m w with
           | (Ok a, w') => k a w'
           | (Raise e, w') => (Raise e, w')
           end.

(** [try: m except <the exceptions h maps to Some>: handler]. *)
Definition try_except {A} (m : prog A) (h : exn -> option (prog A)) : prog A :=
  fun w => match m w with
           | (Ok a, w') => (Ok a, w')
           | (Raise e, w') =>
               match h e with
               | Some k => k w'
               | None => (Raise e, w')
               end
           end.

Declare Scope prog_scope.
Delimit Scope prog_scope with prog.
Notation "x <- m ;; k" := (bind m (fun x => k))
  (at level 100, m at next level, right associativity) : prog_scope.
Notation "m ;; k" := (bind m (fun _ => k))
  (at level 100, right associativity) : prog_scope.
Local Open Scope prog_scope.

Definition emit (e : event) : prog unit := fun w => (Ok tt, log e w).

Definition print (m : msg) : prog unit := emit (EvPrint m).

(** [sys.exit(code)]. *)
Definition sys_exit {A} (code : Z) : prog A := raise (SystemExit code).

(** [for _ in range(n)] over an accumulator. *)
Fixpoint for_range {A} (n : nat) (body : A -> prog A) (acc : A) : prog A :=
  match n with
  | O => ret acc
  | S n' => acc' <- body acc ;; for_range n' body acc'
  end.

(** *** The clock: [datetime.now()]

    The model takes a clock that is not adjusted during a run: a reading
    is the previous one plus the time elapsed, so readings never
    decrease. *)
Definition now : prog datetime := fun w =>
  let t := clock w + Z.of_N (hd 0%N (ticks w)) in
  (Ok t, log (EvNow t) (with_clock t (tl (ticks w)) w)).

(** *** The [random] module

    Each call consumes one raw draw [k].  [random.random()] returns the
    float [(k mod 2^53) / 2^53]; the model keeps the numerator.
    [random.randint(a, b)] and [random.choice(l)] can return every value
    of their range and nothing else.  Every call site of [randint] has
    [a <= b], so its [ValueError] is left out. *)
Definition next_draw : prog N := fun w =>
  match rng w with
  | [] => (Ok 0%N, w)
  | k :: r => (Ok k, with_rng r w)
  end.

Definition random_random : prog Z :=
  k <- next_draw ;; ret (Z.of_N k mod 2 ^ 53).

Definition randint (a b : Z) : prog Z :=
  k <- next_draw ;; ret (a + Z.of_N k mod (b - a + 1)).

(** Both call sites pass a non-empty literal list, so the [IndexError] of
    an empty list is left out and [dflt] is never returned. *)
Definition choice {A} (dflt : A) (l : list A) : prog A :=
  k <- next_draw ;; ret (nth (N.to_nat k mod length l)%nat l dflt).

(** [r < c] for [r] the numerator of a [random.random()] float and [c] a
    float literal: [k / 2^53 < c] iff [k < ceil (c * 2^53)], where [c] is
    the double the literal denotes. *)
Definition lt_0_4 (r : Z) : bool := r <? 3602879701896397.
Definition lt_0_5 (r : Z) : bool := r <? 4503599627370496.
Definition lt_0_7 (r : Z) : bool := r <? 6305039478318694.
Definition lt_0_85 (r : Z) : bool := r <? 7656119366529843.

(** *** The terminal *)
Definition input (prompt : string) : prog string := fun w =>
  let r := hd InputEOF (stdin w) in
  let w' := log (EvInput prompt r) (with_stdin (tl (stdin w)) w) in
  match r with
  | Line s => (Ok s, w')
  | InputEOF => (Raise EOFError, w')
  | InputInterrupt => (Raise KeyboardInterrupt, w')
  end.

(** *** Processes: [subprocess.run(command, check=check, env=env, ...)]

    [env_date] is the value given to [GIT_AUTHOR_DATE] and
    [GIT_COMMITTER_DATE], when the environment is overridden.  The files
    and directories of the world stand for what the script itself reads
    and writes; what the spawned git keeps under .git is not part of
    them, so a process leaves them as they are. *)
Definition subprocess_run (command : list string) (env_date : option Z) (check : bool)
  : prog completed := fun w =>
  let r := hd (Completed 0 "") (procs w) in
  let w' := log (EvRun command env_date r) (with_procs (tl (procs w)) w) in
  match r with
  | Completed rc out =>
      if check && negb (rc =? 0) then (Raise CalledProcessError, w')
      else (Ok {| returncode := rc; stdout := out |}, w')
  | ProcFault f => (Raise (exn_of_fault f), w')
  end.

(** *** The file system *)
Definition next_fault : prog (option fault) := fun w =>
  (Ok (hd None (io_faults w)), with_io_faults (tl (io_faults w)) w).

Definition fs_call (e : option fault -> event) (effect : world -> world) : prog unit :=
  f <- next_fault ;;
  emit (e f) ;;
  match f with
  | Some f => raise (exn_of_fault f)
  | None => fun w => (Ok tt, effect w)
  end.

(** [path.mkdir(parents=True, exist_ok=True)]. *)
Definition mkdir (path : string) : prog unit :=
  fs_call (EvMkdir path) (fun w => with_dirs ({[ path ]} ∪ dirs w) w).

(** [os.chdir(path)]. *)
Definition chdir (path : string) : prog unit :=
  fs_call (EvChdir path) (with_cwd path).

(** [open(path, 'w')] creates or truncates, [open(path, 'a')] creates or
    keeps; [f.write] appends to what is there. *)
Definition open_w (path : string) : prog unit :=
  fs_call (EvOpen path "w") (fun w => with_files (<[ path := [] ]> (files w)) w).

Definition open_a (path : string) : prog unit :=
  fs_call (EvOpen path "a")
    (fun w => with_files (<[ path := default [] (files w !! path) ]> (files w)) w).

Definition write (path : string) (c : chunk) : prog unit := fun w =>
  (Ok tt, log (EvWrite path c)
            (with_files (<[ path := (default [] (files w !! path) ++ [c])%list ]> (files w)) w)).

(** [path.exists()] and [Path.cwd()]. *)
Definition path_exists (path : string) : prog bool := fun w =>
  (Ok (bool_decide (path ∈ dirs w) || bool_decide (is_Some (files w !! path))), w).

Definition get_cwd : prog string := fun w => (Ok (cwd w), w).

(** [base / name]. *)
Definition joinpath (base name : string) : string := String.append base (String.append "/" name).

(** ** Library functions taken as parameters

    Four functions of the Python library are used by the script through
    their contract only; the model is parametric in them. *)
Class PyLib := {
  (** [datetime.strptime(s, '%Y-%m-%d')]; [None] stands for [ValueError].
      A parsed date is a midnight. *)
  strptime_ymd : string -> option datetime;
  (** [Path(p).resolve()] when the working directory is [cwd]. *)
  path_resolve : forall (cwd p : string), string;
  (** [s.strip()] and [s.lower()]. *)
  str_strip : string -> string;
  str_lower : string -> string
}.

(** Truth value of a string, and of an optional string argument. *)
Definition truthy (s : string) : bool := negb (String.eqb s "").

Definition truthy_opt (s : option string) : bool :=
  match s with Some s => truthy s | None => false end.

(** [response in ['y', 'yes', 'sí', 's']]. *)
Definition affirmative (response : string) : bool :=
  bool_decide (response ∈ ["y"; "yes"; "sí"; "s"]).

(** ** class GitHubContributionsFiller *)

Record filler := Filler {
  repo_path : string;
  start_date : datetime;
  end_date : datetime;
  original_cwd : string;
  author_name : option string;
  author_email : option string
}.

Record tally := Tally { total_commits : Z; successful_commits : Z }.

Definition messages : list string :=
  [ "Actualización automática"; "Progreso diario"; "Mejoras menores";
    "Actualización de datos"; "Commit automático"; "Mantenimiento del código";
    "Actualización de documentación"; "Refactoring menor";
    "Optimización de código"; "Corrección de bugs menores" ].

Definition intensity_map : gmap string (Z * Z) :=
  list_to_map [ ("low", (1, 2)); ("medium", (1, 4)); ("high", (2, 6)); ("very_high", (3, 10)) ].

Section Program.
Context `{PyLib}.

(** [__init__]: a [datetime] is always true, so the clock is read for the
    start date only when none is given. *)
Definition init (repo_path : string) (start_date : option datetime)
    (author_name author_email : option string) : prog filler :=
  c <- get_cwd ;;
  start <- match start_date with
           | Some d => ret d
           | None => n <- now ;; ret (n - timedelta_days 365)
           end ;;
  stop <- now ;;
  c' <- get_cwd ;;
  ret (Filler (path_resolve c repo_path) start stop c' author_name author_email).

(** Every command runs with [cwd=self.repo_path]. *)
Definition _run_git_command (self : filler) (command : list string) (env : option Z)
    (check : bool) : prog completed :=
  try_except (subprocess_run command env check)
    (fun e => match e with
              | CalledProcessError => Some (print (Note "git-command-error") ;; raise CalledProcessError)
              | _ => None
              end).

Definition _check_git_installed : prog unit :=
  try_except (subprocess_run ["git"; "--version"] None true ;; ret tt)
    (fun e => match e with
              | CalledProcessError | OSError FileNotFound =>
                  Some (print (Note "git-not-installed") ;; sys_exit 1)
              | _ => None
              end).

(** [given or input(prompt).strip() or dflt]. *)
Definition or_input (given : option string) (prompt dflt : string) : prog string :=
  if truthy_opt given then ret (default "" given)
  else s <- input prompt ;;
       ret (if truthy (str_strip s) then str_strip s else dflt).

Definition _setup_git_config (self : filler) : prog bool :=
  try_except
    (name_result <- _run_git_command self ["git"; "config"; "user.name"] None false ;;
     email_result <- _run_git_command self ["git"; "config"; "user.email"] None false ;;
     let name_configured :=
       (returncode name_result =? 0) && truthy (str_strip (stdout name_result)) in
     let email_configured :=
       (returncode email_result =? 0) && truthy (str_strip (stdout email_result)) in
     if name_configured && email_configured then
       print (Note "git-configured") ;; ret true
     else
       print (Note "configuring-git") ;;
       (if negb name_configured then
          name <- or_input (author_name self) "name" "GitHub Contributions Bot" ;;
          _run_git_command self ["git"; "config"; "user.name"; name] None true ;;
          print (Note "name-configured")
        else ret tt) ;;
       (if negb email_configured then
          email <- or_input (author_email self) "email" "contributions@example.com" ;;
          _run_git_command self ["git"; "config"; "user.email"; email] None true ;;
          print (Note "email-configured")
        else ret tt) ;;
       ret true)
    (fun e => if is_Exception e
              then Some (print (Note "git-config-error") ;; ret false)
              else None).

Definition _create_initial_files (self : filler) : prog unit :=
  let readme_path := joinpath (repo_path self) "README.md" in
  let data_path := joinpath (repo_path self) "data.txt" in
  readme_exists <- path_exists readme_path ;;
  (if negb readme_exists then
     try_except
       (open_w readme_path ;;
        write readme_path ReadmeTitle ;;
        write readme_path ReadmeText ;;
        t <- now ;;
        write readme_path (ReadmeGenerated (strftime t)))
       (fun e => if is_OSError e
                 then Some (print (Note "readme-error") ;; sys_exit 1)
                 else None)
   else ret tt) ;;
  data_exists <- path_exists data_path ;;
  (if negb data_exists then
     try_except
       (open_w data_path ;;
        write data_path DataHeader ;;
        t <- now ;;
        write data_path (DataStarted (strftime t)))
       (fun e => if is_OSError e
                 then Some (print (Note "data-error") ;; sys_exit 1)
                 else None)
   else ret tt).

Definition setup_repository (self : filler) : prog unit :=
  _check_git_installed ;;
  c <- get_cwd ;;
  (if negb (String.eqb (repo_path self) c) then
     try_except (mkdir (repo_path self))
       (fun e => match e with
                 | OSError PermissionDenied => Some (print (Note "mkdir-denied") ;; sys_exit 1)
                 | _ => None
                 end)
   else ret tt) ;;
  let git_dir := joinpath (repo_path self) ".git" in
  git_dir_exists <- path_exists git_dir ;;
  (if negb git_dir_exists then
     print (Note "initializing") ;;
     try_except
       (_run_git_command self ["git"; "init"; "-b"; "main"] None true ;;
        print (Note "initialized-main"))
       (fun e => match e with
                 | CalledProcessError =>
                     Some (_run_git_command self ["git"; "init"] None true ;;
                           try_except
                             (_run_git_command self ["git"; "checkout"; "-b"; "main"] None true ;;
                              ret tt)
                             (fun e => match e with
                                       | CalledProcessError => Some (ret tt)
                                       | _ => None
                                       end) ;;
                           print (Note "initialized"))
                 | _ => None
                 end)
   else print (Note "existing-repository")) ;;
  configured <- _setup_git_config self ;;
  (if negb configured then print (Note "git-config-failed") ;; sys_exit 1 else ret tt) ;;
  _create_initial_files self.

(** [create_commit]: the first [try] returns [False] from its handler; the
    flag [appended] carries that early return.  [EvCreateCommit] marks the
    call. *)
Definition create_commit (self : filler) (date : datetime) (message : option string)
  : prog bool :=
  emit (EvCreateCommit date) ;;
  message <- (if truthy_opt message then ret (default "" message)
              else choice "" messages) ;;
  let data_path := joinpath (repo_path self) "data.txt" in
  appended <- try_except
                (open_a data_path ;;
                 tag <- randint 1000 9999 ;;
                 write data_path (DataEntry (strftime date) tag) ;;
                 ret true)
                (fun e => if is_OSError e
                          then Some (print (Note "data-append-error") ;; ret false)
                          else None) ;;
  if negb appended then ret false
  else
    let date_str := strftime date in
    try_except
      (_run_git_command self ["git"; "add"; "."] (Some date_str) true ;;
       _run_git_command self ["git"; "commit"; "-m"; message] (Some date_str) true ;;
       ret true)
      (fun e => match e with
                | CalledProcessError => Some (print (Note "commit-error") ;; ret false)
                | _ => None
                end).

Definition should_commit_today (date : datetime) : prog bool :=
  n <- now ;;
  if date >? n then ret false
  else
    sunday_skip <- (if weekday date =? 6
                    then r <- random_random ;; ret (lt_0_4 r)
                    else ret false) ;;
    if sunday_skip then ret false
    else if weekday date <? 5
         then r <- random_random ;; ret (lt_0_85 r)
         else r <- random_random ;; ret (lt_0_5 r).

Definition validate_dates (self : filler) : prog bool :=
  if start_date self >=? end_date self then
    print (Note "start-not-before-end") ;; ret false
  else
    n <- now ;;
    if start_date self >? n then
      print (Note "start-in-future") ;; ret false
    else
      let days_diff := days_between (end_date self) (start_date self) in
      if days_diff >? 400 then
        print (RangeWarning days_diff) ;;
        response <- input "sure" ;;
        if negb (affirmative (str_lower response)) then ret false else ret true
      else ret true.

(** *** generate_commits *)

(** Lines 259-272: the time of one commit on the day [current_date]. *)
Definition pick_commit_time (current_date : datetime) : prog datetime :=
  r <- random_random ;;
  random_hour <- (if lt_0_7 r then randint 9 18
                  else choice 0 (seqZ 7 2 ++ seqZ 19 4)%list) ;;
  random_minute <- randint 0 59 ;;
  random_second <- randint 0 59 ;;
  ret (replace_hms current_date random_hour random_minute random_second).

(** The body of [for i in range(daily_commits)]; [continue] returns the
    tally as it is. *)
Definition commit_body (self : filler) (current_date : datetime) (t : tally) : prog tally :=
  commit_time <- pick_commit_time current_date ;;
  n <- now ;;
  if commit_time >? n then ret t
  else
    created <- create_commit self commit_time None ;;
    let successful := if created then successful_commits t + 1 else successful_commits t in
    let total := total_commits t + 1 in
    (if total mod 100 =? 0 then print (Progress successful total) else ret tt) ;;
    ret (Tally total successful).

(** The body of [while current_date <= self.end_date], without the final
    increment of [current_date]. *)
Definition day_body (self : filler) (min_commits max_commits : Z) (current_date : datetime)
    (t : tally) : prog tally :=
  active <- should_commit_today current_date ;;
  if active then
    daily_commits <- randint min_commits max_commits ;;
    for_range (Z.to_nat daily_commits) (commit_body self current_date) t
  else ret t.

(** The [while] loop, by recursion on a bound on the number of days left;
    [days_left] gives a bound that is never exhausted
    ([days_loop_complete]). *)
Fixpoint days_loop (fuel : nat) (self : filler) (min_commits max_commits : Z)
    (current_date : datetime) (t : tally) : prog tally :=
  if current_date <=? end_date self then
    match fuel with
    | O => ret t
    | S fuel' =>
        t' <- day_body self min_commits max_commits current_date t ;;
        days_loop fuel' self min_commits max_commits (current_date + timedelta_days 1) t'
    end
  else ret t.

Definition days_left (self : filler) (current_date : datetime) : nat :=
  Z.to_nat (days_between (end_date self) current_date + 1).

Definition generate_commits (self : filler) (intensity : string) : prog bool :=
  valid <- validate_dates self ;;
  if negb valid then ret false
  else
    match intensity_map !! intensity with
    | None => print (Note "bad-intensity") ;; ret false
    | Some (min_commits, max_commits) =>
        print (Note "generating") ;;
        t <- days_loop (days_left self (start_date self)) self min_commits max_commits
               (start_date self) (Tally 0 0) ;;
        print (Totals (total_commits t) (successful_commits t)) ;;
        (if total_commits t >? successful_commits t
         then print (Failed (total_commits t - successful_commits t))
         else ret tt) ;;
        ret (successful_commits t >? 0)
    end.

(** *** The remote *)

Definition known_host (repo_url : string) : bool :=
  String.prefix "https://github.com/" repo_url
  || String.prefix "git@github.com:" repo_url
  || String.prefix "https://gitlab.com/" repo_url
  || String.prefix "git@gitlab.com:" repo_url.

Definition setup_remote_repository (self : filler) (repo_url : string) : prog bool :=
  if negb (truthy repo_url) then print (Note "no-url") ;; ret false
  else
    (if negb (known_host repo_url) then print (Note "unknown-host") else ret tt) ;;
    try_except
      (result <- _run_git_command self ["git"; "remote"; "get-url"; "origin"] None false ;;
       if returncode result =? 0 then
         let existing_url := str_strip (stdout result) in
         if String.eqb existing_url repo_url then
           print (Note "remote-ok") ;; ret true
         else
           print (Note "remote-differs") ;;
           response <- input "update" ;;
           if affirmative (str_lower response) then
             _run_git_command self ["git"; "remote"; "set-url"; "origin"; repo_url] None true ;;
             print (Note "remote-updated") ;; ret true
           else ret false
       else
         _run_git_command self ["git"; "remote"; "add"; "origin"; repo_url] None true ;;
         print (Note "remote-added") ;; ret true)
      (fun e => match e with
                | CalledProcessError => Some (print (Note "remote-error") ;; ret false)
                | _ => None
                end).

Definition push_to_github (self : filler) : prog bool :=
  try_except
    (print (Note "checking-remote") ;;
     result <- _run_git_command self ["git"; "remote"; "get-url"; "origin"] None false ;;
     if negb (returncode result =? 0) then print (Note "no-remote") ;; ret false
     else
       print (Note "pushing") ;;
       try_except
         (_run_git_command self ["git"; "push"; "-u"; "origin"; "main"] None true ;;
          print (Note "pushed") ;; ret true)
         (fun e => match e with
                   | CalledProcessError =>
                       Some (print (Note "push-conflict") ;;
                             response <- input "force" ;;
                             if affirmative (str_lower response) then
                               _run_git_command self
                                 ["git"; "push"; "--force"; "origin"; "main"] None true ;;
                               print (Note "force-pushed") ;; ret true
                             else print (Note "push-cancelled") ;; ret false)
                   | _ => None
                   end))
    (fun e => match e with
              | CalledProcessError => Some (print (Note "push-error") ;; ret false)
              | _ => None
              end).

(** A bare [except:] swallows every exception. *)
Definition cleanup_on_error (self : filler) : prog unit :=
  try_except (chdir (original_cwd self)) (fun _ => Some (ret tt)).

(** ** The command line *)

Definition parse_date (date_string : string) : prog datetime :=
  match strptime_ymd date_string with
  | Some d => ret d
  | None => print (Note "bad-date") ;; sys_exit 1
  end.

(** The parsed arguments ([argparse] itself is not modelled). *)
Record args := Args {
  arg_start_date : string;
  arg_intensity : string;
  arg_repo_url : option string;
  arg_local_path : string;
  arg_author_name : option string;
  arg_author_email : option string;
  arg_dry_run : bool
}.

(** The two handlers of [main]; [filler] is [None] until the constructor
    has returned. *)
Definition main_handlers (filler : option filler) (e : exn) : option (prog unit) :=
  match e with
  | KeyboardInterrupt =>
      Some (print (Note "interrupted") ;;
            match filler with Some f => cleanup_on_error f | None => ret tt end)
  | _ =>
      if is_Exception e then
        Some (print (Note "unexpected-error") ;;
              match filler with Some f => cleanup_on_error f | None => ret tt end ;;
              sys_exit 1)
      else None
  end.

(** The statements of the [try] block that follow the construction of
    [filler]. *)
Definition main_steps (a : args) (filler : filler) : prog unit :=
  print (Note "setting-up") ;;
  setup_repository filler ;;
  print (Note "generating-commits") ;;
  success <- generate_commits filler (arg_intensity a) ;;
  if negb success then print (Note "no-commits") ;; ret tt
  else if truthy_opt (arg_repo_url a) then
    print (Note "configuring-remote") ;;
    remote_ok <- setup_remote_repository filler (default "" (arg_repo_url a)) ;;
    if remote_ok then
      response <- input "push" ;;
      if affirmative (str_lower response) then
        success <- push_to_github filler ;;
        if success then print (Note "done") else ret tt
      else print (Note "push-later")
    else ret tt
  else print (Note "next-steps").

Definition main_try (a : args) (start_date : datetime) : prog unit := fun w =>
  match init (arg_local_path a) (Some start_date) (arg_author_name a) (arg_author_email a) w with
  | (Raise e, w') =>
      match main_handlers None e with
      | Some k => k w'
      | None => (Raise e, w')
      end
  | (Ok filler, w') => try_except (main_steps a filler) (main_handlers (Some filler)) w'
  end.

Definition main (a : args) : prog unit :=
  start_date <- parse_date (arg_start_date a) ;;
  n <- now ;;
  print (Banner (toordinal start_date) (toordinal n) (arg_intensity a) (arg_local_path a)
           (if truthy_opt (arg_repo_url a) then arg_repo_url a else None)) ;;
  if arg_dry_run a then
    print (Note "dry-run") ;;
    n <- now ;;
    let days := days_between n start_date in
    print (DryRunDays days) ;;
    ret tt
  else
    response <- input "continue" ;;
    if negb (affirmative (str_lower response)) then
      print (Note "cancelled") ;; ret tt
    else main_try a start_date.
End Program.

(** *** argparse (lines 393-424)

    [parser.parse_args()] either returns the namespace or ends the
    program, by [sys.exit], after printing a message of its own: the
    help, with status 0, or a usage error, with status 2. *)
Inductive parse_outcome :=
| Parsed (a : args)
| ParseExit (code : Z).

Class ArgParse := {
  (** [parse_args argv now]: the outcome for the command line [argv], the
      default of --start-date being computed from the clock reading
      [now] (line 407). *)
  parse_args : list string -> datetime -> parse_outcome;
  parse_args_status :
    forall argv now code, parse_args argv now = ParseExit code -> code = 0 \/ code = 2
}.

Section CommandLine.
Context `{PyLib} `{ArgParse}.

(** [main()] from its first line: building the parser reads the clock,
    then the command line is parsed, outside any [try]. *)
Definition main_argv (argv : list string) : prog unit :=
  n <- now ;;
  match parse_args argv n with
  | Parsed a => main a
  | ParseExit code =>
      print (Note (if code =? 0 then "help" else "usage")) ;; sys_exit code
  end.

End CommandLine.

(** *** The scheduler's loop, as the spec describes it

    [tiered_run self lo hi d t w r w']: the loop over the days, started on
    day [d] with the tally [t] in the world [w], ends with [r] in the
    world [w'], and on each of its active days the number of commits
    scheduled is a number drawn within the bounds [lo] and [hi]: a day
    after the end date ends the loop; a day that [should_commit_today]
    declines is passed over; on an active day some [n] with
    [lo <= n <= hi] is drawn, which only consumes random numbers, and the
    inner loop runs [n] times. *)
Inductive tiered_run (self : filler) (lo hi : Z) :
    datetime -> tally -> world -> result tally -> world -> Prop :=
| run_over d t w :
    end_date self < d ->
    tiered_run self lo hi d t w (Ok t) w
| run_inactive d t w w1 r w' :
    d <= end_date self ->
    should_commit_today d w = (Ok false, w1) ->
    tiered_run self lo hi (d + timedelta_days 1) t w1 r w' ->
    tiered_run self lo hi d t w r w'
| run_active d t w w1 n rest t' w3 r w' :
    d <= end_date self ->
    should_commit_today d w = (Ok true, w1) ->
    lo <= n <= hi ->
    for_range (Z.to_nat n) (commit_body self d) t (with_rng rest w1) = (Ok t', w3) ->
    tiered_run self lo hi (d + timedelta_days 1) t' w3 r w' ->
    tiered_run self lo hi d t w r w'
| run_raised d t w w1 n rest e w3 :
    d <= end_date self ->
    should_commit_today d w = (Ok true, w1) ->
    lo <= n <= hi ->
    for_range (Z.to_nat n) (commit_body self d) t (with_rng rest w1) = (Raise e, w3) ->
    tiered_run self lo hi d t w (Raise e) w3.

(** ** A concrete library, for running the program

    Strict zero-padded [YYYY-MM-DD] dates, ASCII white space and ASCII
    case, paths relative to the working directory. *)
Module Lib.

Definition digit (c : ascii) : option Z :=
  let n := Z.of_nat (nat_of_ascii c) in
  if (48 <=? n) && (n <=? 57) then Some (n - 48) else None.

Fixpoint number (acc : Z) (s : list ascii) : option Z :=
  match s with
  | [] => Some acc
  | c :: s' => match digit c with
               | Some d => number (10 * acc + d) s'
               | None => None
               end
  end.

Definition is_leap (y : Z) : bool :=
  (y mod 4 =? 0) && (negb (y mod 100 =? 0) || (y mod 400 =? 0)).

Definition days_in_month (y m : Z) : Z :=
  if m =? 2 then (if is_leap y then 29 else 28)
  else if (m =? 4) || (m =? 6) || (m =? 9) || (m =? 11) then 30 else 31.

Fixpoint days_before_month (y : Z) (m : nat) : Z :=
  match m with
  | O => 0
  | S m' => days_before_month y m' + days_in_month y (Z.of_nat m)
  end.

Definition ymd2ord (y m d : Z) : Z :=
  let y1 := y - 1 in
  y1 * 365 + y1 / 4 - y1 / 100 + y1 / 400 + days_before_month y (Z.to_nat (m - 1)) + d.

Definition strptime (s : string) : option Z :=
  match String.list_ascii_of_string s with
  | [y1; y2; y3; y4; dash1; m1; m2; dash2; d1; d2] =>
      match number 0 [y1; y2; y3; y4], number 0 [m1; m2], number 0 [d1; d2] with
      | Some y, Some m, Some d =>
          if Ascii.eqb dash1 "-" && Ascii.eqb dash2 "-"
             && (1 <=? y) && (1 <=? m) && (m <=? 12) && (1 <=? d) && (d <=? days_in_month y m)
          then Some (ymd2ord y m d * DAY)
          else None
      | _, _, _ => None
      end
  | _ => None
  end.

Definition is_space (c : ascii) : bool :=
  let n := nat_of_ascii c in
  ((9 <=? n) && (n <=? 13) || (n =? 32))%nat.

Fixpoint lstrip (s : list ascii) : list ascii :=
  match s with
  | c :: s' => if is_space c then lstrip s' else s
  | [] => []
  end.

Definition strip (s : string) : string :=
  String.string_of_list_ascii (rev (lstrip (rev (lstrip (String.list_ascii_of_string s))))).

Definition lower_ascii (c : ascii) : ascii :=
  let n := nat_of_ascii c in
  if ((65 <=? n) && (n <=? 90))%nat then ascii_of_nat (n + 32) else c.

Definition lower (s : string) : string :=
  String.string_of_list_ascii (map lower_ascii (String.list_ascii_of_string s)).

Definition resolve (cwd p : string) : string :=
  if String.eqb p "." then cwd
  else if String.prefix "/" p then p
  else joinpath cwd p.

End Lib.

Definition example_lib : PyLib :=
  {| strptime_ymd := Lib.strptime;
     path_resolve := Lib.resolve;
     str_strip := Lib.strip;
     str_lower := Lib.lower |}.

(** ** Reading traces

    All the lists of events below are newest first, as [trace] is. *)

Fixpoint count (p : event -> bool) (evs : list event) : Z :=
  match evs with
  | [] => 0
  | e :: evs' => (if p e then 1 else 0) + count p evs'
  end.

Definition is_create_commit (e : event) : bool :=
  match e with EvCreateCommit _ => true | _ => false end.

(** A [git commit] that completed with return code 0. *)
Definition is_commit_success (e : event) : bool :=
  match e with
  | EvRun (tool :: sub :: _) _ (Completed rc _) =>
      String.eqb tool "git" && String.eqb sub "commit" && (rc =? 0)
  | _ => false
  end.

Definition is_run (e : event) : bool :=
  match e with EvRun _ _ _ => true | _ => false end.

(** A [git config <key> <value>], which sets [key]. *)
Definition is_config_write (e : event) : bool :=
  match e with
  | EvRun (tool :: sub :: _ :: _ :: _) _ _ => String.eqb tool "git" && String.eqb sub "config"
  | _ => false
  end.

Definition is_totals (e : event) : bool :=
  match e with EvPrint (Totals _ _) => true | _ => false end.

(** The totals of the latest report, if any. *)
Fixpoint reported_totals (evs : list event) : option (Z * Z) :=
  match evs with
  | [] => None
  | EvPrint (Totals total successful) :: _ => Some (total, successful)
  | _ :: evs' => reported_totals evs'
  end.

(** The calls of [create_commit] and the commits that succeeded. *)
Definition attempted (evs : list event) : Z := count is_create_commit evs.
Definition succeeded (evs : list event) : Z := count is_commit_success evs.

(** The latest reading of the clock in [evs]. *)
Fixpoint last_now (evs : list event) : option datetime :=
  match evs with
  | [] => None
  | EvNow t :: _ => Some t
  | _ :: evs' => last_now evs'
  end.

(** Every call of [create_commit] comes after a reading of the clock, and
    its date is not later than the latest such reading. *)
Fixpoint no_future_commit (evs : list event) : bool :=
  match evs with
  | [] => true
  | EvCreateCommit date :: evs' =>
      match last_now evs' with
      | Some t => date <=? t
      | None => false
      end && no_future_commit evs'
  | _ :: evs' => no_future_commit evs'
  end.

(** The messages that announce a fatal error. *)
Definition fatal_notes : list string :=
  [ "bad-date"; "git-not-installed"; "mkdir-denied"; "git-config-failed";
    "readme-error"; "data-error"; "unexpected-error" ].

Definition is_fatal_note (e : event) : bool :=
  match e with
  | EvPrint (Note key) => bool_decide (key ∈ fatal_notes)
  | _ => false
  end.

(** The exit status of the process, when [main] ends with [r]: a normal
    return is status 0, [sys.exit(c)] is status [c], and for an exception
    that leaves [main] the interpreter prints a traceback and ends with
    status 1.  An uncaught [KeyboardInterrupt] is handled by the
    interpreter in its own way (from Python 3.8 on the process ends by
    the signal, which a shell reports as 130; before, with status 1): it
    is never status 0, and it is given no number here. *)
Definition exit_code (r : result unit) : option Z :=
  match r with
  | Ok _ => Some 0
  | Raise (SystemExit c) => Some c
  | Raise KeyboardInterrupt => None
  | Raise _ => Some 1
  end.

(** ** Specifications over the events of a run *)

(** [emits m Q]: from every world, [m] adds events [evs] to the trace and
    ends with a result [r] such that [Q r evs]. *)
Definition emits {A} (m : prog A) (Q : result A -> list event -> Prop) : Prop :=
  forall w, exists evs, trace (m w).2 = (evs ++ trace w)%list /\ Q (m w).1 evs.

(** [safe P E m]: [m] emits only events that satisfy [P] and raises only
    exceptions that satisfy [E]. *)
Definition safe {A} (P : event -> bool) (E : exn -> bool) (m : prog A) : Prop :=
  emits m (fun r evs => Forall (fun e => P e = true) evs /\
                        forall e, r = Raise e -> E e = true).

Definition not_exit (e : exn) : bool :=
  match e with SystemExit _ => false | _ => true end.

Definition any_exn (e : exn) : bool := true.

Definition no_exn (e : exn) : bool := false.

(** An event is calm when it does not announce a fatal error; it is quiet
    when it leaves the tally of commits alone. *)
Definition calm_event (e : event) : bool := negb (is_fatal_note e).

Definition quiet_event (e : event) : bool :=
  negb (is_create_commit e) && negb (is_commit_success e) && negb (is_totals e).

(** What an interaction returns to the program. *)
Definition result_of_input (r : input_result) : result string :=
  match r with
  | Line s => Ok s
  | InputEOF => Raise EOFError
  | InputInterrupt => Raise KeyboardInterrupt
  end.

Definition result_of_proc (check : bool) (r : proc_result) : result completed :=
  match r with
  | Completed rc out =>
      if check && negb (rc =? 0) then Raise CalledProcessError
      else Ok {| returncode := rc; stdout := out |}
  | ProcFault f => Raise (exn_of_fault f)
  end.

Definition result_of_fault (f : option fault) : result unit :=
  match f with
  | None => Ok tt
  | Some f => Raise (exn_of_fault f)
  end.

(** [always Q m]: the events of every run of [m] satisfy [Q]. *)
Definition always {A} (Q : list event -> Prop) (m : prog A) : Prop :=
  emits m (fun _ evs => Q evs).

(** [emits_at m w Q]: the pointwise form of [emits], which also speaks of
    the final world. *)
Definition emits_at {A} (m : prog A) (w : world)
    (Q : result A -> world -> list event -> Prop) : Prop :=
  exists evs, trace (m w).2 = (evs ++ trace w)%list /\ Q (m w).1 (m w).2 evs.

(** [preserves part m]: [m] leaves the part [part] of the world as it is;
    [maintains I m]: [m] keeps the property [I] of the world. *)
Definition preserves {X A} (part : world -> X) (m : prog A) : Prop :=
  forall w, part (m w).2 = part w.

Definition maintains {A} (I : world -> Prop) (m : prog A) : Prop :=
  forall w, I w -> I (m w).2.

(** Kinds of events. *)
Definition no_event (e : event) : bool := false.
Definition not_create_commit (e : event) : bool := negb (is_create_commit e).
Definition not_commit_success (e : event) : bool := negb (is_commit_success e).
Definition not_totals (e : event) : bool := negb (is_totals e).
Definition not_run (e : event) : bool := negb (is_run e).
Definition not_config_write (e : event) : bool := negb (is_config_write e).

Definition future_free (evs : list event) : Prop := no_future_commit evs = true.

(** What [create_commit] answers, as a number of successful commits. *)
Definition commits_of {A} (r : result A) (created : A -> bool) : Z :=
  match r with
  | Ok a => if created a then 1 else 0
  | Raise _ => 0
  end.

(** The tally [t] has become [t'] along the events [evs]: the total grew
    by the calls of [create_commit], at most [bound] of them, and the
    successes by the commits that succeeded. *)
Definition tallied (t : tally) (bound : Z) (r : result tally) (evs : list event) : Prop :=
  0 <= attempted evs <= bound /\
  forall t', r = Ok t' ->
    total_commits t' = total_commits t + attempted evs /\
    successful_commits t' = successful_commits t + succeeded evs.

(** What [generate_commits] reports and returns, in terms of the events of
    its run: at most [bound] calls of [create_commit]; a line of totals,
    if printed, gives the number of calls and the number of commits that
    succeeded; the value returned tells whether a commit succeeded, and
    the totals have been printed when it is [True]. *)
Definition generated (bound : Z) (r : result bool) (evs : list event) : Prop :=
  0 <= attempted evs <= bound /\
  (forall total successful,
     In (EvPrint (Totals total successful)) evs ->
     total = attempted evs /\ successful = succeeded evs) /\
  (forall b, r = Ok b ->
     b = (succeeded evs >? 0) /\
     (b = true -> In (EvPrint (Totals (attempted evs) (succeeded evs))) evs)).

(** The bound on the calls of [create_commit] in a run of
    [generate_commits]: the largest daily count times the number of days
    visited. *)
Definition commit_bound (self : filler) (intensity : string) : Z :=
  match intensity_map !! intensity with
  | Some (_, hi) => Z.of_nat (days_left self (start_date self)) * hi
  | None => 0
  end.

(** When a run ends with [sys.exit(c)], [c] is 1 and a fatal error has
    been announced; otherwise no fatal error has been announced. *)
Definition exit_spec {A} (r : result A) (evs : list event) : Prop :=
  match r with
  | Raise (SystemExit c) => c = 1 /\ Exists (fun e => is_fatal_note e = true) evs
  | _ => Forall (fun e => calm_event e = true) evs
  end.

Definition exit_ok {A} (m : prog A) : Prop := emits m exit_spec.

(** More kinds of events: prompts, calls to the file system, and the git
    commands by their subcommand and first argument. *)
Definition is_input (e : event) : bool :=
  match e with EvInput _ _ => true | _ => false end.

Definition is_fs (e : event) : bool :=
  match e with
  | EvMkdir _ _ | EvChdir _ _ | EvOpen _ _ _ | EvWrite _ _ => true
  | _ => false
  end.

Definition is_mkdir (e : event) : bool :=
  match e with EvMkdir _ _ => true | _ => false end.

Definition is_git (sub : string) (e : event) : bool :=
  match e with
  | EvRun (tool :: sub' :: _) _ _ => String.eqb tool "git" && String.eqb sub' sub
  | _ => false
  end.

Definition is_git_with (sub arg : string) (e : event) : bool :=
  match e with
  | EvRun (tool :: sub' :: arg' :: _) _ _ =>
      String.eqb tool "git" && String.eqb sub' sub && String.eqb arg' arg
  | _ => false
  end.

(** [git init ...] and [git checkout ...], which create a repository and
    its branch. *)
Definition is_init (e : event) : bool := is_git "init" e || is_git "checkout" e.

(** [git config <key> <value>], which sets [key]. *)
Definition is_config_write_of (key : string) (e : event) : bool :=
  match e with
  | EvRun (tool :: sub :: key' :: _ :: _) _ _ =>
      String.eqb tool "git" && String.eqb sub "config" && String.eqb key' key
  | _ => false
  end.

Definition is_set_url (e : event) : bool := is_git_with "remote" "set-url" e.
Definition is_push (e : event) : bool := is_git "push" e.
Definition is_force_push (e : event) : bool := is_git_with "push" "--force" e.
Definition is_remote_or_push (e : event) : bool := is_git "remote" e || is_git "push" e.

(** An interaction with the world outside the terminal and the clock: a
    spawned process, a call to the file system, or a call of
    [create_commit]. *)
Definition is_action (e : event) : bool := is_run e || is_fs e || is_create_commit e.

Definition not_input (e : event) : bool := negb (is_input e).
Definition not_mkdir (e : event) : bool := negb (is_mkdir e).
Definition not_init (e : event) : bool := negb (is_init e).
Definition not_set_url (e : event) : bool := negb (is_set_url e).
Definition not_push (e : event) : bool := negb (is_push e).
Definition not_force_push (e : event) : bool := negb (is_force_push e).
Definition not_remote_or_push (e : event) : bool := negb (is_remote_or_push e).
Definition not_action (e : event) : bool := negb (is_action e).
Definition not_note (key : string) (e : event) : bool :=
  match e with EvPrint (Note key') => negb (String.eqb key' key) | _ => true end.

(** An event that is neither an answer to the first prompt nor the
    usage error of argparse. *)
Definition past_first_prompt (e : event) : bool :=
  match e with
  | EvInput prompt _ => negb (String.eqb prompt "continue")
  | EvPrint (Note key) => negb (String.eqb key "usage")
  | _ => true
  end.

(** A call to the file system that appends to [path]: the file is
    opened in mode 'a', or an entry is written to it.  Every other call
    to the file system is excluded. *)
Definition appends_to (path : string) (e : event) : bool :=
  match e with
  | EvOpen path' mode _ => String.eqb path' path && String.eqb mode "a"
  | EvWrite path' (DataEntry _ _) => String.eqb path' path
  | EvWrite _ _ | EvMkdir _ _ | EvChdir _ _ => false
  | _ => true
  end.

(** The path exists in the world, as a directory or as a file. *)
Definition present (path : string) (w : world) : Prop :=
  bool_decide (path ∈ dirs w) || bool_decide (is_Some (files w !! path)) = true.

(** The content of a file, empty when there is none. *)
Definition content (path : string) (w : world) : list chunk :=
  default [] (files w !! path).

(** A call of [create_commit] is dated on a day between the ordinals
    [first] and [last], at an hour from 7 to 22. *)
Definition commit_dated (first last : Z) (e : event) : Prop :=
  match e with
  | EvCreateCommit date => first <= toordinal date <= last /\ 7 <= hour_of date <= 22
  | _ => True
  end.

(** The chunks that [create_commit] appends to data.txt. *)
Definition is_entry (c : chunk) : Prop :=
  match c with DataEntry _ _ => True | _ => False end.

(** The files other than [path]. *)
Definition other_files (path : string) (w : world) : gmap string (list chunk) :=
  delete path (files w).

(** A process spawned on behalf of [create_commit]: [git add .] or
    [git commit -m message] for an allowed message, with the commit dates
    of the environment set to [date_str]. *)
Definition commit_event (date_str : Z) (allowed : string -> Prop) (e : event) : Prop :=
  match e with
  | EvRun command env _ =>
      env = Some date_str /\
      (command = ["git"; "add"; "."] \/
       exists message, command = ["git"; "commit"; "-m"; message] /\ allowed message)
  | _ => True
  end.

(** The message of a commit: the one given, or one of the fixed list. *)
Definition allowed_message (given : option string) (message : string) : Prop :=
  if truthy_opt given then given = Some message else In message messages.

Section Consent.
Context `{PyLib}.

(** The user has answered [prompt] with one of the affirmative words. *)
Definition consented (prompt : string) (evs : list event) : Prop :=
  exists response,
    In (EvInput prompt (Line response)) evs /\ affirmative (str_lower response) = true.

(** Every event of the kind [P] comes after an affirmative answer to
    [prompt]. *)
Definition guarded (P : event -> bool) (prompt : string) (evs : list event) : Prop :=
  forall newer e older,
    evs = (newer ++ e :: older)%list -> P e = true -> consented prompt older.

End Consent.

(** ** Concrete runs

    The worlds and arguments on which the program is run below.
    [monday] is Monday 2024-01-01, the day of ordinal 738886. *)
Module Example.

Definition monday : datetime := 738886 * DAY.

Definition blank (now : datetime) : world :=
  World now [] [] [] [] [] "/home/ada/repo" ∅ ∅ [].

Definition ada : filler :=
  Filler "/home/ada/repo" monday (monday + 3 * DAY + 12 * HOUR) "/home/ada/repo"
         (Some "Ada") (Some "ada@example.org").

(** A dry run asked on Thursday 2024-01-11 at 05:00, the clock advancing
    by 3 and then 4 microseconds between its readings. *)
Definition dry_args : args :=
  Args "2024-01-01" "medium" None "." None None true.

Definition dry_world : world :=
  World (monday + 10 * DAY + 5 * HOUR) [3; 4]%N [] [] [] [] "/home/ada/repo" ∅ ∅ [].

(** Thursday noon, the first draw being 0. *)
Definition thursday_noon : world :=
  World (monday + 3 * DAY + 12 * HOUR) [] [0; 1]%N [] [] [] "/home/ada/repo" ∅ ∅ [].

(** Thursday 2024-01-04. *)
Definition thursday : datetime := monday + 3 * DAY.

(** Thursday 08:00, all draws being 0: the time picked for a commit on
    that day is 09:00:00. *)
Definition thursday_morning : world := blank (thursday + 8 * HOUR).

(** A range that holds Thursday only, up to noon. *)
Definition today : filler :=
  Filler "/home/ada/repo" thursday (thursday + 12 * HOUR) "/home/ada/repo"
         (Some "Ada") (Some "ada@example.org").

(** Thursday noon: one commit is drawn and git succeeds. *)
Definition one_commit : world := blank (thursday + 12 * HOUR).

(** Thursday noon: two commits are drawn, and the second [git commit]
    fails. *)
Definition two_commits : world :=
  World (thursday + 12 * HOUR) [] [0; 1]%N []
        [Completed 0 ""; Completed 0 ""; Completed 0 ""; Completed 1 ""] []
        "/home/ada/repo" ∅ ∅ [].

(** A range whose start is its end minus one day: from Wednesday 23:00
    to Thursday 23:00. *)
Definition one_day : filler :=
  Filler "/home/ada/repo" (thursday - DAY + 23 * HOUR) (thursday + 23 * HOUR)
         "/home/ada/repo" (Some "Ada") (Some "ada@example.org").

(** Thursday 23:00: two commits are drawn on each of the two days. *)
Definition busy : world :=
  World (thursday + 23 * HOUR) []
        [0; 1; 0; 0; 0; 0; 0; 0; 0; 0; 0; 0; 0; 0; 0; 1]%N [] [] []
        "/home/ada/repo" ∅ ∅ [].

(** Thursday noon: [git add] succeeds, [git commit] fails. *)
Definition commit_fails : world :=
  World (thursday + 12 * HOUR) [] [] [] [Completed 0 ""; Completed 1 ""] []
        "/home/ada/repo" ∅ ∅ [].

(** A repository that is set up already: a .git directory, both seed
    files, and a git that reports a name and an email. *)
Definition set_up : world :=
  World (thursday + 12 * HOUR) [] [] []
        [Completed 0 "git version 2.43.0"; Completed 0 "Ada"; Completed 0 "ada@example.org"] []
        "/home/ada/repo"
        {[ "/home/ada/repo/.git" ]}
        {[ "/home/ada/repo/README.md" := [ReadmeTitle];
           "/home/ada/repo/data.txt" := [DataHeader] ]}
        [].

(** A run of the whole program for Thursday 2024-01-04, confirmed at the
    prompt. *)
Definition run_args : args :=
  Args "2024-01-04" "low" None "." (Some "Ada") (Some "ada@example.org") false.

(** Git is installed and reports no identity; setting user.name fails,
    the configuration file being locked. *)
Definition config_locked : world :=
  World (thursday + 12 * HOUR) [] [] [Line "y"]
        [Completed 0 "git version 2.43.0"; Completed 1 ""; Completed 1 ""; Completed 255 ""] []
        "/home/ada/repo" {[ "/home/ada/repo/.git" ]} ∅ [].

(** Everything is set up; the only [git add] of the run fails. *)
Definition add_fails : world :=
  World (thursday + 12 * HOUR) [] [] [Line "y"]
        [Completed 0 "git version 2.43.0"; Completed 0 "Ada"; Completed 0 "ada@example.org";
         Completed 1 ""] []
        "/home/ada/repo"
        {[ "/home/ada/repo/.git" ]}
        {[ "/home/ada/repo/README.md" := [ReadmeTitle];
           "/home/ada/repo/data.txt" := [DataHeader] ]}
        [].

(** The user interrupts the program at its first prompt. *)
Definition prompt_interrupted : world :=
  World (thursday + 12 * HOUR) [] [] [InputInterrupt] [] []
        "/home/ada/repo" {[ "/home/ada/repo/.git" ]} ∅ [].

(** The user interrupts the program while [git --version] runs. *)
Definition interrupted : world :=
  World (thursday + 12 * HOUR) [] [] [Line "y"] [ProcFault FaultInterrupt] []
        "/home/ada/repo" {[ "/home/ada/repo/.git" ]} ∅ [].

(** Thursday noon: the file system refuses to open a file. *)
Definition read_only : world :=
  World (thursday + 12 * HOUR) [] [] [] [] [Some (FaultOS PermissionDenied)]
        "/home/ada/repo" ∅ ∅ [].

(** Git reports a name and an email. *)
Definition identity_known : world :=
  World (thursday + 12 * HOUR) [] [] []
        [Completed 0 "Ada"; Completed 0 "ada@example.org"] []
        "/home/ada/repo" {[ "/home/ada/repo/.git" ]} ∅ [].

(** The remote origin is set to the URL of Ada's repository. *)
Definition ada_url : string := "https://github.com/ada/repo.git".

Definition origin_set : world :=
  World (thursday + 12 * HOUR) [] [] [] [Completed 0 ada_url] []
        "/home/ada/repo" {[ "/home/ada/repo/.git" ]} ∅ [].

(** There is no remote origin: [git remote get-url origin] ends with
    code 2. *)
Definition no_origin : world :=
  World (thursday + 12 * HOUR) [] [] [] [Completed 2 ""] []
        "/home/ada/repo" {[ "/home/ada/repo/.git" ]} ∅ [].

End Example.

(** * Proofs *)

(** ** Rules for [emits] *)

Lemma emits_weaken {A} (m : prog A) (Q Q' : result A -> list event -> Prop) :
  emits m Q -> (forall r evs, Q r evs -> Q' r evs) -> emits m Q'.
Proof.
  intros Hm HQ w. destruct (Hm w) as (evs & Ht & Hq). exists evs. auto.
Qed.

Lemma emits_ret {A} (a : A) (Q : result A -> list event -> Prop) :
  Q (Ok a) [] -> emits (ret a) Q.
Proof. intros HQ w. exists []. auto. Qed.

Lemma emits_raise {A} (e : exn) (Q : result A -> list event -> Prop) :
  Q (Raise e) [] -> emits (raise e) Q.
Proof. intros HQ w. exists []. auto. Qed.

Lemma emits_emit (e : event) (Q : result unit -> list event -> Prop) :
  Q (Ok tt) [e] -> emits (emit e) Q.
Proof. intros HQ w. exists [e]. auto. Qed.

Lemma emits_bind {A B} (m : prog A) (k : A -> prog B) Q1 (Q : result B -> list event -> Prop) :
  emits m Q1 ->
  (forall e evs, Q1 (Raise e) evs -> Q (Raise e) evs) ->
  (forall a evs1, Q1 (Ok a) evs1 -> emits (k a) (fun r evs2 => Q r (evs2 ++ evs1)%list)) ->
  emits (bind m k) Q.
Proof.
  intros Hm Hraise Hk w. unfold bind.
  destruct (Hm w) as (evs1 & Ht1 & Hq1).
  destruct (m w) as [[a | e] w1]; simpl in *.
  - destruct (Hk a evs1 Hq1 w1) as (evs2 & Ht2 & Hq2).
    exists (evs2 ++ evs1)%list. split; [| exact Hq2].
    rewrite Ht2, Ht1. apply app_assoc.
  - exists evs1. auto.
Qed.

Lemma emits_try {A} (m : prog A) (h : exn -> option (prog A)) Q1
    (Q : result A -> list event -> Prop) :
  emits m Q1 ->
  (forall a evs, Q1 (Ok a) evs -> Q (Ok a) evs) ->
  (forall e evs1, Q1 (Raise e) evs1 ->
     match h e with
     | Some k => emits k (fun r evs2 => Q r (evs2 ++ evs1)%list)
     | None => Q (Raise e) evs1
     end) ->
  emits (try_except m h) Q.
Proof.
  intros Hm Hok Hh w. unfold try_except.
  destruct (Hm w) as (evs1 & Ht1 & Hq1).
  destruct (m w) as [[a | e] w1]; simpl in *.
  - exists evs1. auto.
  - specialize (Hh e evs1 Hq1). destruct (h e) as [k |].
    + destruct (Hh w1) as (evs2 & Ht2 & Hq2).
      exists (evs2 ++ evs1)%list. split; [| exact Hq2].
      rewrite Ht2, Ht1. apply app_assoc.
    + exists evs1. auto.
Qed.

(** ** What the primitives emit *)




Lemma emits_now : emits now (fun r evs => exists t, r = Ok t /\ evs = [EvNow t]).
Proof.
  intros w. exists [EvNow (clock w + Z.of_N (hd 0%N (ticks w)))].
  split; [reflexivity |]. simpl. eauto.
Qed.

Lemma emits_next_draw : emits next_draw (fun r evs => exists k, r = Ok k /\ evs = []).
Proof. intros w. exists []. unfold next_draw. destruct (rng w); simpl; eauto. Qed.

Lemma emits_random_random :
  emits random_random (fun r evs => exists k, r = Ok k /\ evs = []).
Proof.
  intros w. exists []. unfold random_random, bind, next_draw, ret.
  destruct (rng w); simpl; eauto.
Qed.

Lemma emits_randint (a b : Z) :
  emits (randint a b)
    (fun r evs => exists n, r = Ok n /\ evs = [] /\ (a <= b -> a <= n <= b)).
Proof.
  intros w. exists []. unfold randint, bind, next_draw, ret.
  destruct (rng w) as [| k rest]; simpl; (split; [reflexivity |]);
    eexists; (split; [reflexivity |]); (split; [reflexivity |]); intros Hab.
  - rewrite Z.mod_0_l by lia. lia.
  - pose proof (Z.mod_pos_bound (Z.of_N k) (b - a + 1)). lia.
Qed.

Lemma emits_choice {A} (dflt : A) (l : list A) :
  emits (choice dflt l)
    (fun r evs => exists x, r = Ok x /\ evs = [] /\ (l <> [] -> In x l)).
Proof.
  intros w. exists []. unfold choice, bind, next_draw, ret.
  assert (Hnth : forall i, l <> [] -> In (nth (i mod length l)%nat l dflt) l).
  { intros i Hl. apply nth_In. apply Nat.mod_upper_bound.
    destruct l; [congruence | simpl; lia]. }
  destruct (rng w) as [| k rest]; simpl; (split; [reflexivity |]);
    eexists; (split; [reflexivity |]); (split; [reflexivity |]); apply Hnth.
Qed.

Lemma emits_input (prompt : string) :
  emits (input prompt)
    (fun r evs => exists i, r = result_of_input i /\ evs = [EvInput prompt i]).
Proof.
  intros w. unfold input. exists [EvInput prompt (hd InputEOF (stdin w))].
  destruct (hd InputEOF (stdin w)) eqn:Hi; simpl; (split; [reflexivity |]);
    eexists; (split; [| reflexivity]); reflexivity.
Qed.

Lemma emits_subprocess_run (command : list string) (env : option Z) (check : bool) :
  emits (subprocess_run command env check)
    (fun r evs => exists p, r = result_of_proc check p /\ evs = [EvRun command env p]).
Proof.
  intros w. unfold subprocess_run.
  exists [EvRun command env (hd (Completed 0 "") (procs w))].
  destruct (hd (Completed 0 "") (procs w)) as [rc out | f]; simpl.
  - destruct (check && negb (rc =? 0)) eqn:Hc; simpl; (split; [reflexivity |]);
      eexists; (split; [| reflexivity]); simpl; rewrite Hc; reflexivity.
  - split; [reflexivity |]. eexists; (split; [| reflexivity]); reflexivity.
Qed.

Lemma emits_fs_call (e : option fault -> event) (effect : world -> world) :
  (forall w, trace (effect w) = trace w) ->
  emits (fs_call e effect)
    (fun r evs => exists f, r = result_of_fault f /\ evs = [e f]).
Proof.
  intros Heff w. unfold fs_call, bind, next_fault, emit, raise. simpl.
  exists [e (hd None (io_faults w))].
  destruct (hd None (io_faults w)) as [f |]; simpl.
  - split; [reflexivity |]. exists (Some f). auto.
  - rewrite Heff. simpl. split; [reflexivity |]. exists None. auto.
Qed.

Lemma emits_write (path : string) (c : chunk) :
  emits (write path c) (fun r evs => r = Ok tt /\ evs = [EvWrite path c]).
Proof. intros w. exists [EvWrite path c]. auto. Qed.

Lemma emits_path_exists (path : string) :
  emits (path_exists path) (fun r evs => exists b, r = Ok b /\ evs = []).
Proof. intros w. exists []. simpl. eauto. Qed.

Lemma emits_get_cwd : emits get_cwd (fun r evs => exists c, r = Ok c /\ evs = []).
Proof. intros w. exists []. simpl. eauto. Qed.

(** ** Rules for [safe] *)

Section Safe.
Variables (P : event -> bool) (E : exn -> bool).
Hypothesis E_not_exit : forall e, not_exit e = true -> E e = true.

Lemma safe_ret {A} (a : A) : safe P E (ret a).
Proof. apply emits_ret. split; [constructor | discriminate]. Qed.

Lemma safe_raise {A} (e : exn) : E e = true -> safe P E (@raise A e).
Proof. intros He. apply emits_raise. split; [constructor | congruence]. Qed.

Lemma safe_emit (e : event) : P e = true -> safe P E (emit e).
Proof. intros He. apply emits_emit. split; [repeat constructor; exact He | discriminate]. Qed.

Lemma safe_bind {A B} (m : prog A) (k : A -> prog B) :
  safe P E m -> (forall a, safe P E (k a)) -> safe P E (bind m k).
Proof.
  intros Hm Hk. eapply emits_bind; [exact Hm | |].
  { intros e evs [H1 H2]. split; [exact H1 |].
    intros e' He'. apply H2. inversion He'. reflexivity. }
  intros a evs1 [H1 _]. eapply emits_weaken; [apply Hk |].
  intros r evs2 [H2 He]. split; [apply Forall_app; auto | exact He].
Qed.

Lemma safe_try {A} (m : prog A) (h : exn -> option (prog A)) :
  safe P E m ->
  (forall e k, E e = true -> h e = Some k -> safe P E k) ->
  safe P E (try_except m h).
Proof.
  intros Hm Hh. eapply emits_try; [exact Hm | intros a evs [H1 _]; split; [auto | discriminate] |].
  intros e evs1 [H1 He]. destruct (h e) as [k |] eqn:Hhe.
  - eapply emits_weaken; [apply (Hh e k); auto |].
    intros r evs2 [H2 He2]. split; [apply Forall_app; auto | exact He2].
  - split; [exact H1 | exact He].
Qed.

Lemma safe_for_range {A} (n : nat) (body : A -> prog A) (acc : A) :
  (forall a, safe P E (body a)) -> safe P E (for_range n body acc).
Proof.
  intros Hbody. revert acc. induction n as [| n IH]; intros acc; simpl.
  - apply safe_ret.
  - apply safe_bind; auto.
Qed.

Lemma safe_days_loop (fuel : nat) (self : filler) (lo hi : Z) (d : Z) (t : tally) :
  (forall d t, safe P E (day_body self lo hi d t)) ->
  safe P E (days_loop fuel self lo hi d t).
Proof.
  intros Hbody. revert d t. induction fuel as [| fuel IH]; intros d t; simpl.
  - destruct (d <=? end_date self); apply safe_ret.
  - destruct (d <=? end_date self); [| apply safe_ret].
    apply safe_bind; auto.
Qed.

Lemma safe_now : (forall t, P (EvNow t) = true) -> safe P E now.
Proof.
  intros HP. eapply emits_weaken; [apply emits_now |].
  intros r evs (t & -> & ->). split; [repeat constructor; apply HP | discriminate].
Qed.

Lemma safe_random_random : safe P E random_random.
Proof.
  eapply emits_weaken; [apply emits_random_random |].
  intros r evs (k & -> & ->). split; [constructor | discriminate].
Qed.

Lemma safe_randint (a b : Z) : safe P E (randint a b).
Proof.
  eapply emits_weaken; [apply emits_randint |].
  intros r evs (k & -> & -> & _). split; [constructor | discriminate].
Qed.

Lemma safe_choice {A} (dflt : A) (l : list A) : safe P E (choice dflt l).
Proof.
  eapply emits_weaken; [apply emits_choice |].
  intros r evs (k & -> & -> & _). split; [constructor | discriminate].
Qed.

Lemma safe_input (prompt : string) :
  (forall i, P (EvInput prompt i) = true) -> safe P E (input prompt).
Proof.
  intros HP. eapply emits_weaken; [apply emits_input |].
  intros r evs (i & -> & ->). split; [repeat constructor; apply HP |].
  intros e He. apply E_not_exit. destruct i; inversion He; reflexivity.
Qed.

Lemma safe_subprocess_run (command : list string) (env : option Z) (check : bool) :
  (forall p, P (EvRun command env p) = true) -> safe P E (subprocess_run command env check).
Proof.
  intros HP. eapply emits_weaken; [apply emits_subprocess_run |].
  intros r evs (p & -> & ->). split; [repeat constructor; apply HP |].
  intros e He. apply E_not_exit. destruct p as [rc out | [k |]]; simpl in He.
  - destruct (check && negb (rc =? 0)); inversion He; reflexivity.
  - inversion He; reflexivity.
  - inversion He; reflexivity.
Qed.

Lemma safe_fs_call (e : option fault -> event) (effect : world -> world) :
  (forall w, trace (effect w) = trace w) ->
  (forall f, P (e f) = true) -> safe P E (fs_call e effect).
Proof.
  intros Heff HP. eapply emits_weaken; [apply emits_fs_call; exact Heff |].
  intros r evs (f & -> & ->). split; [repeat constructor; apply HP |].
  intros x Hx. apply E_not_exit. destruct f as [[k |] |]; inversion Hx; reflexivity.
Qed.

Lemma safe_write (path : string) (c : chunk) :
  P (EvWrite path c) = true -> safe P E (write path c).
Proof.
  intros HP. eapply emits_weaken; [apply emits_write |].
  intros r evs [-> ->]. split; [repeat constructor; exact HP | discriminate].
Qed.

Lemma safe_path_exists (path : string) : safe P E (path_exists path).
Proof.
  eapply emits_weaken; [apply emits_path_exists |].
  intros r evs (b & -> & ->). split; [constructor | discriminate].
Qed.

Lemma safe_get_cwd : safe P E get_cwd.
Proof.
  eapply emits_weaken; [apply emits_get_cwd |].
  intros r evs (b & -> & ->). split; [constructor | discriminate].
Qed.

End Safe.

(** One step of a proof of [safe]: a rule for the construct at the head of
    the program, a case analysis, or the unfolding of a function of the
    script. *)
Ltac head_of t :=
  lazymatch t with
  | ?f _ => head_of f
  | _ => t
  end.

Ltac safe_handler Hh :=
  simpl in Hh; first [discriminate Hh | injection Hh as <-].

Ltac safe_exn := intros; first [assumption | reflexivity].

Ltac safe_step :=
  lazymatch goal with
  | |- safe _ _ (ret _) => apply safe_ret
  | |- safe _ _ (raise _) => apply safe_raise; reflexivity
  | |- safe _ _ (sys_exit _) => apply safe_raise; reflexivity
  | |- safe _ _ (emit _) => apply safe_emit; reflexivity
  | |- safe _ _ (print _) => apply safe_emit; reflexivity
  | |- safe _ _ (bind _ _) => apply safe_bind; [| intros ?]
  | |- safe _ _ (try_except _ _) =>
      let e := fresh "e" in let k := fresh "k" in
      let He := fresh "He" in let Hh := fresh "Hh" in
      apply safe_try;
      [| intros e k He Hh; destruct e as [? | | | [| |] |]; safe_handler Hh ]
  | |- safe _ _ (for_range _ _ _) => apply safe_for_range; intros ?
  | |- safe _ _ (days_loop _ _ _ _ _ _) => apply safe_days_loop; intros ? ?
  | |- safe _ _ now => apply safe_now; reflexivity
  | |- safe _ _ random_random => apply safe_random_random
  | |- safe _ _ (randint _ _) => apply safe_randint
  | |- safe _ _ (choice _ _) => apply safe_choice
  | |- safe _ _ (input _) => apply safe_input; [safe_exn | reflexivity]
  | |- safe _ _ (subprocess_run _ _ _) =>
      apply safe_subprocess_run; [safe_exn | intros [? ? | ?]; reflexivity]
  | |- safe _ _ (mkdir _) => apply safe_fs_call; [safe_exn | reflexivity | reflexivity]
  | |- safe _ _ (chdir _) => apply safe_fs_call; [safe_exn | reflexivity | reflexivity]
  | |- safe _ _ (open_w _) => apply safe_fs_call; [safe_exn | reflexivity | reflexivity]
  | |- safe _ _ (open_a _) => apply safe_fs_call; [safe_exn | reflexivity | reflexivity]
  | |- safe _ _ (write _ _) => apply safe_write; reflexivity
  | |- safe _ _ (path_exists _) => apply safe_path_exists
  | |- safe _ _ get_cwd => apply safe_get_cwd
  | |- safe _ _ (match ?x with _ => _ end) => destruct x
  | |- safe _ _ ?m => let f := head_of m in unfold f; cbv zeta
  end.

Ltac safe_auto := cbv beta zeta; repeat safe_step.

(** ** Dates and draws *)

Ltac time_units :=
  change DAY with 86400000000 in *; change HOUR with 3600000000 in *;
  change MINUTE with 60000000 in *; change SECOND with 1000000 in *.

Lemma replace_hms_fields (d h m s : Z) :
  0 <= h < 24 -> 0 <= m < 60 -> 0 <= s < 60 ->
  toordinal (replace_hms d h m s) = toordinal d /\
  hour_of (replace_hms d h m s) = h /\
  minute_of (replace_hms d h m s) = m /\
  second_of (replace_hms d h m s) = s /\
  microsecond_of (replace_hms d h m s) = microsecond_of d.
Proof.
  intros Hh Hm Hs.
  unfold replace_hms.
  unfold toordinal, hour_of, minute_of, second_of, microsecond_of.
  time_units. repeat split; Z.div_mod_to_equations; lia.
Qed.

Lemma random_random_runs (w : world) :
  exists k rest, random_random w = (Ok k, with_rng rest w).
Proof.
  unfold random_random, bind, next_draw, ret.
  destruct w as [c t r i p f d ds fs tr]. destruct r as [| k rest]; simpl; eauto.
Qed.

Lemma randint_runs (a b : Z) (w : world) :
  a <= b ->
  exists n rest, randint a b w = (Ok n, with_rng rest w) /\ a <= n <= b.
Proof.
  intros Hab. unfold randint, bind, next_draw, ret.
  destruct w as [c t r i p f d ds fs tr]. destruct r as [| k rest]; simpl.
  - eexists _, []. split; [reflexivity |]. rewrite Z.mod_0_l by lia. lia.
  - eexists _, rest. split; [reflexivity |].
    pose proof (Z.mod_pos_bound (Z.of_N k) (b - a + 1)). lia.
Qed.

Lemma choice_runs {A} (dflt : A) (l : list A) (w : world) :
  l <> [] ->
  exists x rest, choice dflt l w = (Ok x, with_rng rest w) /\ In x l.
Proof.
  intros Hl. unfold choice, bind, next_draw, ret.
  assert (Hnth : forall i, In (nth (i mod length l)%nat l dflt) l).
  { intros i. apply nth_In. apply Nat.mod_upper_bound.
    destruct l; [congruence | simpl; lia]. }
  destruct w as [c t r i p f d ds fs tr].
  destruct r as [| k rest]; simpl;
    [exists (nth (N.to_nat 0 mod length l)%nat l dflt), []
    | exists (nth (N.to_nat k mod length l)%nat l dflt), rest];
    (split; [reflexivity | apply Hnth]).
Qed.

Lemma intensity_map_tiers (tier : string) (lo hi : Z) :
  intensity_map !! tier = Some (lo, hi) ->
  In (tier, (lo, hi))
     [ ("low", (1, 2)); ("medium", (1, 4)); ("high", (2, 6)); ("very_high", (3, 10)) ].
Proof.
  intros Hl. apply list_elem_of_In.
  apply (elem_of_list_to_map_2 (M := gmap string)). exact Hl.
Qed.

Lemma intensity_map_ordered (tier : string) (lo hi : Z) :
  intensity_map !! tier = Some (lo, hi) -> 1 <= lo <= hi /\ hi <= 10.
Proof.
  intros Hl. apply intensity_map_tiers in Hl. simpl in Hl.
  repeat (destruct Hl as [Hl | Hl]; [inversion Hl; lia |]). contradiction.
Qed.

(** ** The scheduler: tiers and times *)

Section Scheduler.
Context `{PyLib}.

(** C6. The time picked for a commit: the hour is in [9, 18] when the
    business-hours branch is taken (the draw is below 0.7) and in
    {7, 8, 19, 20, 21, 22} otherwise, so always in [7, 22]; minute and
    second are in [0, 59]; the calendar day is the scheduled one. *)
Theorem commit_time_in_range (current_date : Z) (w : world) :
  exists commit_time,
    (pick_commit_time current_date w).1 = Ok commit_time /\
    toordinal commit_time = toordinal current_date /\
    7 <= hour_of commit_time <= 22 /\
    0 <= minute_of commit_time <= 59 /\
    0 <= second_of commit_time <= 59 /\
    forall r, (random_random w).1 = Ok r ->
      if lt_0_7 r then 9 <= hour_of commit_time <= 18
      else In (hour_of commit_time) [7; 8; 19; 20; 21; 22].
Proof.
  unfold pick_commit_time. unfold bind at 1.
  destruct (random_random_runs w) as (r & rest1 & Hr). rewrite Hr.
  set (w1 := with_rng rest1 w).
  assert (Hhour : exists h w2,
             (if lt_0_7 r then randint 9 18
              else choice 0 (seqZ 7 2 ++ seqZ 19 4)%list) w1 = (Ok h, w2) /\
             (if lt_0_7 r then 9 <= h <= 18 else In h [7; 8; 19; 20; 21; 22])).
  { destruct (lt_0_7 r).
    - destruct (randint_runs 9 18 w1) as (h & rest & Hh & Hrange); [lia |]. eauto.
    - destruct (choice_runs 0 (seqZ 7 2 ++ seqZ 19 4)%list w1) as (h & rest & Hh & Hin);
        [discriminate |]. eauto. }
  destruct Hhour as (h & w2 & Hh & Hrange).
  unfold bind at 1. rewrite Hh.
  destruct (randint_runs 0 59 w2) as (m & rest3 & Hm & Hmr); [lia |].
  unfold bind at 1. rewrite Hm.
  destruct (randint_runs 0 59 (with_rng rest3 w2)) as (s & rest4 & Hs & Hsr); [lia |].
  unfold bind at 1. rewrite Hs. unfold ret. simpl.
  assert (Hh24 : 7 <= h <= 22).
  { destruct (lt_0_7 r); [lia |]. simpl in Hrange. intuition lia. }
  destruct (replace_hms_fields current_date h m s) as (Hd & Hho & Hmi & Hse & _);
    [lia | lia | lia |].
  eexists. split; [reflexivity |]. rewrite Hd, Hho, Hmi, Hse.
  repeat (split; [lia |]).
  intros r' Hr'. inversion Hr'; subst r'. exact Hrange.
Qed.

End Scheduler.

(** ** The dry run *)

Section DryRun.
Context `{PyLib}.

(** C7. With the dry-run flag and a start date that parses, [main]
    returns normally without touching the file system or spawning a
    process (no repository setup, no file written, no git command, no
    prompt): it reads the clock twice and prints three messages, the last
    of which reports the whole days between the start date and the clock
    at that moment. *)
Theorem dry_run_no_mutation (a : args) (w : world) (start : Z) :
  arg_dry_run a = true ->
  strptime_ymd (arg_start_date a) = Some start ->
  (main a w).1 = Ok tt /\
  files (main a w).2 = files w /\
  dirs (main a w).2 = dirs w /\
  cwd (main a w).2 = cwd w /\
  procs (main a w).2 = procs w /\
  io_faults (main a w).2 = io_faults w /\
  stdin (main a w).2 = stdin w /\
  exists t1 t2 banner,
    clock w <= t1 <= t2 /\
    clock (main a w).2 = t2 /\
    trace (main a w).2 =
      ([ EvPrint (DryRunDays (days_between t2 start)); EvNow t2;
         EvPrint (Note "dry-run"); EvPrint banner; EvNow t1 ] ++ trace w)%list.
Proof.
  intros Hdry Hdate.
  unfold main, parse_date. rewrite Hdate, Hdry.
  unfold bind, ret, now, print, emit. simpl.
  repeat (split; [reflexivity |]).
  eexists _, _, _. split; [| split; reflexivity]. lia.
Qed.

End DryRun.

Lemma dry_run_no_mutation_witness :
  arg_dry_run Example.dry_args = true /\
  Lib.strptime "2024-01-01" = Some Example.monday /\
  (@main example_lib Example.dry_args Example.dry_world).1 = Ok tt /\
  files (@main example_lib Example.dry_args Example.dry_world).2 = ∅ /\
  exists t1 t2 banner,
    trace (@main example_lib Example.dry_args Example.dry_world).2 =
      [ EvPrint (DryRunDays (days_between t2 Example.monday)); EvNow t2;
        EvPrint (Note "dry-run"); EvPrint banner; EvNow t1 ].
Proof.
  split; [reflexivity |]. split; [reflexivity |].
  destruct (@dry_run_no_mutation example_lib Example.dry_args Example.dry_world
              Example.monday eq_refl eq_refl)
    as (Hr & Hf & _ & _ & _ & _ & _ & t1 & t2 & banner & _ & _ & Ht).
  split; [exact Hr |]. split; [exact Hf |]. exists t1, t2, banner. exact Ht.
Defined.

(** ** More rules *)

(** The events of a run are determined by its two traces, so two
    specifications of one program combine. *)
Lemma emits_and {A} (m : prog A) (Q1 Q2 : result A -> list event -> Prop) :
  emits m Q1 -> emits m Q2 -> emits m (fun r evs => Q1 r evs /\ Q2 r evs).
Proof.
  intros H1 H2 w.
  destruct (H1 w) as (evs1 & Ht1 & Hq1). destruct (H2 w) as (evs2 & Ht2 & Hq2).
  exists evs1. split; [exact Ht1 |]. split; [exact Hq1 |].
  rewrite Ht1 in Ht2. apply app_inv_tail in Ht2. subst evs2. exact Hq2.
Qed.

Lemma safe_emits {A} (P : event -> bool) (E : exn -> bool) (m : prog A)
    (Q : result A -> list event -> Prop) :
  safe P E m ->
  (forall r evs, Forall (fun e => P e = true) evs ->
                 (forall e, r = Raise e -> E e = true) -> Q r evs) ->
  emits m Q.
Proof. intros Hm HQ. eapply emits_weaken; [exact Hm |]. intros r evs [H1 H2]. auto. Qed.

(** A program that emits only events satisfying the constantly false
    predicate emits nothing. *)
Lemma safe_no_event {A} (E : exn -> bool) (m : prog A) :
  safe no_event E m -> emits m (fun r evs => evs = []).
Proof.
  intros Hm. eapply emits_weaken; [exact Hm |].
  intros r evs [HF _]. destruct evs as [| e evs]; [reflexivity |].
  inversion HF; discriminate.
Qed.

(** Properties of the emitted events that hold of the empty list and of
    the concatenation of two lists that have them hold of whole programs
    as soon as they hold of their parts. *)
Section Always.
Variable Q : list event -> Prop.
Hypothesis Q_nil : Q [].
Hypothesis Q_app : forall newer older, Q newer -> Q older -> Q (newer ++ older)%list.


Lemma always_ret {A} (a : A) : always Q (ret a).
Proof. apply emits_ret. exact Q_nil. Qed.

Lemma always_bind {A B} (m : prog A) (k : A -> prog B) :
  always Q m -> (forall a, always Q (k a)) -> always Q (bind m k).
Proof.
  intros Hm Hk. eapply emits_bind; [exact Hm | auto |].
  intros a evs1 H1. eapply emits_weaken; [apply Hk |]. simpl. auto.
Qed.

Lemma always_safe {A} (P : event -> bool) (E : exn -> bool) (m : prog A) :
  (forall e, P e = true -> Q [e]) -> safe P E m -> always Q m.
Proof.
  intros HP Hm. eapply emits_weaken; [exact Hm |].
  intros r evs [HF _]. induction HF as [| e evs He HF IH]; [exact Q_nil |].
  apply (Q_app [e] evs); auto.
Qed.

Lemma always_for_range {A} (n : nat) (body : A -> prog A) (acc : A) :
  (forall a, always Q (body a)) -> always Q (for_range n body acc).
Proof.
  intros Hbody. revert acc. induction n as [| n IH]; intros acc; simpl.
  - apply always_ret.
  - apply always_bind; auto.
Qed.

Lemma always_days_loop (fuel : nat) (self : filler) (lo hi : Z) (d : Z) (t : tally) :
  (forall d t, always Q (day_body self lo hi d t)) -> always Q (days_loop fuel self lo hi d t).
Proof.
  intros Hbody. revert d t. induction fuel as [| fuel IH]; intros d t; simpl.
  - destruct (d <=? end_date self); apply always_ret.
  - destruct (d <=? end_date self); [| apply always_ret].
    apply always_bind; auto.
Qed.

End Always.

(** ** Counting *)

Lemma count_app (p : event -> bool) (a b : list event) :
  count p (a ++ b) = count p a + count p b.
Proof. induction a as [| e a IH]; simpl; [reflexivity | rewrite IH; lia]. Qed.

Lemma count_nonneg (p : event -> bool) (evs : list event) : 0 <= count p evs.
Proof. induction evs as [| e evs IH]; simpl; [lia | destruct (p e); lia]. Qed.

Lemma count_none (p : event -> bool) (evs : list event) :
  Forall (fun e => negb (p e) = true) evs -> count p evs = 0.
Proof.
  induction 1 as [| e evs He _ IH]; simpl; [reflexivity |].
  apply negb_true_iff in He. rewrite He, IH. reflexivity.
Qed.

(** ** No commit in the future *)


Lemma last_now_app (newer older : list event) :
  last_now (newer ++ older) =
    match last_now newer with Some t => Some t | None => last_now older end.
Proof.
  induction newer as [| e newer IH]; simpl; [destruct (last_now older); reflexivity |].
  destruct e; auto.
Qed.

Lemma no_future_commit_app (newer older : list event) :
  no_future_commit newer = true -> no_future_commit older = true ->
  no_future_commit (newer ++ older) = true.
Proof.
  intros Hn Ho. induction newer as [| e newer IH]; simpl; [exact Ho |].
  destruct e; simpl in Hn; auto.
  apply andb_true_iff in Hn as [Hd Hn]. rewrite (IH Hn), andb_true_r.
  rewrite last_now_app. destruct (last_now newer); [exact Hd | discriminate].
Qed.

(** [no_future_commit], spelled out. *)
Lemma no_future_commit_spec (evs : list event) :
  no_future_commit evs = true <->
  forall newer date older,
    evs = (newer ++ EvCreateCommit date :: older)%list ->
    exists t, last_now older = Some t /\ date <= t.
Proof.
  induction evs as [| e evs IH].
  - split; [| reflexivity]. intros _ newer date older Heq.
    destruct newer; discriminate.
  - assert (Hstep : (forall newer date older,
                        e :: evs = (newer ++ EvCreateCommit date :: older)%list ->
                        exists t, last_now older = Some t /\ date <= t) <->
                    (forall date, e = EvCreateCommit date ->
                        exists t, last_now evs = Some t /\ date <= t) /\
                    (forall newer date older,
                        evs = (newer ++ EvCreateCommit date :: older)%list ->
                        exists t, last_now older = Some t /\ date <= t)).
    { split.
      - intros Hall. split.
        + intros date ->. apply (Hall [] date evs). reflexivity.
        + intros newer date older ->. apply (Hall (e :: newer) date older). reflexivity.
      - intros [Hhead Htail] newer date older Heq.
        destruct newer as [| e' newer]; simpl in Heq; inversion Heq; subst.
        + apply Hhead. reflexivity.
        + eapply Htail. reflexivity. }
    rewrite Hstep, <- IH. clear Hstep IH.
    destruct e; simpl;
      try (split; [intros Hn; split; [intros date Hd; discriminate | exact Hn]
                  | intros [_ Hn]; exact Hn]).
    rewrite andb_true_iff. split.
    + intros [Hd Hn]. split; [| exact Hn].
      intros date0 Heq. inversion Heq; subst date0.
      destruct (last_now evs) as [t |]; [| discriminate].
      exists t. split; [reflexivity | lia].
    + intros [Hd Hn]. split; [| exact Hn].
      destruct (Hd date eq_refl) as (t & -> & Hle). lia.
Qed.

Lemma no_future_commit_quiet (e : event) :
  not_create_commit e = true -> no_future_commit [e] = true.
Proof. destruct e; simpl; auto; discriminate. Qed.

Lemma no_future_commit_checked (evs : list event) (date n : Z) :
  Forall (fun e => not_create_commit e = true) evs ->
  date <= n ->
  no_future_commit (evs ++ [EvCreateCommit date; EvNow n]) = true.
Proof.
  intros HF Hle. apply no_future_commit_app.
  - induction HF as [| e evs He _ IH]; [reflexivity |].
    destruct e; simpl; auto; discriminate.
  - simpl. rewrite andb_true_r. apply Z.leb_le. exact Hle.
Qed.

Section NoFuture.
Context `{PyLib}.

Lemma create_commit_marks (self : filler) (date : Z) (message : option string) :
  emits (create_commit self date message)
    (fun _ evs => exists evs', evs = (evs' ++ [EvCreateCommit date])%list /\
                               Forall (fun e => not_create_commit e = true) evs').
Proof.
  unfold create_commit.
  apply (emits_bind _ _ (fun _ evs => evs = [EvCreateCommit date])).
  - apply emits_emit. reflexivity.
  - intros e evs ->. exists []. auto.
  - intros _ evs1 ->.
    apply (safe_emits not_create_commit any_exn); [safe_auto |].
    intros r evs2 HF _. exists evs2. auto.
Qed.


(** Rewrites the list of events of the goal into an equal one. *)
Ltac reshape l' :=
  lazymatch goal with
  | |- no_future_commit ?l = true =>
      replace l with l' by (rewrite <- ?app_assoc, ?app_nil_r; reflexivity)
  end.

Lemma future_free_nil : future_free [].
Proof. reflexivity. Qed.

Lemma future_free_app (newer older : list event) :
  future_free newer -> future_free older -> future_free (newer ++ older)%list.
Proof. apply no_future_commit_app. Qed.

Lemma future_free_safe {A} (m : prog A) :
  safe not_create_commit any_exn m -> always future_free m.
Proof.
  apply (always_safe future_free future_free_nil future_free_app).
  apply no_future_commit_quiet.
Qed.

Lemma commit_body_future_free (self : filler) (current_date : Z) (t : tally) :
  always future_free (commit_body self current_date t).
Proof.
  unfold always, commit_body.
  apply (emits_bind _ _ (fun _ evs => evs = [])).
  { apply (safe_no_event any_exn). safe_auto. }
  { intros e evs ->. reflexivity. }
  intros commit_time evs1 ->. cbv beta.
  apply (emits_bind _ _ (fun r evs => exists n, r = Ok n /\ evs = [EvNow n])).
  { apply emits_now. }
  { intros e evs (n & Hn & _). discriminate. }
  intros n evs2 (n' & Hn & ->). inversion Hn; subst n'. cbv beta.
  destruct (commit_time >? n) eqn:Hfuture.
  { apply emits_ret. reflexivity. }
  assert (Hle : commit_time <= n) by lia.
  eapply emits_bind; [apply create_commit_marks | |].
  - intros e evs (evs' & -> & HF). unfold future_free.
    reshape (evs' ++ [EvCreateCommit commit_time; EvNow n])%list.
    apply no_future_commit_checked; assumption.
  - intros created evs3 (evs' & -> & HF). cbv beta.
    apply (safe_emits not_create_commit any_exn); [safe_auto |].
    intros r evs4 HF4 _. unfold future_free.
    reshape ((evs4 ++ evs') ++ [EvCreateCommit commit_time; EvNow n])%list.
    apply no_future_commit_checked; [| assumption].
    apply Forall_app; auto.
Qed.

Lemma day_body_future_free (self : filler) (lo hi : Z) (current_date : Z) (t : tally) :
  always future_free (day_body self lo hi current_date t).
Proof.
  unfold day_body.
  apply (always_bind future_free future_free_app).
  { apply future_free_safe. safe_auto. }
  intros [|]; [| apply (always_ret future_free future_free_nil)].
  apply (always_bind future_free future_free_app).
  { apply future_free_safe. safe_auto. }
  intros daily_commits.
  apply (always_for_range future_free future_free_nil future_free_app).
  apply commit_body_future_free.
Qed.

(** A day after now is skipped. *)
Lemma should_commit_today_future (date : Z) (w : world) :
  date > clock w + Z.of_N (hd 0%N (ticks w)) ->
  (should_commit_today date w).1 = Ok false.
Proof.
  intros Hfuture. unfold should_commit_today. unfold bind at 1. unfold now. cbv beta iota zeta.
  replace (date >? clock w + Z.of_N (hd 0%N (ticks w))) with true by lia. reflexivity.
Qed.

(** C1. Whatever the date range, the intensity and the environment, every
    call of [create_commit] made by [generate_commits] follows a reading
    of the clock, and the timestamp it is given is not later than the
    latest such reading, which is the one of the check that precedes the
    call. *)
Theorem no_commit_in_the_future (self : filler) (intensity : string) (w : world) :
  exists evs,
    trace (generate_commits self intensity w).2 = (evs ++ trace w)%list /\
    no_future_commit evs = true.
Proof.
  revert w. change (always future_free (generate_commits self intensity)).
  unfold generate_commits.
  apply (always_bind future_free future_free_app).
  { apply future_free_safe. safe_auto. }
  intros valid. destruct (negb valid); [apply (always_ret future_free future_free_nil) |].
  destruct (intensity_map !! intensity) as [[lo hi] |].
  - apply (always_bind future_free future_free_app).
    { apply future_free_safe. safe_auto. }
    intros _. apply (always_bind future_free future_free_app).
    { apply (always_days_loop future_free future_free_nil future_free_app).
      apply day_body_future_free. }
    intros t. apply future_free_safe. safe_auto.
  - apply future_free_safe. safe_auto.
Qed.

End NoFuture.

(** ** The tally *)



Lemma succeeded_app (newer older : list event) :
  succeeded (newer ++ older) = succeeded newer + succeeded older.
Proof. apply count_app. Qed.

Lemma attempted_app (newer older : list event) :
  attempted (newer ++ older) = attempted newer + attempted older.
Proof. apply count_app. Qed.

Lemma succeeded_bind {A B} (m : prog A) (k : A -> prog B) (f : result B -> Z) :
  safe not_commit_success any_exn m ->
  (forall e, f (Raise e) = 0) ->
  (forall a, emits (k a) (fun r evs => succeeded evs = f r)) ->
  emits (bind m k) (fun r evs => succeeded evs = f r).
Proof.
  intros Hm Hf Hk. eapply emits_bind; [exact Hm | |].
  - intros e evs [HF _]. rewrite Hf. apply count_none. exact HF.
  - intros a evs1 [HF _]. eapply emits_weaken; [apply Hk |].
    intros r evs2 H2. rewrite succeeded_app, H2.
    unfold succeeded. rewrite (count_none _ _ HF). lia.
Qed.

Section Tally.
Context `{PyLib}.

Lemma emits_run_git_command (self : filler) (command : list string) (env : option Z)
    (check : bool) :
  emits (_run_git_command self command env check)
    (fun r evs => exists p,
       r = result_of_proc check p /\
       (evs = [EvRun command env p] \/
        evs = [EvPrint (Note "git-command-error"); EvRun command env p])).
Proof.
  unfold _run_git_command.
  eapply emits_try; [apply emits_subprocess_run | |].
  - intros a evs (p & Hp & ->). exists p. auto.
  - intros e evs1 (p & Hp & ->).
    destruct e as [c | | | k |]; try (exists p; auto).
    apply (emits_bind _ _ (fun r evs => r = Ok tt /\ evs = [EvPrint (Note "git-command-error")])).
    + apply emits_emit. auto.
    + intros e evs [He _]. discriminate.
    + intros _ evs [_ ->]. apply emits_raise. exists p. auto.
Qed.

Lemma git_commit_succeeds (self : filler) (message : string) (date_str : Z) :
  emits
    (try_except
       (_run_git_command self ["git"; "add"; "."] (Some date_str) true ;;
        _run_git_command self ["git"; "commit"; "-m"; message] (Some date_str) true ;;
        ret true)
       (fun e => match e with
                 | CalledProcessError => Some (print (Note "commit-error") ;; ret false)
                 | _ => None
                 end))
    (fun r evs => succeeded evs = commits_of r id).
Proof.
  eapply emits_try.
  - apply (succeeded_bind _ _ (fun r => commits_of r id)).
    + safe_auto.
    + reflexivity.
    + intros _. eapply emits_bind; [apply emits_run_git_command | |].
      * intros e evs (p & Hp & Hevs).
        destruct p as [rc out | f]; simpl in Hp.
        -- destruct (rc =? 0) eqn:Hrc; simpl in Hp; [discriminate |].
           destruct Hevs as [-> | ->]; unfold succeeded; simpl; rewrite Hrc; reflexivity.
        -- destruct Hevs as [-> | ->]; reflexivity.
      * intros a evs1 (p & Hp & Hevs). apply emits_ret.
        destruct p as [rc out | f]; simpl in Hp; [| discriminate].
        destruct (rc =? 0) eqn:Hrc; simpl in Hp; [| discriminate].
        destruct Hevs as [-> | ->]; unfold succeeded; simpl; rewrite Hrc; reflexivity.
  - intros a evs Ha. exact Ha.
  - intros e evs1 He. simpl in He.
    destruct e as [c | | | k |]; try exact He.
    apply (emits_bind _ _ (fun r evs => r = Ok tt /\ evs = [EvPrint (Note "commit-error")])).
    + apply emits_emit. auto.
    + intros e evs [He' _]. discriminate.
    + intros _ evs [_ ->]. apply emits_ret.
      rewrite succeeded_app, He. reflexivity.
Qed.

Lemma create_commit_succeeds (self : filler) (date : Z) (message : option string) :
  emits (create_commit self date message) (fun r evs => succeeded evs = commits_of r id).
Proof.
  unfold create_commit.
  apply succeeded_bind; [safe_auto | reflexivity | intros _].
  apply succeeded_bind; [safe_auto | reflexivity | intros message0].
  apply succeeded_bind; [safe_auto | reflexivity | intros appended]. cbv zeta.
  destruct (negb appended).
  - apply emits_ret. reflexivity.
  - apply git_commit_succeeds.
Qed.

Lemma create_commit_counts (self : filler) (date : Z) (message : option string) :
  emits (create_commit self date message)
    (fun r evs => attempted evs = 1 /\ succeeded evs = commits_of r id).
Proof.
  eapply emits_weaken;
    [apply (emits_and _ _ _ (create_commit_marks self date message)
              (create_commit_succeeds self date message)) |].
  intros r evs [(evs' & -> & HF) Hs]. split; [| exact Hs].
  rewrite attempted_app. unfold attempted. rewrite (count_none _ _ HF). reflexivity.
Qed.


Ltac counting :=
  unfold tallied, attempted, succeeded in *; rewrite ?count_app in *; simpl in *.

Lemma commit_body_counts (self : filler) (current_date : Z) (t : tally) :
  emits (commit_body self current_date t) (tallied t 1).
Proof.
  unfold commit_body.
  apply (emits_bind _ _ (fun _ evs => evs = [])).
  { apply (safe_no_event any_exn). safe_auto. }
  { intros e evs ->. counting. split; [lia | discriminate]. }
  intros commit_time evs1 ->. cbv beta.
  apply (emits_bind _ _ (fun r evs => exists n, r = Ok n /\ evs = [EvNow n])).
  { apply emits_now. }
  { intros e evs (n & Hn & _). discriminate. }
  intros n evs2 (n' & Hn & ->). inversion Hn; subst n'. cbv beta.
  destruct (commit_time >? n).
  { apply emits_ret. counting. split; [lia |]. intros t' [= <-]. lia. }
  eapply emits_bind; [apply create_commit_counts | |].
  - intros e evs [Ha Hs]. counting. split; [lia | discriminate].
  - intros created evs3 [Ha Hs]. cbv beta zeta.
    apply (emits_bind _ _ (fun r evs => r = Ok tt /\ attempted evs = 0 /\ succeeded evs = 0)).
    + destruct (_ =? 0); [apply emits_emit | apply emits_ret]; auto.
    + intros e evs [He _]. discriminate.
    + intros _ evs4 (_ & Ha4 & Hs4). apply emits_ret. counting.
      split; [lia |]. intros t' [= <-]. simpl. destruct created; simpl in *; lia.
Qed.

Lemma for_range_counts (self : filler) (current_date : Z) (n : nat) (t : tally) :
  emits (for_range n (commit_body self current_date) t) (tallied t (Z.of_nat n)).
Proof.
  revert t. induction n as [| n IH]; intros t.
  - apply emits_ret. counting. split; [lia |]. intros t' [= <-]. lia.
  - cbn [for_range]. eapply emits_bind; [apply commit_body_counts | |].
    + intros e evs [Hb _]. split; [lia | discriminate].
    + intros t1 evs1 [Hb1 Ht1]. destruct (Ht1 t1 eq_refl) as [Htot1 Hsuc1].
      eapply emits_weaken; [apply IH |].
      intros r evs2 [Hb2 Ht2]. unfold tallied. rewrite attempted_app, succeeded_app.
      split; [lia |]. intros t' Hr. destruct (Ht2 t' Hr). lia.
Qed.

Lemma quiet_counts (evs : list event) :
  Forall (fun e => quiet_event e = true) evs ->
  attempted evs = 0 /\ succeeded evs = 0 /\ Forall (fun e => not_totals e = true) evs.
Proof.
  induction 1 as [| e evs He _ (IHa & IHs & IHt)]; [repeat split; constructor |].
  unfold quiet_event in He. apply andb_true_iff in He as [He Ht].
  apply andb_true_iff in He as [Hc Hs]. apply negb_true_iff in Hc, Hs.
  unfold attempted, succeeded in *. simpl. rewrite Hc, Hs, IHa, IHs.
  repeat split. constructor; assumption.
Qed.

Lemma day_body_counts (self : filler) (lo hi : Z) (current_date : Z) (t : tally) :
  0 <= lo <= hi ->
  emits (day_body self lo hi current_date t) (tallied t hi).
Proof.
  intros Hlohi. unfold day_body.
  apply (emits_bind _ _ (fun _ evs => attempted evs = 0 /\ succeeded evs = 0)).
  { apply (safe_emits quiet_event any_exn); [safe_auto |].
    intros r evs HF _. apply quiet_counts in HF. tauto. }
  { intros e evs [Ha _]. split; [lia | discriminate]. }
  intros active evs1 [Ha1 Hs1]. cbv beta. destruct active.
  - eapply emits_bind; [apply emits_randint | |].
    + intros e evs (n & Hn & _). discriminate.
    + intros daily_commits evs2 (n & Hn & -> & Hrange). inversion Hn; subst n.
      eapply emits_weaken; [apply for_range_counts |].
      intros r evs3 [Hb3 Ht3]. unfold tallied.
      rewrite !attempted_app, !succeeded_app, Ha1, Hs1.
      change (attempted []) with 0. change (succeeded []) with 0.
      split; [lia |]. intros t' Hr. destruct (Ht3 t' Hr). lia.
  - apply emits_ret. unfold tallied. rewrite !attempted_app, !succeeded_app, Ha1, Hs1.
    change (attempted []) with 0. change (succeeded []) with 0.
    split; [lia |]. intros t' [= <-]. lia.
Qed.

Lemma days_loop_counts (fuel : nat) (self : filler) (lo hi : Z) (current_date : Z)
    (t : tally) :
  0 <= lo <= hi ->
  emits (days_loop fuel self lo hi current_date t) (tallied t (Z.of_nat fuel * hi)).
Proof.
  intros Hlohi. revert current_date t.
  assert (Hstop : forall f (t : tally), emits (ret t) (tallied t (Z.of_nat f * hi))).
  { intros f t. apply emits_ret. unfold tallied.
    change (attempted []) with 0. change (succeeded []) with 0.
    split; [nia |]. intros t' [= <-]. lia. }
  induction fuel as [| fuel IH]; intros current_date t; cbn [days_loop].
  - destruct (current_date <=? end_date self); apply Hstop.
  - destruct (current_date <=? end_date self); [| apply Hstop].
    eapply emits_bind; [apply (day_body_counts self lo hi current_date t Hlohi) | |].
    + intros e evs [Hb _]. split; [nia | discriminate].
    + intros t1 evs1 [Hb1 Ht1]. destruct (Ht1 t1 eq_refl) as [Htot1 Hsuc1].
      eapply emits_weaken; [apply IH |].
      intros r evs2 [Hb2 Ht2]. unfold tallied. rewrite attempted_app, succeeded_app.
      split; [nia |]. intros t' Hr. destruct (Ht2 t' Hr). lia.
Qed.

Lemma day_body_no_totals (self : filler) (lo hi : Z) (current_date : Z) (t : tally) :
  safe not_totals any_exn (day_body self lo hi current_date t).
Proof. safe_auto. Qed.

Lemma days_loop_no_totals (fuel : nat) (self : filler) (lo hi : Z) (current_date : Z)
    (t : tally) :
  emits (days_loop fuel self lo hi current_date t)
    (fun _ evs => Forall (fun e => not_totals e = true) evs).
Proof.
  apply (always_days_loop (fun evs => Forall (fun e => not_totals e = true) evs)).
  - constructor.
  - intros newer older Hn Ho. apply Forall_app. auto.
  - intros d t0. eapply emits_weaken; [apply day_body_no_totals |]. intros r evs [HF _]. exact HF.
Qed.


Lemma no_totals_in (evs : list event) (total successful : Z) :
  Forall (fun e => not_totals e = true) evs ->
  ~ In (EvPrint (Totals total successful)) evs.
Proof.
  intros HF Hin. rewrite Forall_forall in HF. apply list_elem_of_In in Hin.
  apply HF in Hin. discriminate.
Qed.

Lemma generated_quiet (bound : Z) (r : result bool) (evs : list event) :
  0 <= bound ->
  Forall (fun e => quiet_event e = true) evs ->
  r <> Ok true ->
  generated bound r evs.
Proof.
  intros Hb HF Hr. apply quiet_counts in HF as (Ha & Hs & Ht).
  unfold generated. rewrite Ha, Hs. split; [lia |]. split.
  - intros total successful Hin. exfalso. eapply no_totals_in; eauto.
  - intros b ->. split; [destruct b; [congruence | reflexivity] |].
    intros ->. congruence.
Qed.

Lemma generated_older (bound : Z) (r : result bool) (newer older : list event) :
  generated bound r newer ->
  Forall (fun e => quiet_event e = true) older ->
  generated bound r (newer ++ older).
Proof.
  intros (Hb & Ht & Hr) HF. apply quiet_counts in HF as (Ha & Hs & Hnt).
  unfold generated. rewrite attempted_app, succeeded_app, Ha, Hs, !Z.add_0_r.
  split; [exact Hb |]. split.
  - intros total successful Hin. apply in_app_iff in Hin as [Hin | Hin]; [auto |].
    exfalso. eapply no_totals_in; eauto.
  - intros b Hrb. destruct (Hr b Hrb) as [Hv Hp]. split; [exact Hv |].
    intros Hbt. apply in_app_iff. left. auto.
Qed.

Lemma generated_bind {A} (bound : Z) (m : prog A) (k : A -> prog bool) :
  0 <= bound ->
  safe quiet_event any_exn m ->
  (forall a, emits (k a) (generated bound)) ->
  emits (bind m k) (generated bound).
Proof.
  intros Hb Hm Hk. eapply emits_bind; [exact Hm | |].
  - intros e evs [HF _]. apply generated_quiet; [exact Hb | exact HF | discriminate].
  - intros a evs1 [HF _]. eapply emits_weaken; [apply Hk |].
    intros r evs2 Hg. apply generated_older; assumption.
Qed.


Lemma generate_commits_counts (self : filler) (intensity : string) :
  emits (generate_commits self intensity) (generated (commit_bound self intensity)).
Proof.
  assert (Hbound : 0 <= commit_bound self intensity).
  { unfold commit_bound. destruct (intensity_map !! intensity) as [[lo hi] |] eqn:Hi; [| lia].
    apply intensity_map_ordered in Hi. nia. }
  unfold generate_commits.
  apply generated_bind; [exact Hbound | safe_auto |]. intros valid.
  destruct (negb valid).
  { apply emits_ret. apply generated_quiet; [exact Hbound | constructor | discriminate]. }
  revert Hbound. unfold commit_bound.
  destruct (intensity_map !! intensity) as [[lo hi] |] eqn:Hi; intros Hbound.
  2: { apply generated_bind; [exact Hbound | safe_auto |]. intros _.
       apply emits_ret. apply generated_quiet; [exact Hbound | constructor | discriminate]. }
  apply intensity_map_ordered in Hi.
  apply generated_bind; [exact Hbound | safe_auto |]. intros _.
  eapply emits_bind.
  { apply (emits_and _ _ _
             (days_loop_counts (days_left self (start_date self)) self lo hi
                (start_date self) (Tally 0 0) ltac:(lia))
             (days_loop_no_totals (days_left self (start_date self)) self lo hi
                (start_date self) (Tally 0 0))). }
  - intros e evs [[Hb _] Hnt]. unfold generated. split; [exact Hb |]. split.
    + intros total successful Hin. exfalso. eapply no_totals_in; eauto.
    + intros b Hb'. discriminate.
  - intros t evs1 [[Hb Ht] Hnt]. destruct (Ht t eq_refl) as [Htot Hsuc]. simpl in Htot, Hsuc.
    cbv beta.
    apply (emits_bind _ _ (fun r evs => r = Ok tt /\
             evs = [EvPrint (Totals (total_commits t) (successful_commits t))])).
    { apply emits_emit. auto. }
    { intros e evs [He _]. discriminate. }
    intros _ evs2 [_ ->]. cbv beta.
    apply (emits_bind _ _ (fun r evs => r = Ok tt /\
             (evs = [] \/ exists n, evs = [EvPrint (Failed n)]))).
    { destruct (_ >? _); [apply emits_emit | apply emits_ret]; eauto. }
    { intros e evs [He _]. discriminate. }
    intros _ evs3 [_ Hevs3]. apply emits_ret.
    assert (Hquiet3 : attempted evs3 = 0 /\ succeeded evs3 = 0 /\
                      forall x y, ~ In (EvPrint (Totals x y)) evs3).
    { destruct Hevs3 as [-> | [n ->]]; repeat split; try reflexivity;
        intros x y Hin; simpl in Hin; [contradiction |].
      destruct Hin as [Hin | []]. discriminate. }
    destruct Hquiet3 as (Ha3 & Hs3 & Hnt3).
    unfold generated. rewrite !attempted_app, !succeeded_app, Ha3, Hs3.
    change (attempted []) with 0. change (succeeded []) with 0.
    change (attempted [EvPrint (Totals (total_commits t) (successful_commits t))]) with 0.
    change (succeeded [EvPrint (Totals (total_commits t) (successful_commits t))]) with 0.
    simpl Z.add.
    split; [exact Hb |]. split.
    + intros total successful Hin.
      rewrite !in_app_iff in Hin. destruct Hin as [[[[] | Hin] | Hin] | Hin].
      * exfalso. eapply Hnt3; eauto.
      * simpl in Hin. destruct Hin as [Hin | []]. inversion Hin; subst. split; lia.
      * exfalso. eapply no_totals_in; eauto.
    + intros b [= <-]. split; [f_equal; lia |].
      intros _. rewrite !in_app_iff. left. right. left. f_equal. f_equal; lia.
Qed.

(** The bound on the number of days left is never exhausted: more fuel
    does not change the loop. *)
Lemma days_loop_complete (self : filler) (lo hi : Z) (fuel extra : nat) (current_date : Z)
    (t : tally) (w : world) :
  (days_left self current_date <= fuel)%nat ->
  days_loop (fuel + extra) self lo hi current_date t w =
  days_loop fuel self lo hi current_date t w.
Proof.
  revert current_date t w. induction fuel as [| fuel IH]; intros current_date t w Hleft.
  - assert (Hpast : (current_date <=? end_date self) = false).
    { apply Z.leb_gt. unfold days_left, days_between in Hleft. time_units.
      assert (Hz : (end_date self - current_date) / 86400000000 + 1 <= 0) by lia.
      Z.div_mod_to_equations. lia. }
    destruct extra; simpl; rewrite Hpast; reflexivity.
  - simpl. destruct (current_date <=? end_date self) eqn:Hle; [| reflexivity].
    unfold bind. destruct (day_body self lo hi current_date t w) as [[t' | e] w']; [| reflexivity].
    apply IH. apply Z.leb_le in Hle.
    unfold days_left, days_between, timedelta_days in *. time_units.
    assert (Hz : (end_date self - (current_date + 1 * 86400000000)) / 86400000000 + 1
                 <= Z.of_nat fuel).
    { assert (Hz' : (end_date self - current_date) / 86400000000 + 1 <= Z.of_nat (S fuel))
        by lia.
      Z.div_mod_to_equations. lia. }
    lia.
Qed.

End Tally.

(** ** Running a program step by step *)

Lemma bind_ok {A B} (m : prog A) (k : A -> prog B) (w w1 : world) (a : A) :
  m w = (Ok a, w1) -> bind m k w = k a w1.
Proof. intros Hm. unfold bind. rewrite Hm. reflexivity. Qed.

Lemma bind_raise {A B} (m : prog A) (k : A -> prog B) (w w1 : world) (e : exn) :
  m w = (Raise e, w1) -> bind m k w = (Raise e, w1).
Proof. intros Hm. unfold bind. rewrite Hm. reflexivity. Qed.

Lemma try_ok {A} (m : prog A) (h : exn -> option (prog A)) (w w1 : world) (a : A) :
  m w = (Ok a, w1) -> try_except m h w = (Ok a, w1).
Proof. intros Hm. unfold try_except. rewrite Hm. reflexivity. Qed.

Lemma try_caught {A} (m : prog A) (h : exn -> option (prog A)) (w w1 : world) (e : exn)
    (k : prog A) :
  m w = (Raise e, w1) -> h e = Some k -> try_except m h w = k w1.
Proof. intros Hm Hh. unfold try_except. rewrite Hm, Hh. reflexivity. Qed.

Lemma try_uncaught {A} (m : prog A) (h : exn -> option (prog A)) (w w1 : world) (e : exn) :
  m w = (Raise e, w1) -> h e = None -> try_except m h w = (Raise e, w1).
Proof. intros Hm Hh. unfold try_except. rewrite Hm, Hh. reflexivity. Qed.

Lemma fs_call_run (e : option fault -> event) (effect : world -> world) (w : world) :
  fs_call e effect w =
    match hd None (io_faults w) with
    | None => (Ok tt, effect (log (e None) (with_io_faults (tl (io_faults w)) w)))
    | Some f => (Raise (exn_of_fault f),
                 log (e (Some f)) (with_io_faults (tl (io_faults w)) w))
    end.
Proof.
  unfold fs_call, bind, next_fault, emit, raise.
  destruct (hd None (io_faults w)); reflexivity.
Qed.

(** ** The scheduler: what is counted *)

Section Counting.
Context `{PyLib}.

(** C2, as amended.  A commit whose time falls in the future is skipped:
    [create_commit] is not called, the only event is the reading of the
    clock, and the tally is returned as it was; the commit is not counted
    as attempted. *)
Theorem future_commit_skipped (self : filler) (current_date : Z) (t : tally)
    (w w1 w2 : world) (commit_time n : Z) :
  pick_commit_time current_date w = (Ok commit_time, w1) ->
  now w1 = (Ok n, w2) ->
  commit_time > n ->
  commit_body self current_date t w = (Ok t, w2) /\
  trace w2 = EvNow n :: trace w /\
  attempted (trace w2) = attempted (trace w).
Proof.
  intros Hpick Hnow Hfuture.
  assert (Htrace : trace w2 = EvNow n :: trace w).
  { destruct (safe_no_event any_exn (pick_commit_time current_date)
                ltac:(safe_auto) w) as (evs & Ht & ->).
    rewrite Hpick in Ht. simpl in Ht.
    unfold now in Hnow. inversion Hnow; subst. simpl. rewrite Ht. reflexivity. }
  split; [| split; [exact Htrace | rewrite Htrace; reflexivity]].
  unfold commit_body. unfold bind at 1. rewrite Hpick.
  unfold bind at 1. rewrite Hnow.
  replace (commit_time >? n) with true by lia. reflexivity.
Qed.

(** C3, as amended.  [generate_commits] returns a boolean, which tells
    whether at least one commit succeeded.  The counts are printed, not
    returned: a line of totals gives the number of calls of
    [create_commit] and the number of commits that succeeded, and it has
    been printed whenever [True] is returned. *)
Theorem generate_commits_returns_flag (self : filler) (intensity : string) (w : world) :
  exists evs,
    trace (generate_commits self intensity w).2 = (evs ++ trace w)%list /\
    (forall total successful,
       In (EvPrint (Totals total successful)) evs ->
       total = attempted evs /\ successful = succeeded evs) /\
    (forall b, (generate_commits self intensity w).1 = Ok b ->
       b = (succeeded evs >? 0) /\
       (b = true -> In (EvPrint (Totals (attempted evs) (succeeded evs))) evs)).
Proof.
  destruct (generate_commits_counts self intensity w) as (evs & Ht & _ & Hp & Hr).
  exists evs. auto.
Qed.


Lemma should_commit_today_runs (date : Z) (w : world) :
  exists active w1, should_commit_today date w = (Ok active, w1).
Proof.
  unfold should_commit_today. unfold bind at 1. unfold now. cbv beta iota zeta.
  destruct (date >? _); [eauto |].
  match goal with |- context [bind _ _ ?w0] => set (w1 := w0) end.
  assert (Hlast : forall w2, exists active w3,
            (if weekday date <? 5
             then r <- random_random ;; ret (lt_0_85 r)
             else r <- random_random ;; ret (lt_0_5 r)) w2 = (Ok active, w3)).
  { intros w2. destruct (random_random_runs w2) as (r & rest & Hr).
    destruct (weekday date <? 5); rewrite (bind_ok _ _ _ _ _ Hr); eauto. }
  destruct (weekday date =? 6).
  - destruct (random_random_runs w1) as (r & rest & Hr).
    rewrite (bind_ok _ _ w1 (with_rng rest w1) (lt_0_4 r))
      by (rewrite (bind_ok _ _ _ _ _ Hr); reflexivity).
    destruct (lt_0_4 r); [eauto | apply Hlast].
  - rewrite (bind_ok (ret false) _ w1 w1 false eq_refl). apply Hlast.
Qed.

(** The loop of the scheduler is a run in which every active day draws
    within the bounds it is given. *)
Lemma days_loop_tiered (self : filler) (lo hi : Z) (fuel : nat) (current_date : Z)
    (t : tally) (w : world) :
  lo <= hi ->
  (days_left self current_date <= fuel)%nat ->
  tiered_run self lo hi current_date t w
    (days_loop fuel self lo hi current_date t w).1
    (days_loop fuel self lo hi current_date t w).2.
Proof.
  intros Hlohi. revert current_date t w.
  induction fuel as [| fuel IH]; intros current_date t w Hleft.
  - assert (Hpast : end_date self < current_date).
    { unfold days_left, days_between in Hleft. time_units.
      assert (Hz : (end_date self - current_date) / 86400000000 + 1 <= 0) by lia.
      Z.div_mod_to_equations. lia. }
    simpl. destruct (current_date <=? end_date self); apply run_over; exact Hpast.
  - simpl. destruct (current_date <=? end_date self) eqn:Hle;
      [| apply run_over; lia].
    apply Z.leb_le in Hle.
    assert (Hnext : (days_left self (current_date + timedelta_days 1) <= fuel)%nat).
    { unfold days_left, days_between, timedelta_days in *. time_units.
      assert (Hz : (end_date self - (current_date + 1 * 86400000000)) / 86400000000 + 1
                   <= Z.of_nat fuel).
      { assert (Hz' : (end_date self - current_date) / 86400000000 + 1 <= Z.of_nat (S fuel))
          by lia.
        Z.div_mod_to_equations. lia. }
      lia. }
    destruct (should_commit_today_runs current_date w) as (active & w1 & Hactive).
    destruct active.
    + destruct (randint_runs lo hi w1 Hlohi) as (n & rest & Hn & Hrange).
      assert (Hday : day_body self lo hi current_date t w =
                       for_range (Z.to_nat n) (commit_body self current_date) t
                         (with_rng rest w1)).
      { unfold day_body. rewrite (bind_ok _ _ _ _ _ Hactive).
        rewrite (bind_ok _ _ _ _ _ Hn). reflexivity. }
      destruct (for_range (Z.to_nat n) (commit_body self current_date) t (with_rng rest w1))
        as [[t' | e] w3] eqn:Hfor.
      * rewrite (bind_ok _ _ _ _ _ Hday).
        eapply run_active; eauto.
      * rewrite (bind_raise _ _ _ _ _ Hday). simpl.
        eapply run_raised; eauto.
    + assert (Hday : day_body self lo hi current_date t w = (Ok t, w1)).
      { unfold day_body. rewrite (bind_ok _ _ _ _ _ Hactive). reflexivity. }
      rewrite (bind_ok _ _ _ _ _ Hday).
      eapply run_inactive; eauto.
Qed.

(** C5.  The four tiers are low = (1, 2), medium = (1, 4), high = (2, 6)
    and very_high = (3, 10).  When the dates are valid,
    [generate_commits] runs its loop with the bounds of the tier selected
    by [intensity]: the run is one in which, on every active day, the
    number of commits drawn lies within the inclusive bounds of that
    tier and the inner loop runs that many times; [generate_commits]
    then reports the tally of that run, or fails as that run failed. *)
Theorem daily_commits_within_tier (self : filler) (intensity : string) (lo hi : Z)
    (w w1 : world) :
  intensity_map !! intensity = Some (lo, hi) ->
  validate_dates self w = (Ok true, w1) ->
  (forall tier bounds,
     intensity_map !! tier = Some bounds <->
     In (tier, bounds)
        [ ("low", (1, 2)); ("medium", (1, 4)); ("high", (2, 6)); ("very_high", (3, 10)) ]) /\
  exists r w',
    tiered_run self lo hi (start_date self) (Tally 0 0)
      (log (EvPrint (Note "generating")) w1) r w' /\
    generate_commits self intensity w =
      match r with
      | Ok t =>
          (print (Totals (total_commits t) (successful_commits t)) ;;
           (if total_commits t >? successful_commits t
            then print (Failed (total_commits t - successful_commits t))
            else ret tt) ;;
           ret (successful_commits t >? 0)) w'
      | Raise e => (Raise e, w')
      end.
Proof.
  intros Htier Hvalid. split.
  { intros tier [l h]. split; [apply intensity_map_tiers |].
    simpl. intros Hin.
    repeat (destruct Hin as [Hin | Hin]; [injection Hin as <- <- <-; reflexivity |]).
    contradiction. }
  pose proof (intensity_map_ordered _ _ _ Htier) as Hordered.
  pose proof (days_loop_tiered self lo hi (days_left self (start_date self))
                (start_date self) (Tally 0 0) (log (EvPrint (Note "generating")) w1)
                ltac:(lia) (Nat.le_refl _)) as Hrun.
  assert (Hgc : generate_commits self intensity w =
            (t <- days_loop (days_left self (start_date self)) self lo hi
                    (start_date self) (Tally 0 0) ;;
             print (Totals (total_commits t) (successful_commits t)) ;;
             (if total_commits t >? successful_commits t
              then print (Failed (total_commits t - successful_commits t))
              else ret tt) ;;
             ret (successful_commits t >? 0))
              (log (EvPrint (Note "generating")) w1)).
  { unfold generate_commits. rewrite (bind_ok _ _ _ _ _ Hvalid).
    cbv beta iota delta [negb]. rewrite Htier. reflexivity. }
  rewrite Hgc.
  destruct (days_loop (days_left self (start_date self)) self lo hi (start_date self)
              (Tally 0 0) (log (EvPrint (Note "generating")) w1)) as [[t | e] w'] eqn:Hloop;
    simpl in Hrun.
  - exists (Ok t), w'. split; [exact Hrun |].
    rewrite (bind_ok _ _ _ _ _ Hloop). reflexivity.
  - exists (Raise e), w'. split; [exact Hrun |].
    rewrite (bind_raise _ _ _ _ _ Hloop). reflexivity.
Qed.

End Counting.

Lemma daily_commits_within_tier_witness :
  intensity_map !! "low" = Some (1, 2) /\
  (@validate_dates example_lib Example.today Example.one_commit).1 = Ok true /\
  exists r w',
    tiered_run Example.today 1 2 (start_date Example.today) (Tally 0 0)
      (log (EvPrint (Note "generating"))
         (@validate_dates example_lib Example.today Example.one_commit).2) r w'.
Proof.
  split; [reflexivity |]. split; [reflexivity |].
  destruct (@daily_commits_within_tier example_lib Example.today "low" 1 2
              Example.one_commit
              (@validate_dates example_lib Example.today Example.one_commit).2
              eq_refl eq_refl)
    as [_ (r & w' & Hrun & _)].
  exists r, w'. exact Hrun.
Defined.


Lemma future_commit_skipped_witness :
  pick_commit_time Example.thursday Example.thursday_morning
    = (Ok (Example.thursday + 9 * HOUR),
       (pick_commit_time Example.thursday Example.thursday_morning).2) /\
  Example.thursday + 9 * HOUR > Example.thursday + 8 * HOUR /\
  (commit_body Example.today Example.thursday (Tally 0 0) Example.thursday_morning).1
    = Ok (Tally 0 0).
Proof.
  split; [reflexivity |]. split; [reflexivity |].
  destruct (future_commit_skipped Example.today Example.thursday (Tally 0 0)
              Example.thursday_morning
              (pick_commit_time Example.thursday Example.thursday_morning).2
              (now (pick_commit_time Example.thursday Example.thursday_morning).2).2
              (Example.thursday + 9 * HOUR) (Example.thursday + 8 * HOUR)
              eq_refl eq_refl eq_refl) as [Hbody _].
  rewrite Hbody. reflexivity.
Defined.

(** C2, as stated, fails: on Thursday at 08:00 the time picked is 09:00,
    in the future; the commit is skipped and the total stays 0 instead of
    becoming 1. *)
Lemma future_commit_counted_counterexample :
  (pick_commit_time Example.thursday Example.thursday_morning).1
    = Ok (Example.thursday + 9 * HOUR) /\
  (now (pick_commit_time Example.thursday Example.thursday_morning).2).1
    = Ok (Example.thursday + 8 * HOUR) /\
  exists t',
    (commit_body Example.today Example.thursday (Tally 0 0) Example.thursday_morning).1
      = Ok t' /\
    total_commits t' <> total_commits (Tally 0 0) + 1.
Proof.
  split; [reflexivity |]. split; [reflexivity |].
  exists (Tally 0 0). split; [reflexivity | discriminate].
Qed.

(** C3, as stated, fails: two runs with different counts, (1, 1) and
    (2, 1), return the same value, [True]; the value returned is not the
    pair of counts. *)
Lemma generate_commits_pair_counterexample :
  (@generate_commits example_lib Example.today "low" Example.one_commit).1 = Ok true /\
  (@generate_commits example_lib Example.today "low" Example.two_commits).1 = Ok true /\
  reported_totals (trace (@generate_commits example_lib Example.today "low"
                            Example.one_commit).2) = Some (1, 1) /\
  reported_totals (trace (@generate_commits example_lib Example.today "low"
                            Example.two_commits).2) = Some (2, 1).
Proof. repeat split; vm_compute; reflexivity. Qed.


(** ** Parts of the world that a program leaves alone *)

Section Preserves.
Context {X : Type}.
Variable part : world -> X.


(** The part does not depend on the trace nor on the oracles. *)
Hypothesis part_log : forall e w, part (log e w) = part w.
Hypothesis part_clock : forall c t w, part (with_clock c t w) = part w.
Hypothesis part_rng : forall r w, part (with_rng r w) = part w.
Hypothesis part_stdin : forall i w, part (with_stdin i w) = part w.
Hypothesis part_procs : forall p w, part (with_procs p w) = part w.
Hypothesis part_io_faults : forall f w, part (with_io_faults f w) = part w.

Lemma preserves_ret {A} (a : A) : preserves part (ret a).
Proof. intros w. reflexivity. Qed.

Lemma preserves_raise {A} (e : exn) : preserves part (@raise A e).
Proof. intros w. reflexivity. Qed.

Lemma preserves_bind {A B} (m : prog A) (k : A -> prog B) :
  preserves part m -> (forall a, preserves part (k a)) -> preserves part (bind m k).
Proof.
  intros Hm Hk w. unfold bind. specialize (Hm w).
  destruct (m w) as [[a | e] w1]; simpl in *; [| exact Hm].
  rewrite Hk. exact Hm.
Qed.

Lemma preserves_try {A} (m : prog A) (h : exn -> option (prog A)) :
  preserves part m -> (forall e k, h e = Some k -> preserves part k) -> preserves part (try_except m h).
Proof.
  intros Hm Hh w. unfold try_except. specialize (Hm w).
  destruct (m w) as [[a | e] w1]; simpl in *; [exact Hm |].
  destruct (h e) as [k |] eqn:Hk; [| exact Hm].
  rewrite (Hh e k Hk). exact Hm.
Qed.

Lemma preserves_for_range {A} (n : nat) (body : A -> prog A) (acc : A) :
  (forall a, preserves part (body a)) -> preserves part (for_range n body acc).
Proof.
  intros Hbody. revert acc. induction n as [| n IH]; intros acc; simpl.
  - apply preserves_ret.
  - apply preserves_bind; auto.
Qed.

Lemma preserves_emit (e : event) : preserves part (emit e).
Proof. intros w. apply part_log. Qed.

Lemma preserves_now : preserves part now.
Proof. intros w. unfold now. simpl. rewrite part_log. apply part_clock. Qed.

Lemma preserves_next_draw : preserves part next_draw.
Proof. intros w. unfold next_draw. destruct (rng w); simpl; [reflexivity | apply part_rng]. Qed.

Lemma preserves_random_random : preserves part random_random.
Proof. apply preserves_bind; [apply preserves_next_draw | intros; apply preserves_ret]. Qed.

Lemma preserves_randint (a b : Z) : preserves part (randint a b).
Proof. apply preserves_bind; [apply preserves_next_draw | intros; apply preserves_ret]. Qed.

Lemma preserves_choice {A} (dflt : A) (l : list A) : preserves part (choice dflt l).
Proof. apply preserves_bind; [apply preserves_next_draw | intros; apply preserves_ret]. Qed.

Lemma preserves_input (prompt : string) : preserves part (input prompt).
Proof.
  intros w. unfold input.
  destruct (hd InputEOF (stdin w)); simpl; rewrite part_log; apply part_stdin.
Qed.

Lemma preserves_subprocess_run (command : list string) (env : option Z) (check : bool) :
  preserves part (subprocess_run command env check).
Proof.
  intros w. unfold subprocess_run.
  destruct (hd (Completed 0 "") (procs w)) as [rc out | f]; simpl.
  - destruct (check && negb (rc =? 0)); simpl; rewrite part_log; apply part_procs.
  - rewrite part_log. apply part_procs.
Qed.

Lemma preserves_fs_call (e : option fault -> event) (effect : world -> world) :
  (forall w, part (effect w) = part w) -> preserves part (fs_call e effect).
Proof.
  intros Heff w. rewrite fs_call_run.
  destruct (hd None (io_faults w)); simpl;
    rewrite ?Heff, part_log; apply part_io_faults.
Qed.

Lemma preserves_write (path : string) (c : chunk) :
  (forall f w, part (with_files (<[ path := f ]> (files w)) w) = part w) ->
  preserves part (write path c).
Proof. intros Hw w. unfold write. simpl. rewrite part_log. apply Hw. Qed.

Lemma preserves_path_exists (path : string) : preserves part (path_exists path).
Proof. intros w. reflexivity. Qed.

Lemma preserves_get_cwd : preserves part get_cwd.
Proof. intros w. reflexivity. Qed.

End Preserves.

Ltac preserves_side := intros; reflexivity.

Ltac preserves_handler Hh :=
  simpl in Hh; first [discriminate Hh | injection Hh as <-].

Ltac preserves_step :=
  lazymatch goal with
  | |- preserves _ (ret _) => apply preserves_ret
  | |- preserves _ (raise _) => apply preserves_raise
  | |- preserves _ (sys_exit _) => apply preserves_raise
  | |- preserves _ (emit _) => apply preserves_emit; preserves_side
  | |- preserves _ (print _) => apply preserves_emit; preserves_side
  | |- preserves _ (bind _ _) => apply preserves_bind; [| intros ?]
  | |- preserves _ (try_except _ _) =>
      let e := fresh "e" in let k := fresh "k" in let Hh := fresh "Hh" in
      apply preserves_try;
      [| intros e k Hh; destruct e as [? | | | [| |] |]; preserves_handler Hh ]
  | |- preserves _ (for_range _ _ _) => apply preserves_for_range; intros ?
  | |- preserves _ now => apply preserves_now; preserves_side
  | |- preserves _ random_random => apply preserves_random_random; preserves_side
  | |- preserves _ (randint _ _) => apply preserves_randint; preserves_side
  | |- preserves _ (choice _ _) => apply preserves_choice; preserves_side
  | |- preserves _ (input _) => apply preserves_input; preserves_side
  | |- preserves _ (subprocess_run _ _ _) => apply preserves_subprocess_run; preserves_side
  | |- preserves _ (fs_call _ _) => apply preserves_fs_call; try preserves_side
  | |- preserves _ (write _ _) => apply preserves_write; try preserves_side
  | |- preserves _ (path_exists _) => apply preserves_path_exists
  | |- preserves _ get_cwd => apply preserves_get_cwd
  | |- preserves _ (match ?x with _ => _ end) => destruct x
  | |- preserves _ ?m => let f := head_of m in unfold f; cbv zeta
  end.

Ltac preserves_auto := cbv beta zeta; repeat preserves_step.

(** ** create_commit is not atomic *)


Section NotAtomic.
Context `{PyLib}.

Lemma git_commands_keep_files (self : filler) (message : string) (date_str : Z) :
  preserves files
    (try_except
       (_run_git_command self ["git"; "add"; "."] (Some date_str) true ;;
        _run_git_command self ["git"; "commit"; "-m"; message] (Some date_str) true ;;
        ret true)
       (fun e => match e with
                 | CalledProcessError => Some (print (Note "commit-error") ;; ret false)
                 | _ => None
                 end)).
Proof. preserves_auto. Qed.

(** The first [try] of [create_commit]: either the file cannot be opened,
    and nothing is written, or the entry is appended. *)
Lemma append_entry_run (path : string) (stamp : Z) (w : world) :
  let block :=
    try_except
      (open_a path ;;
       tag <- randint 1000 9999 ;;
       write path (DataEntry stamp tag) ;;
       ret true)
      (fun e => if is_OSError e
                then Some (print (Note "data-append-error") ;; ret false)
                else None) in
  (exists evs,
      (block w).1 <> Ok true /\
      trace (block w).2 = (evs ++ trace w)%list /\
      Forall (fun e => not_run e = true) evs /\
      files (block w).2 = files w)
  \/
  (exists tag,
      1000 <= tag <= 9999 /\
      (block w).1 = Ok true /\
      trace (block w).2 = EvWrite path (DataEntry stamp tag) :: EvOpen path "a" None :: trace w /\
      files (block w).2 =
        <[ path := (default [] (files w !! path) ++ [DataEntry stamp tag])%list ]> (files w)).
Proof.
  intros block. unfold block.
  set (opened := log (EvOpen path "a" (hd None (io_faults w)))
                     (with_io_faults (tl (io_faults w)) w)).
  destruct (hd None (io_faults w)) as [f |] eqn:Hf.
  - left.
    assert (Hopen : open_a path w = (Raise (exn_of_fault f), opened)).
    { unfold open_a. rewrite fs_call_run, Hf. reflexivity. }
    destruct f as [k |].
    + rewrite (try_caught _ _ w opened (OSError k)
                 (print (Note "data-append-error") ;; ret false));
        [| apply bind_raise; exact Hopen | reflexivity ].
      exists [EvPrint (Note "data-append-error"); EvOpen path "a" (Some (FaultOS k))].
      repeat split; try discriminate. repeat constructor.
    + rewrite (try_uncaught _ _ w opened KeyboardInterrupt);
        [| apply bind_raise; exact Hopen | reflexivity ].
      exists [EvOpen path "a" (Some FaultInterrupt)].
      repeat split; try discriminate. repeat constructor.
  - right.
    set (w2 := with_files (<[ path := default [] (files w !! path) ]> (files w)) opened).
    assert (Hopen : open_a path w = (Ok tt, w2)).
    { unfold open_a. rewrite fs_call_run, Hf. reflexivity. }
    destruct (randint_runs 1000 9999 w2) as (tag & rest & Htag & Hrange); [lia |].
    exists tag. split; [exact Hrange |].
    erewrite try_ok.
    2: { erewrite bind_ok by exact Hopen. erewrite bind_ok by exact Htag.
         erewrite bind_ok by reflexivity. reflexivity. }
    simpl. repeat split.
    rewrite lookup_insert_eq. simpl. apply insert_insert_eq.
Qed.

Lemma create_commit_steps (self : filler) (date : Z) (message : option string) (w : world) :
  let data_path := joinpath (repo_path self) "data.txt" in
  (exists older,
      trace (create_commit self date message w).2 = (older ++ trace w)%list /\
      Forall (fun e => not_run e = true) older /\
      files (create_commit self date message w).2 = files w)
  \/
  (exists tag newer older,
      1000 <= tag <= 9999 /\
      trace (create_commit self date message w).2 =
        ((newer ++ EvWrite data_path (DataEntry (strftime date) tag) :: older) ++ trace w)%list /\
      Forall (fun e => not_run e = true) older /\
      files (create_commit self date message w).2 =
        <[ data_path := (default [] (files w !! data_path)
                         ++ [DataEntry (strftime date) tag])%list ]> (files w)).
Proof.
  intros data_path. unfold create_commit. fold data_path.
  rewrite (bind_ok _ _ w (log (EvCreateCommit date) w) tt) by reflexivity.
  assert (Hmsg : exists msg rest,
             (if truthy_opt message then ret (default "" message) else choice "" messages)
               (log (EvCreateCommit date) w)
             = (Ok msg, with_rng rest (log (EvCreateCommit date) w))).
  { destruct (truthy_opt message).
    - exists (default "" message), (rng w). reflexivity.
    - destruct (choice_runs "" messages (log (EvCreateCommit date) w)) as (x & rest & Hx & _);
        [discriminate | eauto]. }
  destruct Hmsg as (msg & rest & Hmsg). rewrite (bind_ok _ _ _ _ _ Hmsg).
  set (w1 := with_rng rest (log (EvCreateCommit date) w)).
  cbv zeta.
  pose proof (append_entry_run data_path (strftime date) w1) as Happend.
  cbv zeta in *.
  match goal with
  | |- context [bind ?blk ?k w1] => set (block := blk) in *; set (cont := k) in *
  end.
  destruct (block w1) as [[appended | e] w4] eqn:Hblock; simpl in Happend.
  - rewrite (bind_ok _ _ _ _ _ Hblock). unfold cont. destruct appended; cbv beta iota delta [negb].
    + right. destruct Happend as [(evs & Hr & _) | (tag & Hrange & _ & Ht & Hfiles)];
        [congruence |].
      pose proof (git_commands_keep_files self msg (strftime date) w4) as Hkeep.
      assert (Hgit : safe (fun _ => true) any_exn
                (try_except
                   (_run_git_command self ["git"; "add"; "."] (Some (strftime date)) true ;;
                    _run_git_command self ["git"; "commit"; "-m"; msg]
                      (Some (strftime date)) true ;;
                    ret true)
                   (fun e => match e with
                             | CalledProcessError =>
                                 Some (print (Note "commit-error") ;; ret false)
                             | _ => None
                             end))) by safe_auto.
      destruct (Hgit w4) as (newer & Hnewer & _).
      exists tag, newer, [EvOpen data_path "a" None; EvCreateCommit date].
      split; [exact Hrange |]. rewrite Hkeep, Hnewer, Ht, Hfiles. repeat split.
      * rewrite <- app_assoc. reflexivity.
      * repeat constructor.
    + left. destruct Happend as [(evs & _ & Ht & HF & Hfiles) | (tag & _ & Hr & _)];
        [| discriminate].
      exists (evs ++ [EvCreateCommit date])%list. unfold ret. simpl.
      rewrite Ht, Hfiles. repeat split.
      * rewrite <- app_assoc. reflexivity.
      * apply Forall_app. split; [exact HF | repeat constructor].
  - rewrite (bind_raise _ _ _ _ _ Hblock). simpl. left.
    destruct Happend as [(evs & _ & Ht & HF & Hfiles) | (tag & _ & Hr & _)];
      [| discriminate].
    exists (evs ++ [EvCreateCommit date])%list. rewrite Ht, Hfiles. repeat split.
    + rewrite <- app_assoc. reflexivity.
    + apply Forall_app. split; [exact HF | repeat constructor].
Qed.

(** C10.  [create_commit] is not atomic.  Whenever it invokes git, it has
    first appended to data.txt a line made of the time stamp and of a
    tag in [1000, 9999]; whatever git does next, and so also when the
    commit fails and [create_commit] returns [False], the line is in the
    file at the end: nothing rolls it back. *)
Theorem create_commit_not_atomic (self : filler) (date : Z) (message : option string)
    (w : world) (evs : list event) :
  trace (create_commit self date message w).2 = (evs ++ trace w)%list ->
  Exists (fun e => is_run e = true) evs ->
  exists tag newer older,
    1000 <= tag <= 9999 /\
    evs = (newer ++ EvWrite (joinpath (repo_path self) "data.txt")
                      (DataEntry (strftime date) tag) :: older)%list /\
    Forall (fun e => is_run e = false) older /\
    files (create_commit self date message w).2 !! joinpath (repo_path self) "data.txt" =
      Some (default [] (files w !! joinpath (repo_path self) "data.txt")
            ++ [DataEntry (strftime date) tag])%list.
Proof.
  intros Htrace Hrun.
  destruct (create_commit_steps self date message w) as
    [(older & Ht & HF & _) | (tag & newer & older & Hrange & Ht & HF & Hfiles)].
  - exfalso. rewrite Ht in Htrace. apply app_inv_tail in Htrace. subst older.
    apply Exists_exists in Hrun as (e & Hin & He).
    rewrite Forall_forall in HF. apply HF in Hin.
    unfold not_run in Hin. rewrite He in Hin. discriminate.
  - rewrite Ht in Htrace. apply app_inv_tail in Htrace.
    exists tag, newer, older. split; [exact Hrange |]. split; [auto |]. split.
    + eapply Forall_impl; [exact HF |]. intros e He. apply negb_true_iff in He. exact He.
    + rewrite Hfiles. apply lookup_insert_eq.
Qed.

End NotAtomic.

Lemma create_commit_not_atomic_witness :
  (create_commit Example.today (Example.thursday + 9 * HOUR) None Example.commit_fails).1
    = Ok false /\
  exists tag,
    files (create_commit Example.today (Example.thursday + 9 * HOUR) None
             Example.commit_fails).2 !! "/home/ada/repo/data.txt"
      = Some [DataEntry (strftime (Example.thursday + 9 * HOUR)) tag].
Proof.
  split; [reflexivity |].
  destruct (create_commit_not_atomic Example.today (Example.thursday + 9 * HOUR) None
              Example.commit_fails
              (trace (create_commit Example.today (Example.thursday + 9 * HOUR) None
                        Example.commit_fails).2))
    as (tag & newer & older & _ & _ & _ & Hfile).
  - symmetry. apply app_nil_r.
  - apply List.Exists_exists.
    exists (EvRun ["git"; "add"; "."] (Some (strftime (Example.thursday + 9 * HOUR)))
              (Completed 0 "")).
    split; [| reflexivity].
    vm_compute. repeat (first [left; reflexivity | right]).
  - exists tag. exact Hfile.
Defined.

(** ** Setting up a repository that is already set up *)



Lemma emits_at_bind {A B} (m : prog A) (k : A -> prog B) (w : world) Q1
    (Q : result B -> world -> list event -> Prop) :
  emits_at m w Q1 ->
  (forall e w1 evs, Q1 (Raise e) w1 evs -> Q (Raise e) w1 evs) ->
  (forall a w1 evs1, Q1 (Ok a) w1 evs1 ->
     emits_at (k a) w1 (fun r w2 evs2 => Q r w2 (evs2 ++ evs1)%list)) ->
  emits_at (bind m k) w Q.
Proof.
  intros (evs1 & Ht1 & Hq1) Hraise Hk. unfold emits_at, bind.
  destruct (m w) as [[a | e] w1]; simpl in *.
  - destruct (Hk a w1 evs1 Hq1) as (evs2 & Ht2 & Hq2).
    exists (evs2 ++ evs1)%list. split; [| exact Hq2].
    rewrite Ht2, Ht1. apply app_assoc.
  - exists evs1. auto.
Qed.

(** What a program emits, what it preserves and what it maintains,
    together. *)
Lemma emits_at_safe {A} {X} (P : event -> bool) (E : exn -> bool) (part : world -> X)
    (I : world -> Prop) (m : prog A) (w : world) :
  safe P E m -> preserves part m -> (forall w, I w -> I (m w).2) -> I w ->
  emits_at m w (fun r w' evs =>
    Forall (fun e => P e = true) evs /\ part w' = part w /\ I w').
Proof.
  intros Hs Hp Hi Hw. destruct (Hs w) as (evs & Ht & HF & _).
  exists evs. split; [exact Ht |]. split; [exact HF |]. split; [apply Hp | apply Hi; exact Hw].
Qed.


Lemma maintains_bind {A B} (I : world -> Prop) (m : prog A) (k : A -> prog B) :
  maintains I m -> (forall a, maintains I (k a)) -> maintains I (bind m k).
Proof.
  intros Hm Hk w Hw. unfold bind. specialize (Hm w Hw).
  destruct (m w) as [[a | e] w1]; simpl in *; [| exact Hm].
  apply Hk. exact Hm.
Qed.

Lemma maintains_preserves {A} {X} (part : world -> X) (I : world -> Prop) (m : prog A) :
  (forall w w', part w' = part w -> I w -> I w') ->
  preserves part m -> maintains I m.
Proof. intros HI Hm w Hw. apply (HI w); [apply Hm | exact Hw]. Qed.

Lemma joinpath_inj (base a b : string) : joinpath base a = joinpath base b -> a = b.
Proof.
  unfold joinpath. induction base as [| c base IH]; simpl; intros Heq.
  - injection Heq. auto.
  - injection Heq. auto.
Qed.

Ltac all_events :=
  repeat (apply Forall_app; split); first [assumption | repeat constructor].

Section Setup.
Context `{PyLib}.

Lemma check_git_installed_procs (w : world) :
  (_check_git_installed w).1 = Ok tt ->
  procs (_check_git_installed w).2 = tl (procs w).
Proof.
  unfold _check_git_installed, try_except, bind, subprocess_run.
  destruct (hd (Completed 0 "") (procs w)) as [rc out | [[| |] |]]; simpl;
    try destruct (rc =? 0); simpl; (reflexivity || discriminate).
Qed.

(** When git reports both settings, [_setup_git_config] asks for them and
    does nothing else. *)
Lemma setup_git_config_configured (self : filler) (w : world) (name email : string)
    (rest : list proc_result) :
  procs w = Completed 0 name :: Completed 0 email :: rest ->
  truthy (str_strip name) = true ->
  truthy (str_strip email) = true ->
  _setup_git_config self w =
    (Ok true,
     log (EvPrint (Note "git-configured"))
       (log (EvRun ["git"; "config"; "user.email"] None (Completed 0 email))
          (with_procs rest
             (log (EvRun ["git"; "config"; "user.name"] None (Completed 0 name))
                (with_procs (Completed 0 email :: rest) w))))).
Proof.
  intros Hprocs Hname Hemail.
  unfold _setup_git_config, _run_git_command, try_except, bind, subprocess_run.
  rewrite Hprocs. simpl. rewrite Hname, Hemail. reflexivity.
Qed.

Lemma mkdir_keeps_dirs (self : filler) (c : string) (path : string) (w : world) :
  path ∈ dirs w ->
  path ∈ dirs ((if negb (String.eqb (repo_path self) c) then
                  try_except (mkdir (repo_path self))
                    (fun e => match e with
                              | OSError PermissionDenied =>
                                  Some (print (Note "mkdir-denied") ;; sys_exit 1)
                              | _ => None
                              end)
                else ret tt) w).2.
Proof.
  intros Hin. destruct (negb (String.eqb (repo_path self) c)); [| exact Hin].
  unfold try_except, mkdir. rewrite fs_call_run.
  destruct (hd None (io_faults w)) as [[[| |] |] |]; simpl; try exact Hin.
  set_solver.
Qed.

Lemma setup_repository_no_config_write (self : filler) (w : world)
    (version : proc_result) (name email : string) (rest : list proc_result) :
  procs w = version :: Completed 0 name :: Completed 0 email :: rest ->
  truthy (str_strip name) = true ->
  truthy (str_strip email) = true ->
  joinpath (repo_path self) ".git" ∈ dirs w ->
  emits_at (setup_repository self) w
    (fun _ _ evs => Forall (fun e => not_config_write e = true) evs).
Proof.
  intros Hprocs Hname Hemail Hgit. unfold setup_repository.
  (* git --version *)
  apply (emits_at_bind _ _ _
           (fun r w1 evs => Forall (fun e => not_config_write e = true) evs /\
                            dirs w1 = dirs w /\
                            (r = Ok tt -> procs w1 = tl (procs w)))).
  { destruct (emits_at_safe not_config_write any_exn dirs (fun _ => True)
                _check_git_installed w ltac:(safe_auto) ltac:(preserves_auto)
                ltac:(auto) I) as (evs & Ht & HF & Hd & _).
    exists evs. split; [exact Ht |]. split; [exact HF |]. split; [exact Hd |].
    apply check_git_installed_procs. }
  { intros e w1 evs (HF & _). exact HF. }
  intros [] w1 evs1 (HF1 & Hd1 & Hp1). specialize (Hp1 eq_refl).
  rewrite Hprocs in Hp1. simpl in Hp1. rewrite <- Hd1 in Hgit. clear Hd1 Hprocs.
  (* Path.cwd() *)
  apply (emits_at_bind _ _ _ (fun r w2 evs => w2 = w1 /\ evs = [])).
  { exists []. split; [reflexivity | split; reflexivity]. }
  { intros e w2 evs [-> ->]. all_events. }
  intros c w2 evs2 [-> ->].
  (* mkdir *)
  eapply emits_at_bind.
  { apply (emits_at_safe not_config_write any_exn procs
             (fun w => joinpath (repo_path self) ".git" ∈ dirs w)).
    - safe_auto.
    - preserves_auto.
    - intros w0 Hw0. apply mkdir_keeps_dirs. exact Hw0.
    - exact Hgit. }
  { intros e w3 evs (HF3 & _). all_events. }
  intros [] w3 evs3 (HF3 & Hp3 & Hd3). rewrite Hp1 in Hp3. cbv zeta.
  (* .git exists *)
  apply (emits_at_bind _ _ _ (fun r w4 evs => r = Ok true /\ w4 = w3 /\ evs = [])).
  { exists []. split; [reflexivity |]. split; [| split; reflexivity].
    unfold path_exists. simpl. rewrite bool_decide_eq_true_2 by exact Hd3. reflexivity. }
  { intros e w4 evs (He & _). discriminate. }
  intros git_dir_exists w4 evs4 (Hex & -> & ->). inversion Hex; subst git_dir_exists.
  simpl negb. cbv iota.
  apply (emits_at_bind _ _ _
           (fun r w5 evs => evs = [EvPrint (Note "existing-repository")] /\
                            procs w5 = procs w3)).
  { exists [EvPrint (Note "existing-repository")]. repeat split. }
  { intros e w5 evs [-> _]. all_events. }
  intros [] w5 evs5 [-> Hp5]. rewrite Hp3 in Hp5.
  (* identity *)
  apply (emits_at_bind _ _ _
           (fun r w6 evs => r = Ok true /\ Forall (fun e => not_config_write e = true) evs)).
  { unfold emits_at.
    rewrite (setup_git_config_configured self w5 name email rest Hp5 Hname Hemail).
    exists [EvPrint (Note "git-configured");
            EvRun ["git"; "config"; "user.email"] None (Completed 0 email);
            EvRun ["git"; "config"; "user.name"] None (Completed 0 name)].
    repeat split. repeat constructor. }
  { intros e w6 evs [He _]. discriminate. }
  intros configured w6 evs6 [Hc HF6]. inversion Hc; subst configured.
  simpl negb. cbv iota.
  (* seed files *)
  destruct (emits_at_safe not_config_write any_exn procs (fun _ => True)
              (ret tt ;; _create_initial_files self) w6 ltac:(safe_auto)
              ltac:(preserves_auto) ltac:(auto) I) as (evs7 & Ht7 & HF7 & _).
  exists evs7. split; [exact Ht7 |]. all_events.
Qed.

(** A seed file that exists keeps its content. *)
Lemma seed_exists (path : string) (content : list chunk) (w : world) :
  files w !! path = Some content -> path_exists path w = (Ok true, w).
Proof.
  intros Hfile. unfold path_exists. rewrite Hfile.
  rewrite (bool_decide_eq_true_2 (is_Some (Some content))) by eauto.
  rewrite orb_true_r. reflexivity.
Qed.

Lemma create_initial_files_keeps_seed (self : filler) (seed : string)
    (content : list chunk) :
  In seed ["README.md"; "data.txt"] ->
  maintains (fun w => files w !! joinpath (repo_path self) seed = Some content)
    (_create_initial_files self).
Proof.
  intros Hseed. unfold _create_initial_files. cbv zeta.
  assert (Hother : forall other,
            other <> seed ->
            forall A (m : prog A),
              preserves (fun w => files w !! joinpath (repo_path self) seed) m ->
              maintains (fun w => files w !! joinpath (repo_path self) seed = Some content) m).
  { intros other _ A m Hm. apply (maintains_preserves _ _ _ (fun w w' Heq Hw => eq_trans Heq Hw) Hm). }
  assert (Hne : forall other f w,
            other <> seed ->
            files (with_files (<[ joinpath (repo_path self) other := f ]> (files w)) w)
              !! joinpath (repo_path self) seed
            = files w !! joinpath (repo_path self) seed).
  { intros other f w Hneq. simpl. apply lookup_insert_ne.
    intros Heq. apply joinpath_inj in Heq. auto. }
  destruct Hseed as [<- | [<- | []]].
  - (* README.md exists: it is not opened; data.txt is another file *)
    intros w Hw. rewrite (bind_ok _ _ _ _ _ (seed_exists _ _ _ Hw)).
    simpl negb. cbv iota. rewrite (bind_ok _ _ w w tt) by reflexivity.
    revert w Hw. apply (Hother "data.txt"); [discriminate |].
    preserves_auto; intros; cbv beta; apply Hne; discriminate.
  - (* data.txt exists: README.md is another file; data.txt is not opened *)
    apply maintains_bind.
    { apply (Hother "README.md"); [discriminate |]. preserves_auto. }
    intros readme_exists. apply maintains_bind.
    { apply (Hother "README.md"); [discriminate |].
      preserves_auto; intros; cbv beta; apply Hne; discriminate. }
    intros _ w Hw. rewrite (bind_ok _ _ _ _ _ (seed_exists _ _ _ Hw)). exact Hw.
Qed.

Lemma setup_repository_keeps_seed (self : filler) (seed : string) (content : list chunk) :
  In seed ["README.md"; "data.txt"] ->
  maintains (fun w => files w !! joinpath (repo_path self) seed = Some content)
    (setup_repository self).
Proof.
  intros Hseed. unfold setup_repository. cbv zeta.
  repeat lazymatch goal with
         | |- maintains _ (bind _ _) =>
             apply maintains_bind;
             [apply (maintains_preserves files);
              [intros w w' -> Hw; exact Hw | preserves_auto]
             | intros ?]
         end.
  apply create_initial_files_keeps_seed. exact Hseed.
Qed.

(** C8.  On a repository that has a .git directory and for which git
    reports a user.name and a user.email that are not blank,
    [setup_repository] issues no [git config <key> <value>] command, so
    the configuration is not written; and a README.md or data.txt that
    exists keeps its content: it is neither overwritten nor created
    again. *)
Theorem setup_repository_idempotent (self : filler) (w : world)
    (version : proc_result) (name email : string) (rest : list proc_result) :
  procs w = version :: Completed 0 name :: Completed 0 email :: rest ->
  truthy (str_strip name) = true ->
  truthy (str_strip email) = true ->
  joinpath (repo_path self) ".git" ∈ dirs w ->
  (exists evs,
     trace (setup_repository self w).2 = (evs ++ trace w)%list /\
     Forall (fun e => is_config_write e = false) evs) /\
  (forall seed content,
     In seed ["README.md"; "data.txt"] ->
     files w !! joinpath (repo_path self) seed = Some content ->
     files (setup_repository self w).2 !! joinpath (repo_path self) seed = Some content).
Proof.
  intros Hprocs Hname Hemail Hgit. split.
  - destruct (setup_repository_no_config_write self w version name email rest
                Hprocs Hname Hemail Hgit) as (evs & Ht & HF).
    exists evs. split; [exact Ht |].
    eapply Forall_impl; [exact HF |]. intros e He. apply negb_true_iff in He. exact He.
  - intros seed content Hseed Hfile.
    apply (setup_repository_keeps_seed self seed content Hseed w Hfile).
Qed.

End Setup.

Lemma setup_repository_idempotent_witness :
  procs Example.set_up =
    [Completed 0 "git version 2.43.0"; Completed 0 "Ada"; Completed 0 "ada@example.org"] /\
  truthy (Lib.strip "Ada") = true /\
  truthy (Lib.strip "ada@example.org") = true /\
  "/home/ada/repo/.git" ∈ dirs Example.set_up /\
  files (@setup_repository example_lib Example.today Example.set_up).2
    !! "/home/ada/repo/README.md" = Some [ReadmeTitle] /\
  files (@setup_repository example_lib Example.today Example.set_up).2
    !! "/home/ada/repo/data.txt" = Some [DataHeader].
Proof.
  assert (Hgit : "/home/ada/repo/.git" ∈ dirs Example.set_up).
  { change ("/home/ada/repo/.git" ∈ ({[ "/home/ada/repo/.git" ]} : gset string)).
    apply elem_of_singleton. reflexivity. }
  repeat (split; [first [reflexivity | exact Hgit] |]).
  destruct (@setup_repository_idempotent example_lib Example.today Example.set_up
              (Completed 0 "git version 2.43.0") "Ada" "ada@example.org" []
              eq_refl eq_refl eq_refl Hgit) as [_ Hseeds].
  split; apply Hseeds; simpl; auto; reflexivity.
Defined.

(** ** Exit codes *)



Lemma exit_spec_older {A} (r : result A) (newer older : list event) :
  exit_spec r newer ->
  Forall (fun e => calm_event e = true) older ->
  exit_spec r (newer ++ older).
Proof.
  intros Hn Ho. destruct r as [a | [c | | | k |]]; simpl in *;
    try (apply Forall_app; split; assumption).
  destruct Hn as [Hc Hn]. split; [exact Hc |]. apply Exists_app. left. exact Hn.
Qed.

Lemma exit_ok_calm {A} (m : prog A) : safe calm_event not_exit m -> exit_ok m.
Proof.
  intros Hm. eapply emits_weaken; [exact Hm |].
  intros r evs [HF He]. destruct r as [a | [c | | | k |]]; simpl; try exact HF.
  specialize (He _ eq_refl). discriminate.
Qed.

Lemma exit_ok_bind {A B} (m : prog A) (k : A -> prog B) :
  exit_ok m -> (forall a, exit_ok (k a)) -> exit_ok (bind m k).
Proof.
  intros Hm Hk. eapply emits_bind; [exact Hm | |].
  - intros e evs He. destruct e; exact He.
  - intros a evs1 H1. eapply emits_weaken; [apply Hk |].
    intros r evs2 H2. apply exit_spec_older; assumption.
Qed.

Lemma exit_ok_try {A} (m : prog A) (h : exn -> option (prog A)) :
  exit_ok m ->
  (forall c, h (SystemExit c) = None) ->
  (forall e k, h e = Some k -> exit_ok k) ->
  exit_ok (try_except m h).
Proof.
  intros Hm Hexit Hh. eapply emits_try; [exact Hm | auto |].
  intros e evs1 H1. destruct (h e) as [k |] eqn:Hk; [| exact H1].
  eapply emits_weaken; [apply (Hh e k Hk) |].
  intros r evs2 H2. apply exit_spec_older; [exact H2 |].
  destruct e as [c | | | k' |]; try exact H1.
  rewrite Hexit in Hk. discriminate.
Qed.

Lemma exit_ok_fatal {A} (key : string) :
  is_fatal_note (EvPrint (Note key)) = true ->
  exit_ok (print (Note key) ;; @sys_exit A 1).
Proof.
  intros Hkey.
  apply (emits_bind _ _ (fun r evs => r = Ok tt /\ evs = [EvPrint (Note key)])).
  - apply emits_emit. auto.
  - intros e evs [He _]. discriminate.
  - intros _ evs [_ ->]. apply emits_raise. simpl. split; [reflexivity |].
    constructor. exact Hkey.
Qed.

Lemma emits_result {A} (m : prog A) (Q : result A -> list event -> Prop)
    (R : result A -> Prop) :
  (forall w, R (m w).1) -> emits m Q -> emits m (fun r evs => Q r evs /\ R r).
Proof.
  intros HR Hm w. destruct (Hm w) as (evs & Ht & HQ). exists evs. auto.
Qed.

Ltac exit_handler Hh :=
  simpl in Hh; first [discriminate Hh | injection Hh as <-].

Ltac exit_step :=
  first
    [ solve [apply exit_ok_calm; safe_auto]
    | lazymatch goal with
      | |- exit_ok (print (Note _) ;; sys_exit 1) => apply exit_ok_fatal; reflexivity
      | |- exit_ok (bind _ _) => apply exit_ok_bind; [| intros ?]
      | |- exit_ok (try_except _ _) =>
          let e := fresh "e" in let k := fresh "k" in let Hh := fresh "Hh" in
          apply exit_ok_try;
          [| reflexivity
           | intros e k Hh; destruct e as [? | | | [| |] |]; exit_handler Hh ]
      | |- exit_ok (match ?x with _ => _ end) => destruct x
      | |- exit_ok ?m => let f := head_of m in unfold f; cbv zeta
      end ].

Ltac exit_auto := cbv beta zeta; repeat exit_step.

Section ExitCodes.
Context `{PyLib}.

Lemma exit_ok_setup_repository (self : filler) : exit_ok (setup_repository self).
Proof. exit_auto. Qed.

Lemma exit_ok_parse_date (s : string) : exit_ok (parse_date s).
Proof. exit_auto. Qed.

(** The causes of the first two fatal errors. *)
Lemma parse_date_exits (s : string) (w : world) :
  (parse_date s w).1 = Raise (SystemExit 1) <-> strptime_ymd s = None.
Proof.
  unfold parse_date. destruct (strptime_ymd s); simpl; split; (discriminate || reflexivity).
Qed.

Lemma check_git_installed_exits (w : world) :
  (_check_git_installed w).1 = Raise (SystemExit 1) <->
  match hd (Completed 0 "") (procs w) with
  | Completed rc _ => rc <> 0
  | ProcFault f => f = FaultOS FileNotFound
  end.
Proof.
  unfold _check_git_installed, try_except, bind, subprocess_run.
  destruct (hd (Completed 0 "") (procs w)) as [rc out | [[| |] |]]; simpl.
  - destruct (rc =? 0) eqn:Hrc; simpl; split; intros Hx;
      first [discriminate | reflexivity | lia].
  - split; reflexivity.
  - split; discriminate.
  - split; discriminate.
  - split; discriminate.
Qed.

Lemma exit_ok_main_steps (a : args) (self : filler) : exit_ok (main_steps a self).
Proof.
  unfold main_steps.
  apply exit_ok_bind; [exit_auto | intros _].
  apply exit_ok_bind; [apply exit_ok_setup_repository | intros _].
  apply exit_ok_calm. safe_auto.
Qed.

Lemma cleanup_on_error_returns (self : filler) (w : world) :
  (cleanup_on_error self w).1 = Ok tt.
Proof.
  unfold cleanup_on_error, try_except.
  destruct (chdir (original_cwd self) w) as [[[] | e] w1]; reflexivity.
Qed.

Lemma exit_ok_unexpected (filler : option filler) :
  exit_ok (print (Note "unexpected-error") ;;
           match filler with Some f => cleanup_on_error f | None => ret tt end ;;
           @sys_exit unit 1).
Proof.
  apply (emits_bind _ _ (fun r evs => r = Ok tt /\ evs = [EvPrint (Note "unexpected-error")])).
  { apply emits_emit. auto. }
  { intros e evs [He _]. discriminate. }
  intros _ evs1 [_ ->].
  apply (emits_bind _ _ (fun r evs => r = Ok tt)).
  { eapply emits_weaken.
    - apply (emits_result _ (fun _ _ => True) (fun r => r = Ok tt)).
      + intros w. destruct filler; [apply cleanup_on_error_returns | reflexivity].
      + assert (Hs : safe (fun _ => true) any_exn
                  (match filler with Some f => cleanup_on_error f | None => ret tt end))
          by safe_auto.
        eapply emits_weaken; [exact Hs | auto].
    - intros r evs [_ Hr]. exact Hr. }
  { intros e evs He. discriminate. }
  intros _ evs2 _. apply emits_raise. simpl. split; [reflexivity |].
  apply Exists_app. right. constructor. reflexivity.
Qed.

Lemma init_runs (local_path : string) (start : Z) (name email : option string) (w : world) :
  let t := clock w + Z.of_N (hd 0%N (ticks w)) in
  init local_path (Some start) name email w =
    (Ok (Filler (path_resolve (cwd w) local_path) start t (cwd w) name email),
     log (EvNow t) (with_clock t (tl (ticks w)) w)).
Proof. reflexivity. Qed.

Lemma exit_ok_main_try (a : args) (start : Z) : exit_ok (main_try a start).
Proof.
  intros w. unfold main_try. rewrite init_runs.
  set (t := clock w + Z.of_N (hd 0%N (ticks w))).
  set (self := Filler _ _ _ _ _ _). set (w1 := log (EvNow t) _).
  assert (Htry : exit_ok (try_except (main_steps a self) (main_handlers (Some self)))).
  { apply exit_ok_try; [apply exit_ok_main_steps | reflexivity |].
    intros e k Hh. destruct e as [c | | | k' |]; simpl in Hh;
      first [discriminate Hh | injection Hh as <-];
      first [apply (exit_ok_unexpected (Some self)) | apply exit_ok_calm; safe_auto]. }
  destruct (Htry w1) as (evs & Ht & Hspec).
  exists (evs ++ [EvNow t])%list. split.
  - rewrite Ht. rewrite <- app_assoc. reflexivity.
  - apply exit_spec_older; [exact Hspec | repeat constructor].
Qed.

Lemma exit_ok_main (a : args) : exit_ok (main a).
Proof.
  unfold main.
  apply exit_ok_bind; [apply exit_ok_parse_date | intros start].
  apply exit_ok_bind; [exit_auto | intros n].
  apply exit_ok_bind; [exit_auto | intros _].
  destruct (arg_dry_run a); [exit_auto |].
  apply exit_ok_bind; [exit_auto | intros response].
  destruct (negb (affirmative (str_lower response))); [exit_auto |].
  apply exit_ok_main_try.
Qed.

(** How [main_try] ends: normally, or with [sys.exit]. *)
Lemma main_try_result (a : args) (start : Z) (w : world) :
  (main_try a start w).1 = Ok tt \/ exists c, (main_try a start w).1 = Raise (SystemExit c).
Proof.
  unfold main_try. rewrite init_runs.
  set (self := Filler _ _ _ _ _ _). set (w1 := log _ _).
  unfold try_except.
  destruct (main_steps a self w1) as [[[] | e] w2]; [left; reflexivity |].
  destruct e as [c | | | k |]; simpl.
  - right. eauto.
  - left. unfold bind, print, emit. simpl. apply cleanup_on_error_returns.
  - right. exists 1. unfold bind, print, emit. simpl.
    pose proof (cleanup_on_error_returns self (log (EvPrint (Note "unexpected-error")) w2)) as Hc.
    destruct (cleanup_on_error self _) as [r w3]. simpl in Hc. subst r. reflexivity.
  - right. exists 1. unfold bind, print, emit. simpl.
    pose proof (cleanup_on_error_returns self (log (EvPrint (Note "unexpected-error")) w2)) as Hc.
    destruct (cleanup_on_error self _) as [r w3]. simpl in Hc. subst r. reflexivity.
  - right. exists 1. unfold bind, print, emit. simpl.
    pose proof (cleanup_on_error_returns self (log (EvPrint (Note "unexpected-error")) w2)) as Hc.
    destruct (cleanup_on_error self _) as [r w3]. simpl in Hc. subst r. reflexivity.
Qed.

(** [main], one case at a time. *)
Lemma main_run (a : args) (w : world) :
  main a w =
    match strptime_ymd (arg_start_date a) with
    | None => (Raise (SystemExit 1), log (EvPrint (Note "bad-date")) w)
    | Some start =>
        let t := clock w + Z.of_N (hd 0%N (ticks w)) in
        let w1 := log (EvNow t) (with_clock t (tl (ticks w)) w) in
        let w2 := log (EvPrint (Banner (toordinal start) (toordinal t) (arg_intensity a)
                                  (arg_local_path a)
                                  (if truthy_opt (arg_repo_url a) then arg_repo_url a
                                   else None))) w1 in
        if arg_dry_run a then
          let t' := clock w2 + Z.of_N (hd 0%N (ticks w2)) in
          (Ok tt,
           log (EvPrint (DryRunDays (days_between t' start)))
             (log (EvNow t') (with_clock t' (tl (ticks w2))
                                (log (EvPrint (Note "dry-run")) w2))))
        else
          let answer := hd InputEOF (stdin w2) in
          let w3 := log (EvInput "continue" answer) (with_stdin (tl (stdin w2)) w2) in
          match answer with
          | Line response =>
              if negb (affirmative (str_lower response))
              then (Ok tt, log (EvPrint (Note "cancelled")) w3)
              else main_try a start w3
          | InputEOF => (Raise EOFError, w3)
          | InputInterrupt => (Raise KeyboardInterrupt, w3)
          end
    end.
Proof.
  unfold main, parse_date.
  destruct (strptime_ymd (arg_start_date a)) as [start |]; [| reflexivity].
  rewrite (bind_ok _ _ w w start) by reflexivity.
  unfold bind at 1. unfold now at 1. cbv beta iota zeta.
  unfold bind at 1. unfold print at 1, emit at 1. cbv beta iota zeta.
  destruct (arg_dry_run a); [reflexivity |].
  unfold bind at 1. unfold input at 1. cbv beta iota zeta.
  match goal with |- context [hd InputEOF ?l] => destruct (hd InputEOF l) as [response | |] end;
    try reflexivity.
  cbv beta iota zeta.
  destruct (negb (affirmative (str_lower response))); reflexivity.
Qed.

(** How [main] ends: normally, with [sys.exit], or with the exception
    raised by the first prompt, which no handler surrounds. *)
Lemma main_result (a : args) (w : world) :
  (main a w).1 = Ok tt \/
  (exists c, (main a w).1 = Raise (SystemExit c)) \/
  (exists older,
     trace (main a w).2 = ((EvInput "continue" InputEOF :: older) ++ trace w)%list /\
     (main a w).1 = Raise EOFError) \/
  (exists older,
     trace (main a w).2 = ((EvInput "continue" InputInterrupt :: older) ++ trace w)%list /\
     (main a w).1 = Raise KeyboardInterrupt).
Proof.
  rewrite main_run.
  destruct (strptime_ymd (arg_start_date a)) as [start |].
  2: { right. left. exists 1. reflexivity. }
  cbv zeta. destruct (arg_dry_run a); [left; reflexivity |].
  match goal with |- context [hd InputEOF ?l] => destruct (hd InputEOF l) as [response | |] end.
  - destruct (negb (affirmative (str_lower response))); [left; reflexivity |].
    match goal with
    | |- context [main_try a start ?w3] =>
        destruct (main_try_result a start w3) as [Hr | [c Hr]]
    end; [left | right; left; exists c]; exact Hr.
  - right. right. left. eexists [_; _]. split; reflexivity.
  - right. right. right. eexists [_; _]. split; reflexivity.
Qed.

Lemma calm_not_fatal (evs : list event) :
  Forall (fun e => calm_event e = true) evs ->
  ~ Exists (fun e => is_fatal_note e = true) evs.
Proof.
  intros HF HE. apply Exists_exists in HE as (e & Hin & He).
  rewrite Forall_forall in HF. apply HF in Hin.
  unfold calm_event in Hin. rewrite He in Hin. discriminate.
Qed.

End ExitCodes.

(** C9, as stated, fails: the start date parses, git is installed, no
    call to the file system fails (none is made) and no exception reaches
    the last handler of [main]; yet the program exits with code 1,
    because the git identity cannot be configured. *)
Lemma exit_code_counterexample :
  Lib.strptime (arg_start_date Example.run_args) = Some Example.thursday /\
  exit_code (@main example_lib Example.run_args Example.config_locked).1 = Some 1 /\
  trace (@main example_lib Example.run_args Example.config_locked).2 =
    [ EvPrint (Note "git-config-failed");
      EvPrint (Note "git-config-error");
      EvPrint (Note "git-command-error");
      EvRun ["git"; "config"; "user.name"; "Ada"] None (Completed 255 "");
      EvPrint (Note "configuring-git");
      EvRun ["git"; "config"; "user.email"] None (Completed 1 "");
      EvRun ["git"; "config"; "user.name"] None (Completed 1 "");
      EvPrint (Note "existing-repository");
      EvRun ["git"; "--version"] None (Completed 0 "git version 2.43.0");
      EvPrint (Note "setting-up");
      EvNow (Example.thursday + 12 * HOUR);
      EvInput "continue" (Line "y");
      EvPrint (Banner 738889 738889 "low" "." None);
      EvNow (Example.thursday + 12 * HOUR) ].
Proof. repeat split; vm_compute; reflexivity. Qed.

(** A commit that fails is not fatal: the run ends with code 0. *)
Example failed_commit_exits_with_0 :
  exit_code (@main example_lib Example.run_args Example.add_fails).1 = Some 0 /\
  reported_totals (trace (@main example_lib Example.run_args Example.add_fails).2)
    = Some (1, 0).
Proof. split; vm_compute; reflexivity. Qed.

(** An interruption inside the [try] block is caught: the working
    directory is restored and the run ends with code 0. *)
Example interruption_exits_with_0 :
  exit_code (@main example_lib Example.run_args Example.interrupted).1 = Some 0 /\
  hd_error (trace (@main example_lib Example.run_args Example.interrupted).2)
    = Some (EvChdir "/home/ada/repo" None).
Proof. split; vm_compute; reflexivity. Qed.

(** The end of input at the first prompt, before the [try] block, is not
    caught: [EOFError] leaves [main], no fatal error has been announced,
    and the run ends with code 1. *)
Example end_of_input_at_prompt_exits_with_1 :
  (@main example_lib Example.run_args Example.one_commit).1 = Raise EOFError /\
  exit_code (@main example_lib Example.run_args Example.one_commit).1 = Some 1 /\
  count is_fatal_note (trace (@main example_lib Example.run_args Example.one_commit).2) = 0.
Proof. repeat split; vm_compute; reflexivity. Qed.

(** An interruption at the first prompt, before the [try] block, is not
    caught: [KeyboardInterrupt] leaves [main]. *)
Example interruption_at_prompt_is_uncaught :
  (@main example_lib Example.run_args Example.prompt_interrupted).1 = Raise KeyboardInterrupt.
Proof. vm_compute. reflexivity. Qed.

(** * More of the program *)

(** ** The date range and the days *)

Section Validation.
Context `{PyLib}.

(** X1. [validate_dates] accepts a range exactly when the start is
    strictly before the end, the start is not later than the clock read
    by the check, and, if the range is longer than 400 whole days, the
    user answers the prompt with one of the words y, yes, sí, s (in any
    case).  In particular a range of at most 400 days is accepted without
    any prompt. *)
Theorem validate_dates_accepts (self : filler) (w : world) :
  (validate_dates self w).1 = Ok true <->
  start_date self < end_date self /\
  start_date self <= clock w + Z.of_N (hd 0%N (ticks w)) /\
  (days_between (end_date self) (start_date self) > 400 ->
   exists response,
     hd InputEOF (stdin w) = Line response /\ affirmative (str_lower response) = true).
Proof.
  unfold validate_dates.
  destruct (start_date self >=? end_date self) eqn:Hinv.
  { split; [discriminate | intros (Hlt & _); lia]. }
  unfold bind at 1. unfold now. cbv beta iota zeta.
  destruct (start_date self >? clock w + Z.of_N (hd 0%N (ticks w))) eqn:Hfut.
  { split; [discriminate | intros (_ & Hle & _); lia]. }
  destruct (days_between (end_date self) (start_date self) >? 400) eqn:Hlong.
  - unfold bind, print, emit, input. simpl.
    destruct (hd InputEOF (stdin w)) as [response | |] eqn:Hin; simpl.
    + destruct (affirmative (str_lower response)) eqn:Hyes; simpl.
      * split; [intros _ | reflexivity]. repeat (split; [lia |]). eauto.
      * split; [discriminate |]. intros (_ & _ & Hask).
        destruct Hask as (r & Hr & Hy); [lia |]. congruence.
    + split; [discriminate |]. intros (_ & _ & Hask).
      destruct Hask as (r & Hr & Hy); [lia | discriminate].
    + split; [discriminate |]. intros (_ & _ & Hask).
      destruct Hask as (r & Hr & Hy); [lia | discriminate].
  - simpl. split; [intros _ | reflexivity]. repeat (split; [lia |]). lia.
Qed.

(** X2. [validate_dates] asks nothing when the range is at most 400 days
    long: the terminal is left as it was, and so are the files, the
    directories and the spawned processes. *)
Theorem validate_dates_short_range_silent (self : filler) (w : world) :
  days_between (end_date self) (start_date self) <= 400 ->
  stdin (validate_dates self w).2 = stdin w /\
  procs (validate_dates self w).2 = procs w /\
  files (validate_dates self w).2 = files w /\
  dirs (validate_dates self w).2 = dirs w /\
  exists evs,
    trace (validate_dates self w).2 = (evs ++ trace w)%list /\
    Forall (fun e => is_input e = false) evs.
Proof.
  intros Hshort. unfold validate_dates.
  replace (days_between (end_date self) (start_date self) >? 400) with false by lia.
  destruct (start_date self >=? end_date self).
  { repeat (split; [reflexivity |]). eexists [_]. split; [reflexivity | repeat constructor]. }
  unfold bind, now, print, emit, ret. cbv beta iota zeta.
  destruct (start_date self >? clock w + Z.of_N (hd 0%N (ticks w)));
    repeat (split; [reflexivity |]).
  - eexists [_; _]. split; [reflexivity | repeat constructor].
  - eexists [_]. split; [reflexivity | repeat constructor].
Qed.

(** X3. A day that is after the clock read by [should_commit_today] is
    never active, and no random number is drawn for it. *)
Theorem future_day_inactive (date : Z) (w : world) :
  date > clock w + Z.of_N (hd 0%N (ticks w)) ->
  (should_commit_today date w).1 = Ok false /\
  rng (should_commit_today date w).2 = rng w /\
  trace (should_commit_today date w).2 =
    EvNow (clock w + Z.of_N (hd 0%N (ticks w))) :: trace w.
Proof.
  intros Hfuture.
  assert (Hrun : should_commit_today date w =
            (Ok false,
             log (EvNow (clock w + Z.of_N (hd 0%N (ticks w))))
               (with_clock (clock w + Z.of_N (hd 0%N (ticks w))) (tl (ticks w)) w))).
  { unfold should_commit_today. unfold bind at 1. unfold now. cbv beta iota zeta.
    replace (date >? clock w + Z.of_N (hd 0%N (ticks w))) with true by lia.
    reflexivity. }
  rewrite Hrun. repeat split.
Qed.

End Validation.

Lemma validate_dates_short_range_silent_witness :
  days_between (end_date Example.today) (start_date Example.today) <= 400 /\
  stdin (@validate_dates example_lib Example.today Example.one_commit).2
    = stdin Example.one_commit.
Proof.
  split; [vm_compute; discriminate |].
  apply (@validate_dates_short_range_silent example_lib Example.today Example.one_commit).
  vm_compute. discriminate.
Defined.

Lemma future_day_inactive_witness :
  Example.thursday + DAY > clock Example.one_commit + Z.of_N (hd 0%N (ticks Example.one_commit)) /\
  (should_commit_today (Example.thursday + DAY) Example.one_commit).1 = Ok false.
Proof.
  split; [reflexivity |].
  apply (future_day_inactive (Example.thursday + DAY) Example.one_commit). reflexivity.
Defined.

(** ** One commit *)

(** [safe_step] with a tactic for the side conditions on events that
    [reflexivity] does not settle. *)
Ltac safe_step_by side :=
  lazymatch goal with
  | |- safe _ _ (ret _) => apply safe_ret
  | |- safe _ _ (raise _) => apply safe_raise; reflexivity
  | |- safe _ _ (sys_exit _) => apply safe_raise; reflexivity
  | |- safe _ _ (emit _) => apply safe_emit; side
  | |- safe _ _ (print _) => apply safe_emit; side
  | |- safe _ _ (bind _ _) => apply safe_bind; [| intros ?]
  | |- safe _ _ (try_except _ _) =>
      let e := fresh "e" in let k := fresh "k" in
      let He := fresh "He" in let Hh := fresh "Hh" in
      apply safe_try;
      [| intros e k He Hh; destruct e as [? | | | [| |] |]; safe_handler Hh ]
  | |- safe _ _ (for_range _ _ _) => apply safe_for_range; intros ?
  | |- safe _ _ (days_loop _ _ _ _ _ _) => apply safe_days_loop; intros ? ?
  | |- safe _ _ now => apply safe_now; intros; side
  | |- safe _ _ random_random => apply safe_random_random
  | |- safe _ _ (randint _ _) => apply safe_randint
  | |- safe _ _ (choice _ _) => apply safe_choice
  | |- safe _ _ (input _) => apply safe_input; [safe_exn | intros; side]
  | |- safe _ _ (subprocess_run _ _ _) =>
      apply safe_subprocess_run; [safe_exn | intros [? ? | ?]; side]
  | |- safe _ _ (mkdir _) => apply safe_fs_call; [safe_exn | reflexivity | intros; side]
  | |- safe _ _ (chdir _) => apply safe_fs_call; [safe_exn | reflexivity | intros; side]
  | |- safe _ _ (open_w _) => apply safe_fs_call; [safe_exn | reflexivity | intros; side]
  | |- safe _ _ (open_a _) => apply safe_fs_call; [safe_exn | reflexivity | intros; side]
  | |- safe _ _ (write _ _) => apply safe_write; side
  | |- safe _ _ (path_exists _) => apply safe_path_exists
  | |- safe _ _ get_cwd => apply safe_get_cwd
  | |- safe _ _ (match ?x with _ => _ end) => destruct x
  | |- safe _ _ ?m => let f := head_of m in unfold f; cbv zeta
  end.

Ltac safe_auto_by side := cbv beta zeta; repeat (safe_step_by side).

Lemma Forall_bool_false (P : event -> bool) (evs : list event) :
  Forall (fun e => negb (P e) = true) evs -> Forall (fun e => P e = false) evs.
Proof.
  intros HF. eapply Forall_impl; [exact HF |]. intros e He. apply negb_true_iff. exact He.
Qed.

Lemma commit_event_quiet (date_str : Z) (allowed : string -> Prop) (e : event) :
  not_run e = true -> commit_event date_str allowed e.
Proof. destruct e; simpl; auto. discriminate. Qed.

Lemma commit_events_app (date_str : Z) (allowed : string -> Prop) (newer older : list event) :
  Forall (commit_event date_str allowed) newer ->
  Forall (commit_event date_str allowed) older ->
  Forall (commit_event date_str allowed) (newer ++ older).
Proof. intros Hn Ho. apply Forall_app. auto. Qed.

Lemma commit_events_quiet {A} (date_str : Z) (allowed : string -> Prop) (m : prog A) :
  safe not_run any_exn m -> always (Forall (commit_event date_str allowed)) m.
Proof.
  apply always_safe.
  - constructor.
  - apply commit_events_app.
  - intros e He. repeat constructor. apply commit_event_quiet. exact He.
Qed.

Section OneCommit.
Context `{PyLib}.

Lemma git_commit_events (self : filler) (message : string) (date_str : Z)
    (allowed : string -> Prop) :
  allowed message ->
  always (Forall (commit_event date_str allowed))
    (try_except
       (_run_git_command self ["git"; "add"; "."] (Some date_str) true ;;
        _run_git_command self ["git"; "commit"; "-m"; message] (Some date_str) true ;;
        ret true)
       (fun e => match e with
                 | CalledProcessError => Some (print (Note "commit-error") ;; ret false)
                 | _ => None
                 end)).
Proof.
  intros Hmsg.
  assert (Hadd : forall p, commit_event date_str allowed
                             (EvRun ["git"; "add"; "."] (Some date_str) p)).
  { intros p. split; [reflexivity | left; reflexivity]. }
  assert (Hcommit : forall p, commit_event date_str allowed
                                (EvRun ["git"; "commit"; "-m"; message] (Some date_str) p)).
  { intros p. split; [reflexivity | right; eauto]. }
  assert (Hrun : forall command,
            (forall p, commit_event date_str allowed (EvRun command (Some date_str) p)) ->
            always (Forall (commit_event date_str allowed))
              (_run_git_command self command (Some date_str) true)).
  { intros command Hc. eapply emits_weaken; [apply emits_run_git_command |].
    intros r evs (p & _ & [-> | ->]);
      repeat (apply List.Forall_cons; [first [apply Hc | exact I] |]); apply List.Forall_nil. }
  eapply emits_try.
  - apply always_bind; [apply commit_events_app | apply Hrun; exact Hadd | intros _].
    apply always_bind; [apply commit_events_app | apply Hrun; exact Hcommit | intros _].
    apply always_ret. constructor.
  - auto.
  - intros e evs1 HF. destruct e as [c | | | k |]; try exact HF.
    eapply emits_weaken; [apply (commit_events_quiet date_str allowed); safe_auto |].
    intros r evs2 HF2. apply commit_events_app; assumption.
Qed.

(** X4. Every process spawned by [create_commit] is [git add .] or
    [git commit -m message], and runs with GIT_AUTHOR_DATE and
    GIT_COMMITTER_DATE set to the requested time stamp; the message is
    the one given or, when none is given, one of the ten fixed
    messages. *)
Theorem create_commit_commands (self : filler) (date : Z) (message : option string)
    (w : world) :
  exists evs,
    trace (create_commit self date message w).2 = (evs ++ trace w)%list /\
    Forall (commit_event (strftime date) (allowed_message message)) evs.
Proof.
  revert w.
  change (always (Forall (commit_event (strftime date) (allowed_message message)))
            (create_commit self date message)).
  unfold create_commit.
  apply always_bind; [apply commit_events_app | apply commit_events_quiet; safe_auto | intros _].
  apply (emits_bind _ _ (fun r evs => evs = [] /\
                           forall m, r = Ok m -> allowed_message message m)).
  - unfold allowed_message. destruct message as [given |]; simpl.
    + destruct (truthy given).
      * apply emits_ret. split; [reflexivity |]. intros m [= <-]. reflexivity.
      * eapply emits_weaken; [apply emits_choice |].
        intros r evs (x & -> & -> & Hin). split; [reflexivity |].
        intros m [= <-]. apply Hin. discriminate.
    + eapply emits_weaken; [apply emits_choice |].
      intros r evs (x & -> & -> & Hin). split; [reflexivity |].
      intros m [= <-]. apply Hin. discriminate.
  - intros e evs [-> _]. constructor.
  - intros m evs1 [-> Hm]. specialize (Hm m eq_refl). cbv zeta.
    eapply emits_weaken.
    2: { intros r evs HF. rewrite app_nil_r. exact HF. }
    apply always_bind; [apply commit_events_app | apply commit_events_quiet; safe_auto |].
    intros appended. destruct (negb appended).
    + apply always_ret. constructor.
    + apply git_commit_events. exact Hm.
Qed.

(** X5. [create_commit] returns [True] exactly when its [git commit]
    completed with return code 0; it makes at most one commit. *)
Theorem create_commit_true_iff_committed (self : filler) (date : Z)
    (message : option string) (w : world) :
  exists evs,
    trace (create_commit self date message w).2 = (evs ++ trace w)%list /\
    0 <= succeeded evs <= 1 /\
    ((create_commit self date message w).1 = Ok true <-> succeeded evs = 1).
Proof.
  destruct (create_commit_succeeds self date message w) as (evs & Ht & Hs).
  exists evs. split; [exact Ht |]. rewrite Hs.
  destruct (create_commit self date message w).1 as [[|] | e]; simpl;
    (split; [lia |]); split; first [reflexivity | discriminate | lia].
Qed.

(** X6. When data.txt cannot be opened ([IOError]), [create_commit]
    returns [False] without spawning any process, and the files are as
    they were. *)
Theorem create_commit_open_failure (self : filler) (date : Z) (message : option string)
    (w : world) (k : os_error) :
  hd None (io_faults w) = Some (FaultOS k) ->
  (create_commit self date message w).1 = Ok false /\
  files (create_commit self date message w).2 = files w /\
  exists evs,
    trace (create_commit self date message w).2 = (evs ++ trace w)%list /\
    Forall (fun e => is_run e = false) evs.
Proof.
  intros Hfault. unfold create_commit.
  rewrite (bind_ok _ _ w (log (EvCreateCommit date) w) tt) by reflexivity.
  assert (Hmsg : exists msg rest,
             (if truthy_opt message then ret (default "" message) else choice "" messages)
               (log (EvCreateCommit date) w)
             = (Ok msg, with_rng rest (log (EvCreateCommit date) w))).
  { destruct (truthy_opt message).
    - exists (default "" message), (rng w). reflexivity.
    - destruct (choice_runs "" messages (log (EvCreateCommit date) w)) as (x & rest & Hx & _);
        [discriminate | eauto]. }
  destruct Hmsg as (msg & rest & Hmsg). rewrite (bind_ok _ _ _ _ _ Hmsg).
  set (w1 := with_rng rest (log (EvCreateCommit date) w)). cbv zeta.
  set (data_path := joinpath (repo_path self) "data.txt").
  set (w2 := log (EvOpen data_path "a" (Some (FaultOS k)))
               (with_io_faults (tl (io_faults w1)) w1)).
  assert (Hopen : open_a data_path w1 = (Raise (OSError k), w2)).
  { unfold open_a. rewrite fs_call_run. unfold w1 at 1. simpl io_faults.
    rewrite Hfault. reflexivity. }
  match goal with
  | |- context [bind ?blk ?k w1] => set (block := blk) in *; set (cont := k) in *
  end.
  assert (Hblock : block w1 = (Ok false, log (EvPrint (Note "data-append-error")) w2)).
  { unfold block.
    rewrite (try_caught _ _ w1 w2 (OSError k) (print (Note "data-append-error") ;; ret false));
      [reflexivity | apply bind_raise; exact Hopen | reflexivity]. }
  rewrite (bind_ok _ _ _ _ _ Hblock). unfold cont, ret. simpl.
  repeat (split; [reflexivity |]).
  eexists [_; _; _]. split; [reflexivity | repeat constructor].
Qed.

End OneCommit.

(** ** Properties of the world that a program keeps *)

Lemma maintains_try {A} (I : world -> Prop) (m : prog A) (h : exn -> option (prog A)) :
  maintains I m -> (forall e k, h e = Some k -> maintains I k) ->
  maintains I (try_except m h).
Proof.
  intros Hm Hh w Hw. unfold try_except. specialize (Hm w Hw).
  destruct (m w) as [[a | e] w1]; simpl in *; [exact Hm |].
  destruct (h e) as [k |] eqn:Hk; [| exact Hm].
  apply (Hh e k Hk). exact Hm.
Qed.

Lemma maintains_for_range {A} (I : world -> Prop) (n : nat) (body : A -> prog A) (acc : A) :
  (forall a, maintains I (body a)) -> maintains I (for_range n body acc).
Proof.
  intros Hbody. revert acc. induction n as [| n IH]; intros acc; simpl.
  - intros w Hw. exact Hw.
  - apply maintains_bind; auto.
Qed.

Lemma maintains_days_loop `{PyLib} (I : world -> Prop) (fuel : nat) (self : filler)
    (lo hi : Z) (d : Z) (t : tally) :
  (forall d t, maintains I (day_body self lo hi d t)) ->
  maintains I (days_loop fuel self lo hi d t).
Proof.
  intros Hbody. revert d t. induction fuel as [| fuel IH]; intros d t; simpl.
  - destruct (d <=? end_date self); intros w Hw; exact Hw.
  - destruct (d <=? end_date self); [| intros w Hw; exact Hw].
    apply maintains_bind; auto.
Qed.

Lemma maintains_fs_call (I : world -> Prop) (e : option fault -> event)
    (effect : world -> world) :
  (forall ev w, I w -> I (log ev w)) ->
  (forall f w, I w -> I (with_io_faults f w)) ->
  (forall w, I w -> I (effect w)) ->
  maintains I (fs_call e effect).
Proof.
  intros Hlog Hfaults Heff w Hw. rewrite fs_call_run.
  destruct (hd None (io_faults w)); simpl; auto.
Qed.

Ltac maintains_handler Hh :=
  simpl in Hh; first [discriminate Hh | injection Hh as <-].

(** One step of a proof of [maintains]: [quiet] settles the steps that
    leave the file system alone, [touch] those that change it. *)
Ltac maintains_step quiet touch :=
  lazymatch goal with
  | |- maintains _ (bind _ _) => apply maintains_bind; [| intros ?]
  | |- maintains _ (try_except _ _) =>
      let e := fresh "e" in let k := fresh "k" in let Hh := fresh "Hh" in
      apply maintains_try;
      [| intros e k Hh; destruct e as [? | | | [| |] |]; maintains_handler Hh ]
  | |- maintains _ (for_range _ _ _) => apply maintains_for_range; intros ?
  | |- maintains _ (days_loop _ _ _ _ _ _) => apply maintains_days_loop; intros ? ?
  | |- maintains _ (mkdir _) => touch
  | |- maintains _ (chdir _) => touch
  | |- maintains _ (open_w _) => touch
  | |- maintains _ (open_a _) => touch
  | |- maintains _ (write _ _) => touch
  | |- maintains _ (ret _) => quiet
  | |- maintains _ (raise _) => quiet
  | |- maintains _ (sys_exit _) => quiet
  | |- maintains _ (emit _) => quiet
  | |- maintains _ (print _) => quiet
  | |- maintains _ now => quiet
  | |- maintains _ random_random => quiet
  | |- maintains _ (randint _ _) => quiet
  | |- maintains _ (choice _ _) => quiet
  | |- maintains _ (input _) => quiet
  | |- maintains _ (subprocess_run _ _ _) => quiet
  | |- maintains _ (path_exists _) => quiet
  | |- maintains _ get_cwd => quiet
  | |- maintains _ (match ?x with _ => _ end) => destruct x
  | |- maintains _ ?m => let f := head_of m in unfold f; cbv zeta
  end.

Ltac maintains_auto quiet touch := cbv beta zeta; repeat (maintains_step quiet touch).

(** ** The seed files *)

Lemma present_quiet {A} (path : string) (m : prog A) :
  preserves (fun w => (dirs w, files w)) m -> maintains (present path) m.
Proof.
  intros Hm w Hw. specialize (Hm w). injection Hm as Hd Hf.
  unfold present in *. rewrite Hd, Hf. exact Hw.
Qed.

Lemma present_insert (path other : string) (c : list chunk) (w : world) :
  present path w -> present path (with_files (<[ other := c ]> (files w)) w).
Proof.
  unfold present. simpl. intros Hw.
  apply orb_true_iff in Hw as [Hd | Hf]; [rewrite Hd; reflexivity |].
  apply bool_decide_eq_true in Hf. apply orb_true_iff. right.
  apply bool_decide_eq_true. destruct (decide (other = path)) as [-> | Hne].
  - rewrite lookup_insert_eq. eauto.
  - rewrite lookup_insert_ne by exact Hne. exact Hf.
Qed.

Lemma present_written (path : string) (c : list chunk) (w : world) :
  present path (with_files (<[ path := c ]> (files w)) w).
Proof.
  unfold present. simpl. apply orb_true_iff. right.
  apply bool_decide_eq_true. rewrite lookup_insert_eq. eauto.
Qed.

Lemma present_mkdir (path other : string) (w : world) :
  present path w -> present path (with_dirs ({[ other ]} ∪ dirs w) w).
Proof.
  unfold present. simpl. intros Hw.
  apply orb_true_iff in Hw as [Hd | Hf]; [| rewrite Hf; apply orb_true_r].
  apply bool_decide_eq_true in Hd. apply orb_true_iff. left.
  apply bool_decide_eq_true. set_solver.
Qed.

Lemma present_exists (path : string) (w : world) :
  present path w -> path_exists path w = (Ok true, w).
Proof. unfold present, path_exists. intros ->. reflexivity. Qed.

(** What exists keeps existing: the program removes nothing. *)
Ltac present_touch :=
  first
    [ apply maintains_fs_call;
      [ intros ? ? Hw; exact Hw
      | intros ? ? Hw; exact Hw
      | intros ? Hw; first [apply present_insert | apply present_mkdir | idtac]; exact Hw ]
    | intros ? Hw; unfold write; simpl; apply present_insert; exact Hw ].

Ltac present_auto :=
  maintains_auto ltac:(apply present_quiet; preserves_auto) ltac:(present_touch).

(** A block [if not path.exists(): try: open(path, 'w') ... except: exit]
    that ends normally leaves the path in place. *)
Lemma ensured (path : string) (body : prog unit) (h : exn -> option (prog unit))
    (exists_ : bool) (w : world) :
  (exists_ = true -> present path w) ->
  maintains (present path) body ->
  (forall e k w', h e = Some k -> (k w').1 <> Ok tt) ->
  ((if negb exists_ then try_except (open_w path ;; body) h else ret tt) w).1 = Ok tt ->
  present path ((if negb exists_ then try_except (open_w path ;; body) h else ret tt) w).2.
Proof.
  intros Hex Hbody Hh. destruct exists_; simpl; [auto |].
  unfold try_except, bind, open_w. rewrite fs_call_run.
  destruct (hd None (io_faults w)) as [f |].
  - destruct (h (exn_of_fault f)) as [k |] eqn:Hk; simpl; [| discriminate].
    intros Hok. exfalso. eapply Hh; eauto.
  - match goal with
    | |- context [body ?w1] =>
        assert (Hw1 : present path w1) by apply present_written;
        pose proof (Hbody w1 Hw1) as Hw2;
        destruct (body w1) as [[[] | e] w2]
    end; simpl in *; [auto |].
    destruct (h e) as [k |] eqn:Hk; simpl; [| discriminate].
    intros Hok. exfalso. eapply Hh; eauto.
Qed.

Section SeedFiles.
Context `{PyLib}.

Lemma create_initial_files_skips (self : filler) (w : world) :
  present (joinpath (repo_path self) "README.md") w ->
  present (joinpath (repo_path self) "data.txt") w ->
  _create_initial_files self w = (Ok tt, w).
Proof.
  intros Hreadme Hdata. unfold _create_initial_files. cbv zeta.
  rewrite (bind_ok _ _ _ _ _ (present_exists _ _ Hreadme)). simpl negb. cbv iota.
  rewrite (bind_ok _ _ w w tt) by reflexivity.
  rewrite (bind_ok _ _ _ _ _ (present_exists _ _ Hdata)). reflexivity.
Qed.

(** X7. When [_create_initial_files] ends normally, README.md and
    data.txt both exist, and running it again does nothing at all: no
    file is opened, nothing is written or printed, the clock is not
    read. *)
Theorem create_initial_files_idempotent (self : filler) (w : world) :
  (_create_initial_files self w).1 = Ok tt ->
  present (joinpath (repo_path self) "README.md") (_create_initial_files self w).2 /\
  present (joinpath (repo_path self) "data.txt") (_create_initial_files self w).2 /\
  _create_initial_files self (_create_initial_files self w).2 =
    (Ok tt, (_create_initial_files self w).2).
Proof.
  intros Hok.
  assert (Hboth : present (joinpath (repo_path self) "README.md")
                    (_create_initial_files self w).2 /\
                  present (joinpath (repo_path self) "data.txt")
                    (_create_initial_files self w).2).
  { revert Hok. unfold _create_initial_files. cbv zeta.
    set (readme := joinpath (repo_path self) "README.md").
    set (data := joinpath (repo_path self) "data.txt").
    rewrite (bind_ok (path_exists readme) _ w w _ eq_refl).
    match goal with
    | |- context [bind ?blk ?k w] => set (block1 := blk); set (rest := k)
    end.
    assert (Hexits : forall (note : string) (e : exn) (k : prog unit) (w' : world),
              (if is_OSError e then Some (print (Note note) ;; sys_exit 1) else None) = Some k ->
              (k w').1 <> Ok tt).
    { intros note e k w' Hh. destruct (is_OSError e); [| discriminate Hh].
      injection Hh as <-. discriminate. }
    assert (Hreadme : (block1 w).1 = Ok tt -> present readme (block1 w).2).
    { unfold block1. apply ensured; [auto | present_auto | apply Hexits]. }
    destruct (block1 w) as [[[] | e] w1] eqn:Hblock1; simpl in Hreadme.
    2: { rewrite (bind_raise _ _ _ _ _ Hblock1). discriminate. }
    specialize (Hreadme eq_refl).
    rewrite (bind_ok _ _ _ _ _ Hblock1). unfold rest.
    rewrite (bind_ok (path_exists data) _ w1 w1 _ eq_refl).
    match goal with
    | |- context [?blk w1] => set (block2 := blk)
    end.
    intros Hok. split.
    - assert (Hkeep : maintains (present readme) block2)
        by (unfold block2; present_auto).
      apply Hkeep. exact Hreadme.
    - unfold block2 in *. revert Hok. apply ensured; [auto | present_auto | apply Hexits]. }
  destruct Hboth as [Hreadme Hdata].
  split; [exact Hreadme |]. split; [exact Hdata |].
  apply create_initial_files_skips; assumption.
Qed.

End SeedFiles.

(** ** Setting up the repository *)

Lemma try_bind_ok {A B} (m : prog A) (k : A -> prog B) (h : exn -> option (prog B))
    (w w1 : world) (a : A) :
  m w = (Ok a, w1) -> try_except (bind m k) h w = try_except (k a) h w1.
Proof. intros Hm. unfold try_except, bind. rewrite Hm. reflexivity. Qed.

Lemma try_bind_raise {A B} (m : prog A) (k : A -> prog B) (h : exn -> option (prog B))
    (w w1 : world) (e : exn) :
  m w = (Raise e, w1) ->
  try_except (bind m k) h w = match h e with Some k' => k' w1 | None => (Raise e, w1) end.
Proof. intros Hm. unfold try_except, bind. rewrite Hm. reflexivity. Qed.

(** A program adds events to the trace, whatever it does. *)
Lemma emits_at_any {A} (P : event -> bool) (m : prog A) (w : world) :
  safe P any_exn m -> exists evs, trace (m w).2 = (evs ++ trace w)%list /\
                                  Forall (fun e => P e = true) evs.
Proof. intros Hm. destruct (Hm w) as (evs & Ht & HF & _). eauto. Qed.

Section Identity.
Context `{PyLib}.

(** With [check=False] a command that completes never raises. *)
Lemma run_git_command_unchecked (self : filler) (command : list string) (w : world) :
  _run_git_command self command None false w =
    let r := hd (Completed 0 "") (procs w) in
    let w1 := log (EvRun command None r) (with_procs (tl (procs w)) w) in
    match r with
    | Completed rc out => (Ok {| returncode := rc; stdout := out |}, w1)
    | ProcFault f => (Raise (exn_of_fault f), w1)
    end.
Proof.
  unfold _run_git_command, try_except, subprocess_run. cbv zeta.
  destruct (hd (Completed 0 "") (procs w)) as [rc out | [k |]]; reflexivity.
Qed.

(** X8. [_setup_git_config] never overwrites a name that git reports:
    when the first query, [git config user.name], completes with code 0
    and an output that is not blank, no [git config user.name <value>]
    is run, whether or not the email is configured. *)
Theorem configured_name_kept (self : filler) (w : world) (name : string) :
  hd (Completed 0 "") (procs w) = Completed 0 name ->
  truthy (str_strip name) = true ->
  exists evs,
    trace (_setup_git_config self w).2 = (evs ++ trace w)%list /\
    Forall (fun e => is_config_write_of "user.name" e = false) evs.
Proof.
  intros Hread Hname. unfold _setup_git_config.
  erewrite try_bind_ok by (rewrite run_git_command_unchecked, Hread; reflexivity).
  cbv beta. cbn [returncode stdout]. rewrite Hname. cbn [Z.eqb andb negb].
  match goal with
  | |- context [try_except ?body ?h ?w1] =>
      destruct (emits_at_any (fun e => negb (is_config_write_of "user.name" e))
                  (try_except body h) w1 ltac:(safe_auto)) as (evs & Ht & HF)
  end.
  exists (evs ++ [EvRun ["git"; "config"; "user.name"] None (Completed 0 name)])%list.
  split.
  - rewrite Ht, <- app_assoc. reflexivity.
  - apply Forall_app. split; [apply Forall_bool_false; exact HF | repeat constructor].
Qed.

(** X9. [_setup_git_config] never overwrites an email that git reports:
    when the second query, [git config user.email], completes with code
    0 and an output that is not blank, no
    [git config user.email <value>] is run, whether or not the name is
    configured. *)
Theorem configured_email_kept (self : filler) (w : world) (email : string) :
  hd (Completed 0 "") (tl (procs w)) = Completed 0 email ->
  truthy (str_strip email) = true ->
  exists evs,
    trace (_setup_git_config self w).2 = (evs ++ trace w)%list /\
    Forall (fun e => is_config_write_of "user.email" e = false) evs.
Proof.
  intros Hread Hemail. unfold _setup_git_config.
  destruct (hd (Completed 0 "") (procs w)) as [rc out | f] eqn:Hfirst.
  - erewrite try_bind_ok by (rewrite run_git_command_unchecked, Hfirst; reflexivity).
    cbv beta.
    erewrite try_bind_ok
      by (rewrite run_git_command_unchecked; simpl procs; rewrite Hread; reflexivity).
    cbv beta. cbn [returncode stdout]. rewrite Hemail. cbn [Z.eqb andb negb].
    rewrite !andb_true_r.
    match goal with
    | |- context [try_except ?body ?h ?w1] =>
        destruct (emits_at_any (fun e => negb (is_config_write_of "user.email" e))
                    (try_except body h) w1 ltac:(safe_auto)) as (evs & Ht & HF)
    end.
    exists (evs ++ [EvRun ["git"; "config"; "user.email"] None (Completed 0 email);
                    EvRun ["git"; "config"; "user.name"] None (Completed rc out)])%list.
    split.
    + rewrite Ht, <- app_assoc. reflexivity.
    + apply Forall_app. split; [apply Forall_bool_false; exact HF | repeat constructor].
  - erewrite try_bind_raise by (rewrite run_git_command_unchecked, Hfirst; reflexivity).
    destruct f as [k |]; simpl.
    + eexists [_; _]. split; [reflexivity | repeat constructor].
    + eexists [_]. split; [reflexivity | repeat constructor].
Qed.

End Identity.

(** A program whose parts are safe and whose last step returns a value
    of which [R] holds. *)
Lemma safe_result_bind {A B} (P : event -> bool) (E : exn -> bool) (R : B -> Prop)
    (m : prog A) (k : A -> prog B) :
  safe P E m ->
  (forall a, emits (k a) (fun r evs => Forall (fun e => P e = true) evs /\
                                      (forall e, r = Raise e -> E e = true) /\
                                      (forall b, r = Ok b -> R b))) ->
  emits (bind m k) (fun r evs => Forall (fun e => P e = true) evs /\
                                 (forall e, r = Raise e -> E e = true) /\
                                 (forall b, r = Ok b -> R b)).
Proof.
  intros Hm Hk. eapply emits_bind; [exact Hm | |].
  - intros e evs [HF He]. split; [exact HF |]. split; [| discriminate].
    intros e' [= <-]. apply He. reflexivity.
  - intros a evs1 [HF1 _]. eapply emits_weaken; [apply Hk |].
    intros r evs2 (HF2 & He & Hr). split; [apply Forall_app; auto | auto].
Qed.

Lemma safe_result_ret {B} (P : event -> bool) (E : exn -> bool) (R : B -> Prop) (b : B) :
  R b ->
  emits (ret b) (fun r evs => Forall (fun e => P e = true) evs /\
                              (forall e, r = Raise e -> E e = true) /\
                              (forall b, r = Ok b -> R b)).
Proof.
  intros Hb. apply emits_ret. split; [constructor |]. split; [discriminate |].
  intros b' [= <-]. exact Hb.
Qed.

Section SetupSteps.
Context `{PyLib}.

(** X10. [_setup_git_config] lets no exception out but
    [KeyboardInterrupt]: every failure of git or of the prompt is
    reported by the message of the handler and turned into the answer
    [False]; and [False] is returned in that case only. *)
Theorem setup_git_config_outcome (self : filler) (w : world) :
  exists evs,
    trace (_setup_git_config self w).2 = (evs ++ trace w)%list /\
    (forall e, (_setup_git_config self w).1 = Raise e -> e = KeyboardInterrupt) /\
    ((_setup_git_config self w).1 = Ok false <->
     In (EvPrint (Note "git-config-error")) evs).
Proof.
  revert w.
  change (emits (_setup_git_config self)
            (fun r evs => (forall e, r = Raise e -> e = KeyboardInterrupt) /\
                          (r = Ok false <-> In (EvPrint (Note "git-config-error")) evs))).
  unfold _setup_git_config.
  assert (Hnote : forall evs,
            Forall (fun e => not_note "git-config-error" e = true) evs ->
            ~ In (EvPrint (Note "git-config-error")) evs).
  { intros evs HF Hin. rewrite Forall_forall in HF. apply list_elem_of_In in Hin.
    apply HF in Hin. discriminate. }
  eapply emits_try.
  - apply (safe_result_bind (not_note "git-config-error") not_exit (fun b => b = true));
      [safe_auto | intros name_result].
    apply safe_result_bind; [safe_auto | intros email_result]. cbv zeta.
    destruct (_ && _).
    + apply safe_result_bind; [safe_auto | intros _]. apply safe_result_ret. reflexivity.
    + apply safe_result_bind; [safe_auto | intros _].
      apply safe_result_bind; [safe_auto | intros _].
      apply safe_result_bind; [safe_auto | intros _]. apply safe_result_ret. reflexivity.
  - intros b evs (HF & _ & Hb). split; [discriminate |].
    rewrite (Hb b eq_refl). split; [discriminate |].
    intros Hin. exfalso. exact (Hnote evs HF Hin).
  - intros e evs1 (HF & He & _). specialize (He e eq_refl).
    destruct e as [c | | | k |]; simpl; try discriminate He.
    + split; [intros e [= <-]; reflexivity |]. split; [discriminate |].
      intros Hin. exfalso. exact (Hnote evs1 HF Hin).
    + eexists [_]. split; [reflexivity |]. split; [discriminate |].
      split; [intros _; left; reflexivity | reflexivity].
    + eexists [_]. split; [reflexivity |]. split; [discriminate |].
      split; [intros _; left; reflexivity | reflexivity].
    + eexists [_]. split; [reflexivity |]. split; [discriminate |].
      split; [intros _; left; reflexivity | reflexivity].
Qed.

(** X11. When both --author-name and --author-email are given,
    [setup_repository] is not interactive: it never prompts. *)
Theorem supplied_identity_no_prompt (self : filler) (w : world) :
  truthy_opt (author_name self) = true ->
  truthy_opt (author_email self) = true ->
  exists evs,
    trace (setup_repository self w).2 = (evs ++ trace w)%list /\
    Forall (fun e => is_input e = false) evs.
Proof.
  intros Hname Hemail.
  assert (Hs : safe not_input any_exn (setup_repository self)).
  { unfold setup_repository, _setup_git_config, or_input. rewrite Hname, Hemail. safe_auto. }
  destruct (Hs w) as (evs & Ht & HF & _).
  exists evs. split; [exact Ht | apply Forall_bool_false; exact HF].
Qed.

(** X12. A repository that has a .git is used as it is:
    [setup_repository] runs neither [git init] nor [git checkout]. *)
Theorem existing_repository_not_initialised (self : filler) (w : world) :
  present (joinpath (repo_path self) ".git") w ->
  exists evs,
    trace (setup_repository self w).2 = (evs ++ trace w)%list /\
    Forall (fun e => is_init e = false) evs.
Proof.
  intros Hgit.
  enough (Hat : emits_at (setup_repository self) w
                  (fun _ _ evs => Forall (fun e => not_init e = true) evs)).
  { destruct Hat as (evs & Ht & HF). exists evs. split; [exact Ht |].
    apply Forall_bool_false. exact HF. }
  unfold setup_repository.
  eapply emits_at_bind.
  { apply (emits_at_safe not_init any_exn (fun _ => tt)
             (present (joinpath (repo_path self) ".git")));
      [safe_auto | intros ?; reflexivity | | exact Hgit].
    change (maintains (present (joinpath (repo_path self) ".git")) _check_git_installed).
    present_auto. }
  { intros e w1 evs (HF & _). exact HF. }
  intros [] w1 evs1 (HF1 & _ & Hgit1).
  apply (emits_at_bind _ _ _ (fun r w2 evs => w2 = w1 /\ evs = [])).
  { exists []. split; [reflexivity | split; reflexivity]. }
  { intros e w2 evs [-> ->]. all_events. }
  intros c w2 evs2 [-> ->].
  eapply emits_at_bind.
  { apply (emits_at_safe not_init any_exn (fun _ => tt)
             (present (joinpath (repo_path self) ".git")));
      [safe_auto | intros ?; reflexivity | | exact Hgit1].
    match goal with
    | |- forall w, _ -> present _ (?m w).2 =>
        change (maintains (present (joinpath (repo_path self) ".git")) m)
    end.
    present_auto. }
  { intros e w3 evs (HF3 & _). all_events. }
  intros [] w3 evs3 (HF3 & _ & Hgit3). cbv zeta.
  apply (emits_at_bind _ _ _ (fun r w4 evs => r = Ok true /\ w4 = w3 /\ evs = [])).
  { exists []. split; [reflexivity |]. rewrite (present_exists _ _ Hgit3). auto. }
  { intros e w4 evs (He & _). discriminate. }
  intros git_dir_exists w4 evs4 (Hex & -> & ->). inversion Hex; subst git_dir_exists.
  simpl negb. cbv iota.
  match goal with
  | |- emits_at ?m w3 _ =>
      destruct (emits_at_any not_init m w3 ltac:(safe_auto)) as (evs5 & Ht5 & HF5)
  end.
  exists evs5. split; [exact Ht5 |]. all_events.
Qed.

(** X13. When the repository is the working directory, no directory is
    created: [setup_repository] does not call [mkdir]. *)
Theorem no_mkdir_in_working_directory (self : filler) (w : world) :
  repo_path self = cwd w ->
  exists evs,
    trace (setup_repository self w).2 = (evs ++ trace w)%list /\
    Forall (fun e => is_mkdir e = false) evs.
Proof.
  intros Hcwd.
  enough (Hat : emits_at (setup_repository self) w
                  (fun _ _ evs => Forall (fun e => not_mkdir e = true) evs)).
  { destruct Hat as (evs & Ht & HF). exists evs. split; [exact Ht |].
    apply Forall_bool_false. exact HF. }
  unfold setup_repository.
  eapply emits_at_bind.
  { apply (emits_at_safe not_mkdir any_exn cwd (fun _ => True));
      [safe_auto | preserves_auto | auto | exact I]. }
  { intros e w1 evs (HF & _). exact HF. }
  intros [] w1 evs1 (HF1 & Hcwd1 & _).
  apply (emits_at_bind _ _ _ (fun r w2 evs => r = Ok (cwd w) /\ w2 = w1 /\ evs = [])).
  { exists []. split; [reflexivity |]. unfold get_cwd. simpl. rewrite Hcwd1. auto. }
  { intros e w2 evs (He & _). discriminate. }
  intros c w2 evs2 (Hc & -> & ->). inversion Hc; subst c.
  rewrite Hcwd, String.eqb_refl. simpl negb. cbv iota.
  match goal with
  | |- emits_at ?m w1 _ =>
      destruct (emits_at_any not_mkdir m w1 ltac:(safe_auto)) as (evs3 & Ht3 & HF3)
  end.
  exists evs3. split; [exact Ht3 |]. all_events.
Qed.

End SetupSteps.

(** ** Consent *)

Lemma always_try {A} (Q : list event -> Prop) (m : prog A) (h : exn -> option (prog A)) :
  (forall newer older, Q newer -> Q older -> Q (newer ++ older)%list) ->
  always Q m -> (forall e k, h e = Some k -> always Q k) -> always Q (try_except m h).
Proof.
  intros Q_app Hm Hh. eapply emits_try; [exact Hm | auto |].
  intros e evs1 H1. destruct (h e) as [k |] eqn:Hk; [| exact H1].
  eapply emits_weaken; [apply (Hh e k Hk) |]. simpl. auto.
Qed.

(** Every program of the script extends the trace. *)
Lemma emits_anything {A} (m : prog A) :
  safe (fun _ => true) any_exn m -> emits m (fun _ _ => True).
Proof. intros Hm. eapply emits_weaken; [exact Hm | auto]. Qed.

Section Consented.
Context `{PyLib}.
Variables (P : event -> bool) (prompt : string).

Lemma consented_older (newer older : list event) :
  consented prompt older -> consented prompt (newer ++ older).
Proof. intros (r & Hin & Hyes). exists r. split; [apply in_app_iff; auto | exact Hyes]. Qed.

Lemma consented_newer (newer older : list event) :
  consented prompt newer -> consented prompt (newer ++ older).
Proof. intros (r & Hin & Hyes). exists r. split; [apply in_app_iff; auto | exact Hyes]. Qed.

Lemma guarded_nil : guarded P prompt [].
Proof. intros newer e older Heq. destruct newer; discriminate. Qed.

Lemma guarded_app (newer older : list event) :
  guarded P prompt newer -> guarded P prompt older -> guarded P prompt (newer ++ older).
Proof.
  intros Hn Ho. induction newer as [| x newer IH]; [exact Ho |].
  intros n e o Heq He. destruct n as [| y n]; simpl in Heq; injection Heq as Hx Heq.
  - subst x o. apply consented_newer. apply (Hn [] e newer); [reflexivity | exact He].
  - subst y. apply (IH (fun n' e' o' Heq' => Hn (x :: n') e' o' (f_equal (cons x) Heq'))
                      n e o Heq He).
Qed.

Lemma guarded_quiet (evs : list event) :
  Forall (fun e => negb (P e) = true) evs -> guarded P prompt evs.
Proof.
  intros HF newer e older -> He. apply Forall_app in HF as [_ HF].
  inversion HF as [| ? ? Hne _]; subst. rewrite He in Hne. discriminate.
Qed.

Lemma guarded_safe {A} (m : prog A) :
  safe (fun e => negb (P e)) any_exn m -> always (guarded P prompt) m.
Proof.
  intros Hm. eapply emits_weaken; [exact Hm |].
  intros r evs [HF _]. apply guarded_quiet. exact HF.
Qed.

(** After an affirmative answer everything is allowed. *)
Lemma guarded_after (newer older : list event) :
  consented prompt older -> guarded P prompt older -> guarded P prompt (newer ++ older).
Proof.
  intros Hyes Ho. induction newer as [| x newer IH]; [exact Ho |].
  intros n e o Heq He. destruct n as [| y n]; simpl in Heq; injection Heq as Hx Heq.
  - subst x o. apply consented_older. exact Hyes.
  - apply (IH n e o Heq He).
Qed.

(** [response = input(prompt).lower()] followed by a test of the
    response: what follows a response that is not affirmative is
    quiet. *)
Lemma guarded_prompt {A} (k : string -> prog A) :
  (forall i, P (EvInput prompt i) = false) ->
  (forall response, affirmative (str_lower response) = false ->
                    safe (fun e => negb (P e)) any_exn (k response)) ->
  (forall response, emits (k response) (fun _ _ => True)) ->
  always (guarded P prompt) (bind (input prompt) k).
Proof.
  intros Hinput Hno Hany. eapply emits_bind; [apply emits_input | |].
  - intros e evs (i & _ & ->). apply guarded_quiet. repeat constructor.
    rewrite Hinput. reflexivity.
  - intros response evs1 (i & Hi & ->).
    destruct i as [s | |]; simpl in Hi; try discriminate. injection Hi as <-.
    destruct (affirmative (str_lower response)) eqn:Hyes.
    + eapply emits_weaken; [apply Hany |]. intros r evs2 _.
      apply guarded_after.
      * exists response. split; [left; reflexivity | exact Hyes].
      * apply guarded_quiet. repeat constructor. rewrite Hinput. reflexivity.
    + eapply emits_weaken; [apply (Hno response Hyes) |]. intros r evs2 [HF _].
      apply guarded_app; apply guarded_quiet; [exact HF |].
      repeat constructor. rewrite Hinput. reflexivity.
Qed.

End Consented.

Section Remote.
Context `{PyLib}.

(** X14. [setup_remote_repository] changes the URL of an existing remote
    only after the user has agreed: every [git remote set-url] comes
    after an affirmative answer to the prompt. *)
Theorem set_url_needs_consent (self : filler) (repo_url : string) (w : world) :
  exists evs,
    trace (setup_remote_repository self repo_url w).2 = (evs ++ trace w)%list /\
    guarded is_set_url "update" evs.
Proof.
  revert w.
  change (always (guarded is_set_url "update") (setup_remote_repository self repo_url)).
  unfold setup_remote_repository.
  destruct (negb (truthy repo_url)); [apply guarded_safe; safe_auto |].
  apply always_bind; [apply guarded_app | apply guarded_safe; safe_auto | intros _].
  apply always_try; [apply guarded_app | |].
  - apply always_bind; [apply guarded_app | apply guarded_safe; safe_auto | intros result].
    destruct (returncode result =? 0); [| apply guarded_safe; safe_auto].
    destruct (String.eqb _ repo_url); [apply guarded_safe; safe_auto |].
    apply always_bind; [apply guarded_app | apply guarded_safe; safe_auto | intros _].
    apply guarded_prompt.
    + reflexivity.
    + intros response Hno. rewrite Hno. safe_auto.
    + intros response. apply emits_anything. safe_auto.
  - intros e k Hh. destruct e as [c | | | k' |]; simpl in Hh;
      first [discriminate Hh | injection Hh as <-].
    apply guarded_safe. safe_auto.
Qed.

(** X15. [push_to_github] overwrites the remote only after the user has
    agreed: every [git push --force] comes after an affirmative answer
    to the prompt. *)
Theorem force_push_needs_consent (self : filler) (w : world) :
  exists evs,
    trace (push_to_github self w).2 = (evs ++ trace w)%list /\
    guarded is_force_push "force" evs.
Proof.
  revert w.
  change (always (guarded is_force_push "force") (push_to_github self)).
  unfold push_to_github.
  apply always_try; [apply guarded_app | |].
  - apply always_bind; [apply guarded_app | apply guarded_safe; safe_auto | intros _].
    apply always_bind; [apply guarded_app | apply guarded_safe; safe_auto | intros result].
    destruct (negb _); [apply guarded_safe; safe_auto |].
    apply always_bind; [apply guarded_app | apply guarded_safe; safe_auto | intros _].
    apply always_try; [apply guarded_app | apply guarded_safe; safe_auto |].
    intros e k Hh. destruct e as [c | | | k' |]; simpl in Hh;
      first [discriminate Hh | injection Hh as <-].
    apply always_bind; [apply guarded_app | apply guarded_safe; safe_auto | intros _].
    apply guarded_prompt.
    + reflexivity.
    + intros response Hno. rewrite Hno. safe_auto.
    + intros response. apply emits_anything. safe_auto.
  - intros e k Hh. destruct e as [c | | | k' |]; simpl in Hh;
      first [discriminate Hh | injection Hh as <-].
    apply guarded_safe. safe_auto.
Qed.

End Remote.

(** ** The whole program *)

Lemma always_all_safe {A} (P : event -> bool) (m : prog A) :
  safe P any_exn m -> always (Forall (fun e => P e = true)) m.
Proof. intros Hm. eapply emits_weaken; [exact Hm |]. intros r evs [HF _]. exact HF. Qed.

Section WholeProgram.
Context `{PyLib}.

Lemma always_main_try (Q : list event -> Prop) (a : args) (start : Z) :
  (forall newer older, Q newer -> Q older -> Q (newer ++ older)%list) ->
  (forall t, Q [EvNow t]) ->
  (forall self, always Q (main_steps a self)) ->
  (forall self e k, main_handlers (Some self) e = Some k -> always Q k) ->
  always Q (main_try a start).
Proof.
  intros Q_app Hnow Hsteps Hhandlers w. unfold main_try. rewrite init_runs.
  set (t := clock w + Z.of_N (hd 0%N (ticks w))).
  set (self := Filler _ _ _ _ _ _). set (w1 := log (EvNow t) _).
  destruct (always_try Q (main_steps a self) (main_handlers (Some self)) Q_app
              (Hsteps self) (Hhandlers self) w1) as (evs & Ht & HQ).
  exists (evs ++ [EvNow t])%list. split.
  - rewrite Ht, <- app_assoc. reflexivity.
  - apply Q_app; auto.
Qed.

Lemma main_handlers_safe (P : event -> bool) (self : filler) (e : exn) (k : prog unit) :
  (forall key, P (EvPrint (Note key)) = true) ->
  (forall path f, P (EvChdir path f) = true) ->
  main_handlers (Some self) e = Some k -> safe P any_exn k.
Proof.
  intros Hprint Hchdir Hh.
  destruct e as [c | | | k' |]; simpl in Hh;
    first [discriminate Hh | injection Hh as <-];
    safe_auto_by ltac:(first [reflexivity | apply Hprint | apply Hchdir]).
Qed.

(** X16. [main] pushes only when asked to: every [git push] comes after
    an affirmative answer to the question whether to upload the commits
    now. *)
Theorem push_needs_consent (a : args) (w : world) :
  exists evs,
    trace (main a w).2 = (evs ++ trace w)%list /\
    guarded is_push "push" evs.
Proof.
  revert w. change (always (guarded is_push "push") (main a)).
  unfold main.
  apply always_bind; [apply guarded_app | apply guarded_safe; safe_auto | intros start].
  apply always_bind; [apply guarded_app | apply guarded_safe; safe_auto | intros n].
  apply always_bind; [apply guarded_app | apply guarded_safe; safe_auto | intros _].
  destruct (arg_dry_run a); [apply guarded_safe; safe_auto |].
  apply always_bind; [apply guarded_app | apply guarded_safe; safe_auto | intros response].
  destruct (negb _); [apply guarded_safe; safe_auto |].
  apply always_main_try.
  - apply guarded_app.
  - intros t. apply guarded_quiet. repeat constructor.
  - intros self. unfold main_steps.
    apply always_bind; [apply guarded_app | apply guarded_safe; safe_auto | intros _].
    apply always_bind; [apply guarded_app | apply guarded_safe; safe_auto | intros _].
    apply always_bind; [apply guarded_app | apply guarded_safe; safe_auto | intros _].
    apply always_bind; [apply guarded_app | apply guarded_safe; safe_auto | intros success].
    destruct (negb success); [apply guarded_safe; safe_auto |].
    destruct (truthy_opt (arg_repo_url a)); [| apply guarded_safe; safe_auto].
    apply always_bind; [apply guarded_app | apply guarded_safe; safe_auto | intros _].
    apply always_bind; [apply guarded_app | apply guarded_safe; safe_auto | intros remote_ok].
    destruct remote_ok; [| apply guarded_safe; safe_auto].
    apply guarded_prompt.
    + reflexivity.
    + intros answer Hno. rewrite Hno. safe_auto.
    + intros answer. apply emits_anything. safe_auto.
  - intros self e k Hh. apply guarded_safe.
    apply (main_handlers_safe _ self e k); [reflexivity | reflexivity | exact Hh].
Qed.

(** X17. Before the user has confirmed, [main] only reads the clock,
    prints and prompts: every git command, every [mkdir], [open], write
    and [chdir], and every call of [create_commit] comes after an
    affirmative answer to the first prompt. *)
Theorem main_needs_confirmation (a : args) (w : world) :
  exists evs,
    trace (main a w).2 = (evs ++ trace w)%list /\
    guarded is_action "continue" evs.
Proof.
  revert w. change (always (guarded is_action "continue") (main a)).
  unfold main.
  apply always_bind; [apply guarded_app | apply guarded_safe; safe_auto | intros start].
  apply always_bind; [apply guarded_app | apply guarded_safe; safe_auto | intros n].
  apply always_bind; [apply guarded_app | apply guarded_safe; safe_auto | intros _].
  destruct (arg_dry_run a); [apply guarded_safe; safe_auto |].
  apply guarded_prompt.
  - reflexivity.
  - intros response Hno. rewrite Hno. simpl negb. cbv iota. safe_auto.
  - intros response. destruct (negb _); [apply emits_anything; safe_auto |].
    eapply emits_weaken; [apply exit_ok_main_try | auto].
Qed.

(** X18. Without a repository URL, [main] never touches a remote: it
    runs no [git remote] and no [git push] command. *)
Theorem no_remote_without_url (a : args) (w : world) :
  truthy_opt (arg_repo_url a) = false ->
  exists evs,
    trace (main a w).2 = (evs ++ trace w)%list /\
    Forall (fun e => is_remote_or_push e = false) evs.
Proof.
  intros Hurl.
  enough (Hall : always (Forall (fun e => not_remote_or_push e = true)) (main a)).
  { destruct (Hall w) as (evs & Ht & HF). exists evs. split; [exact Ht |].
    apply Forall_bool_false. exact HF. }
  assert (Happ : forall newer older : list event,
            Forall (fun e => not_remote_or_push e = true) newer ->
            Forall (fun e => not_remote_or_push e = true) older ->
            Forall (fun e => not_remote_or_push e = true) (newer ++ older)).
  { intros newer older Hn Ho. apply Forall_app. auto. }
  unfold main.
  apply always_bind; [exact Happ | apply always_all_safe; safe_auto | intros start].
  apply always_bind; [exact Happ | apply always_all_safe; safe_auto | intros n].
  apply always_bind; [exact Happ | apply always_all_safe; safe_auto | intros _].
  destruct (arg_dry_run a); [apply always_all_safe; safe_auto |].
  apply always_bind; [exact Happ | apply always_all_safe; safe_auto | intros response].
  destruct (negb _); [apply always_all_safe; safe_auto |].
  apply always_main_try.
  - exact Happ.
  - intros t. repeat constructor.
  - intros self. apply always_all_safe. unfold main_steps. rewrite Hurl. safe_auto.
  - intros self e k Hh. apply always_all_safe.
    apply (main_handlers_safe _ self e k); [reflexivity | reflexivity | exact Hh].
Qed.

End WholeProgram.

(** ** The scheduler and the files *)

Section SchedulerFiles.
Context `{PyLib}.

Lemma tally_le_nil : succeeded [] <= attempted [].
Proof. reflexivity. Qed.

Lemma tally_le_app (newer older : list event) :
  succeeded newer <= attempted newer -> succeeded older <= attempted older ->
  succeeded (newer ++ older) <= attempted (newer ++ older).
Proof. rewrite succeeded_app, attempted_app. lia. Qed.

Lemma tally_le_quiet {A} (m : prog A) :
  safe not_commit_success any_exn m -> always (fun evs => succeeded evs <= attempted evs) m.
Proof.
  intros Hm. eapply emits_weaken; [exact Hm |].
  intros r evs [HF _]. unfold succeeded. rewrite (count_none _ _ HF).
  apply count_nonneg.
Qed.

Lemma generate_commits_tally_le (self : filler) (intensity : string) :
  always (fun evs => succeeded evs <= attempted evs) (generate_commits self intensity).
Proof.
  unfold generate_commits.
  apply always_bind; [apply tally_le_app | apply tally_le_quiet; safe_auto | intros valid].
  destruct (negb valid); [apply always_ret; apply tally_le_nil |].
  destruct (intensity_map !! intensity) as [[lo hi] |]; [| apply tally_le_quiet; safe_auto].
  apply always_bind; [apply tally_le_app | apply tally_le_quiet; safe_auto | intros _].
  apply always_bind; [apply tally_le_app | | intros t; apply tally_le_quiet; safe_auto].
  apply always_days_loop; [apply tally_le_nil | apply tally_le_app |]. intros d t.
  unfold day_body.
  apply always_bind; [apply tally_le_app | apply tally_le_quiet; safe_auto | intros active].
  destruct active; [| apply always_ret; apply tally_le_nil].
  apply always_bind; [apply tally_le_app | apply tally_le_quiet; safe_auto | intros n].
  apply always_for_range; [apply tally_le_nil | apply tally_le_app |]. intros t'.
  unfold commit_body.
  apply always_bind; [apply tally_le_app | apply tally_le_quiet; safe_auto | intros time].
  apply always_bind; [apply tally_le_app | apply tally_le_quiet; safe_auto | intros now'].
  destruct (time >? now'); [apply always_ret; apply tally_le_nil |].
  apply always_bind; [apply tally_le_app | | intros created; apply tally_le_quiet; safe_auto].
  eapply emits_weaken; [apply create_commit_counts |].
  intros r evs [-> ->]. destruct r as [[|] | e]; simpl; lia.
Qed.

(** X19. In every run of [generate_commits] the commits that succeeded
    are among the commits attempted, and the totals it prints are
    consistent: the number of successful commits is between 0 and the
    number of attempted commits, so the number of failed commits it
    reports is never negative. *)
Theorem successes_within_attempts (self : filler) (intensity : string) (w : world) :
  exists evs,
    trace (generate_commits self intensity w).2 = (evs ++ trace w)%list /\
    0 <= succeeded evs <= attempted evs /\
    forall total successful,
      In (EvPrint (Totals total successful)) evs -> 0 <= successful <= total.
Proof.
  destruct (emits_and _ _ _ (generate_commits_tally_le self intensity)
              (generate_commits_counts self intensity) w)
    as (evs & Ht & Hle & _ & Hp & _).
  exists evs. split; [exact Ht |].
  pose proof (count_nonneg is_commit_success evs) as Hs. fold (succeeded evs) in Hs.
  split; [lia |].
  intros total successful Hin. destruct (Hp total successful Hin) as [-> ->]. lia.
Qed.

(** X20. For every tier (lo, hi), [generate_commits] attempts at most
    [hi] commits for each day from the start date to the end date,
    both included. *)
Theorem attempts_within_tier (self : filler) (intensity : string) (lo hi : Z) (w : world) :
  intensity_map !! intensity = Some (lo, hi) ->
  exists evs,
    trace (generate_commits self intensity w).2 = (evs ++ trace w)%list /\
    attempted evs <=
      Z.max 0 (days_between (end_date self) (start_date self) + 1) * hi.
Proof.
  intros Htier.
  destruct (generate_commits_counts self intensity w) as (evs & Ht & Hb & _).
  exists evs. split; [exact Ht |].
  unfold commit_bound in Hb. rewrite Htier in Hb. unfold days_left in Hb.
  replace (Z.max 0 (days_between (end_date self) (start_date self) + 1))
    with (Z.of_nat (Z.to_nat (days_between (end_date self) (start_date self) + 1))) by lia.
  lia.
Qed.

(** X21. The only calls to the file system that [generate_commits]
    makes are those that append to data.txt: the file is opened in mode
    'a' and entries are written to it.  It opens no other file, opens
    nothing for writing from scratch, and calls neither [mkdir] nor
    [chdir]; whatever else changes on the disk is the work of the git
    commands it spawns. *)
Theorem generate_commits_file_calls (self : filler) (intensity : string) (w : world) :
  exists evs,
    trace (generate_commits self intensity w).2 = (evs ++ trace w)%list /\
    Forall (fun e => appends_to (joinpath (repo_path self) "data.txt") e = true) evs.
Proof.
  assert (Hs : safe (appends_to (joinpath (repo_path self) "data.txt")) any_exn
                 (generate_commits self intensity)).
  { safe_auto_by ltac:(first [reflexivity | simpl; rewrite String.eqb_refl; reflexivity]). }
  destruct (Hs w) as (evs & Ht & HF & _). eauto.
Qed.

(** X22. data.txt only grows: after [generate_commits] its content is
    what it was, followed by the entries of the commits. *)
Theorem data_txt_append_only (self : filler) (intensity : string) (w : world) :
  exists entries,
    content (joinpath (repo_path self) "data.txt") (generate_commits self intensity w).2 =
      (content (joinpath (repo_path self) "data.txt") w ++ entries)%list /\
    Forall is_entry entries.
Proof.
  set (data := joinpath (repo_path self) "data.txt").
  set (I := fun w' => exists entries,
              content data w' = (content data w ++ entries)%list /\ Forall is_entry entries).
  assert (Hquiet : forall A (m : prog A), preserves files m -> maintains I m).
  { intros A m Hm w' (entries & Hc & HF). exists entries. split; [| exact HF].
    unfold content in *. rewrite Hm. exact Hc. }
  assert (Hopen : maintains I (open_a data)).
  { apply maintains_fs_call; try (intros; assumption).
    intros w' (entries & Hc & HF). exists entries. split; [| exact HF].
    unfold content in *. simpl. rewrite lookup_insert_eq. exact Hc. }
  assert (Hwrite : forall stamp tag, maintains I (write data (DataEntry stamp tag))).
  { intros stamp tag w' (entries & Hc & HF).
    exists (entries ++ [DataEntry stamp tag])%list. split.
    - unfold content in *. simpl. rewrite lookup_insert_eq. simpl.
      rewrite Hc. symmetry. apply app_assoc.
    - apply Forall_app. split; [exact HF | repeat constructor]. }
  assert (Hall : maintains I (generate_commits self intensity)).
  { maintains_auto ltac:(apply Hquiet; preserves_auto)
                   ltac:(first [apply Hopen | apply Hwrite]). }
  apply Hall. exists []. split; [symmetry; apply app_nil_r | constructor].
Qed.

(** X23. A range whose start is not before its end, or an intensity that
    is not one of the four tiers, makes [generate_commits] give up
    before it does anything: no commit is attempted, no process is
    spawned, no file is touched, and the answer is not [True]. *)
Theorem generate_commits_rejects (self : filler) (intensity : string) (w : world) :
  start_date self >= end_date self \/ intensity_map !! intensity = None ->
  (generate_commits self intensity w).1 <> Ok true /\
  exists evs,
    trace (generate_commits self intensity w).2 = (evs ++ trace w)%list /\
    attempted evs = 0 /\
    Forall (fun e => is_action e = false) evs.
Proof.
  intros [Hrange | Htier].
  - assert (Hrun : generate_commits self intensity w =
                     (Ok false, log (EvPrint (Note "start-not-before-end")) w)).
    { unfold generate_commits, validate_dates.
      replace (start_date self >=? end_date self) with true by lia. reflexivity. }
    rewrite Hrun. split; [discriminate |].
    eexists [_]. split; [reflexivity |]. split; [reflexivity | repeat constructor].
  - assert (Hs : emits (generate_commits self intensity)
              (fun r evs =>
                 Forall (fun e => (not_action e && not_create_commit e) = true) evs /\
                 (forall e, r = Raise e -> any_exn e = true) /\
                 (forall b, r = Ok b -> b = false))).
    { unfold generate_commits. rewrite Htier.
      apply safe_result_bind; [safe_auto | intros valid].
      destruct (negb valid); [apply safe_result_ret; reflexivity |].
      apply safe_result_bind; [safe_auto | intros _]. apply safe_result_ret. reflexivity. }
    destruct (Hs w) as (evs & Ht & HF & _ & Hr). split.
    + intros Hok. specialize (Hr true Hok). discriminate.
    + exists evs. split; [exact Ht |]. split.
      * apply count_none. eapply Forall_impl; [exact HF |].
        intros e He. apply andb_true_iff in He as [_ He]. exact He.
      * apply Forall_bool_false. eapply Forall_impl; [exact HF |].
        intros e He. apply andb_true_iff in He as [He _]. exact He.
Qed.

End SchedulerFiles.

(** ** Failures at the gateway *)

(** A [try] whose handler catches [CalledProcessError] and answers lets
    out neither that exception nor [SystemExit]. *)
Lemma try_catches_git_failure {A} (m k : prog A) (w : world) (e : exn) :
  safe (fun _ => true) not_exit m ->
  safe (fun _ => true) no_exn k ->
  (try_except m (fun e => match e with CalledProcessError => Some k | _ => None end) w).1
    = Raise e ->
  e <> CalledProcessError /\ not_exit e = true.
Proof.
  intros Hm Hk. unfold try_except.
  destruct (Hm w) as (evs & _ & _ & He).
  destruct (m w) as [[a | e'] w1]; simpl in *; [discriminate |].
  specialize (He e' eq_refl).
  destruct e' as [c | | | k' |]; simpl; try (intros [= <-]; split; [discriminate | reflexivity]).
  - discriminate He.
  - destruct (Hk w1) as (evs2 & _ & _ & He2). intros Hr. specialize (He2 e Hr). discriminate.
Qed.

Section Gateway.
Context `{PyLib}.

(** X24. [cleanup_on_error] never fails: whatever [os.chdir] does, an
    interruption included, it returns normally.  The working directory
    is the original one when [chdir] succeeded and is unchanged
    otherwise; files and directories are left alone. *)
Theorem cleanup_on_error_never_fails (self : filler) (w : world) :
  (cleanup_on_error self w).1 = Ok tt /\
  cwd (cleanup_on_error self w).2 =
    match hd None (io_faults w) with
    | None => original_cwd self
    | Some _ => cwd w
    end /\
  files (cleanup_on_error self w).2 = files w /\
  dirs (cleanup_on_error self w).2 = dirs w /\
  trace (cleanup_on_error self w).2 =
    EvChdir (original_cwd self) (hd None (io_faults w)) :: trace w.
Proof.
  unfold cleanup_on_error, try_except, chdir. rewrite fs_call_run.
  destruct (hd None (io_faults w)); simpl; repeat split.
Qed.

(** X25. A failing git command never escapes from the two functions
    that talk to the remote: [setup_remote_repository] and
    [push_to_github] raise neither [CalledProcessError] nor
    [SystemExit]; such a failure is turned into the answer [False]. *)
Theorem remote_failures_caught (self : filler) (repo_url : string) (w : world) (e : exn) :
  (setup_remote_repository self repo_url w).1 = Raise e \/
  (push_to_github self w).1 = Raise e ->
  e <> CalledProcessError /\ not_exit e = true.
Proof.
  intros [Hr | Hr]; revert Hr.
  - unfold setup_remote_repository.
    destruct (negb (truthy repo_url)); [discriminate |].
    destruct (negb (known_host repo_url)).
    + rewrite (bind_ok (print (Note "unknown-host")) _ w
                 (log (EvPrint (Note "unknown-host")) w) tt eq_refl).
      apply try_catches_git_failure; safe_auto.
    + rewrite (bind_ok (ret tt) _ w w tt eq_refl).
      apply try_catches_git_failure; safe_auto.
  - unfold push_to_github. apply try_catches_git_failure; safe_auto.
Qed.

(** X26. When the remote origin already has the requested URL,
    [setup_remote_repository] answers [True] after the single query
    [git remote get-url origin]: it asks nothing and changes nothing. *)
Theorem remote_already_configured (self : filler) (repo_url out : string) (w : world) :
  truthy repo_url = true ->
  hd (Completed 0 "") (procs w) = Completed 0 out ->
  str_strip out = repo_url ->
  (setup_remote_repository self repo_url w).1 = Ok true /\
  stdin (setup_remote_repository self repo_url w).2 = stdin w /\
  exists evs,
    trace (setup_remote_repository self repo_url w).2 = (evs ++ trace w)%list /\
    Forall (fun e => is_run e = true ->
                     e = EvRun ["git"; "remote"; "get-url"; "origin"] None (Completed 0 out))
           evs.
Proof.
  intros Hurl Hread Hsame.
  assert (Hrun : exists notes,
            Forall (fun e => is_run e = false) notes /\
            setup_remote_repository self repo_url w =
              (Ok true,
               log (EvPrint (Note "remote-ok"))
                 (log (EvRun ["git"; "remote"; "get-url"; "origin"] None (Completed 0 out))
                    (with_procs (tl (procs w))
                       (World (clock w) (ticks w) (rng w) (stdin w) (procs w) (io_faults w)
                          (cwd w) (dirs w) (files w) (notes ++ trace w)%list))))).
  { unfold setup_remote_repository. rewrite Hurl.
    destruct (negb (known_host repo_url)); cbv beta iota delta [negb].
    - exists [EvPrint (Note "unknown-host")]. split; [repeat constructor |].
      rewrite (bind_ok (print (Note "unknown-host")) _ w
                 (log (EvPrint (Note "unknown-host")) w) tt eq_refl).
      erewrite try_bind_ok
        by (rewrite run_git_command_unchecked; simpl procs; rewrite Hread; reflexivity).
      cbv beta. cbn [returncode stdout Z.eqb]. rewrite Hsame, String.eqb_refl.
      reflexivity.
    - exists []. split; [constructor |].
      rewrite (bind_ok (ret tt) _ w w tt eq_refl).
      erewrite try_bind_ok
        by (rewrite run_git_command_unchecked; rewrite Hread; reflexivity).
      cbv beta. cbn [returncode stdout Z.eqb]. rewrite Hsame, String.eqb_refl.
      destruct w; reflexivity. }
  destruct Hrun as (notes & Hnotes & Hrun). rewrite Hrun.
  split; [reflexivity |]. split; [reflexivity |].
  exists (EvPrint (Note "remote-ok")
            :: EvRun ["git"; "remote"; "get-url"; "origin"] None (Completed 0 out)
            :: notes).
  split; [reflexivity |].
  constructor; [discriminate |]. constructor; [reflexivity |].
  eapply Forall_impl; [exact Hnotes |]. intros e He Hr. congruence.
Qed.

(** X27. Without a remote origin ([git remote get-url origin] completes
    with a code that is not 0), [push_to_github] answers [False] and
    pushes nothing. *)
Theorem push_without_remote (self : filler) (rc : Z) (out : string) (w : world) :
  hd (Completed 0 "") (procs w) = Completed rc out ->
  rc <> 0 ->
  (push_to_github self w).1 = Ok false /\
  exists evs,
    trace (push_to_github self w).2 = (evs ++ trace w)%list /\
    Forall (fun e => is_push e = false) evs.
Proof.
  intros Hread Hrc.
  assert (Hrun : push_to_github self w =
            (Ok false,
             log (EvPrint (Note "no-remote"))
               (log (EvRun ["git"; "remote"; "get-url"; "origin"] None (Completed rc out))
                  (with_procs (tl (procs w)) (log (EvPrint (Note "checking-remote")) w))))).
  { unfold push_to_github.
    rewrite (try_bind_ok (print (Note "checking-remote")) _ _ w
               (log (EvPrint (Note "checking-remote")) w) tt eq_refl).
    erewrite try_bind_ok
      by (rewrite run_git_command_unchecked; simpl procs; rewrite Hread; reflexivity).
    cbv beta. cbn [returncode].
    replace (rc =? 0) with false by lia. reflexivity. }
  rewrite Hrun. split; [reflexivity |].
  eexists [_; _; _]. split; [reflexivity | repeat constructor].
Qed.

(** X28. [_check_git_installed] exits with code 1 when [git --version]
    cannot be found or completes with a code that is not 0; another
    failure to start it, such as a lack of permission, is not taken for
    a missing git and is raised as it is. *)
Theorem check_git_installed_outcome (w : world) :
  (_check_git_installed w).1 =
    match hd (Completed 0 "") (procs w) with
    | Completed rc _ => if rc =? 0 then Ok tt else Raise (SystemExit 1)
    | ProcFault (FaultOS FileNotFound) => Raise (SystemExit 1)
    | ProcFault f => Raise (exn_of_fault f)
    end.
Proof.
  unfold _check_git_installed, try_except, bind, subprocess_run.
  destruct (hd (Completed 0 "") (procs w)) as [rc out | [[| |] |]]; simpl;
    try destruct (rc =? 0); reflexivity.
Qed.

End Gateway.

(** ** What the seed files hold *)


Section SeedContent.
Context `{PyLib}.




End SeedContent.

(** ** The days of the commits *)

Lemma toordinal_mono (a b : Z) : a <= b -> toordinal a <= toordinal b.
Proof. intros Hab. unfold toordinal. apply Z.div_le_mono; [reflexivity | exact Hab]. Qed.

Lemma toordinal_next (d : Z) : toordinal (d + timedelta_days 1) = toordinal d + 1.
Proof.
  unfold toordinal, timedelta_days. time_units.
  rewrite Z.div_add by lia. reflexivity.
Qed.

Lemma commit_dated_app (first last : Z) (newer older : list event) :
  Forall (commit_dated first last) newer ->
  Forall (commit_dated first last) older ->
  Forall (commit_dated first last) (newer ++ older).
Proof. intros Hn Ho. apply Forall_app. auto. Qed.

Lemma commit_dated_quiet {A} (first last : Z) (m : prog A) :
  safe not_create_commit any_exn m -> always (Forall (commit_dated first last)) m.
Proof.
  apply always_safe.
  - constructor.
  - apply commit_dated_app.
  - intros e He. repeat constructor. destruct e; simpl; auto. discriminate.
Qed.

Section CommitDays.
Context `{PyLib}.

Lemma pick_commit_time_day (current_date : Z) :
  emits (pick_commit_time current_date)
    (fun r evs => evs = [] /\
       forall commit_time, r = Ok commit_time ->
         toordinal commit_time = toordinal current_date /\ 7 <= hour_of commit_time <= 22).
Proof.
  unfold pick_commit_time.
  eapply emits_bind; [apply emits_random_random | |].
  { intros e evs (k & Hk & _). discriminate. }
  intros r evs1 (k & _ & ->).
  apply (emits_bind _ _ (fun r evs => evs = [] /\ forall h, r = Ok h -> 7 <= h <= 22)).
  { destruct (lt_0_7 r).
    - eapply emits_weaken; [apply emits_randint |].
      intros r' evs (n & -> & -> & Hn). split; [reflexivity |].
      intros h [= <-]. lia.
    - eapply emits_weaken; [apply emits_choice |].
      intros r' evs (x & -> & -> & Hx). split; [reflexivity |].
      intros h [= <-]. specialize (Hx ltac:(discriminate)). simpl in Hx. intuition lia. }
  { intros e evs [-> _]. split; [reflexivity | discriminate]. }
  intros h evs2 [-> Hh]. specialize (Hh h eq_refl).
  eapply emits_bind; [apply emits_randint | |].
  { intros e evs (n & Hn & _). discriminate. }
  intros m evs3 (n & Hn & -> & Hm). injection Hn as <-. specialize (Hm ltac:(lia)).
  eapply emits_bind; [apply emits_randint | |].
  { intros e evs (n & Hn & _). discriminate. }
  intros s evs4 (n & Hn & -> & Hs). injection Hn as <-. specialize (Hs ltac:(lia)).
  apply emits_ret. split; [reflexivity |].
  intros commit_time [= <-].
  destruct (replace_hms_fields current_date h m s) as (Hd & Hho & _); [lia | lia | lia |].
  rewrite Hd, Hho. split; [reflexivity | lia].
Qed.

Lemma commit_body_days (self : filler) (first last : Z) (current_date : Z) (t : tally) :
  first <= toordinal current_date <= last ->
  always (Forall (commit_dated first last)) (commit_body self current_date t).
Proof.
  intros Hday. unfold always, commit_body.
  eapply emits_bind; [apply pick_commit_time_day | |].
  { intros e evs [-> _]. constructor. }
  intros commit_time evs1 [-> Htime]. destruct (Htime commit_time eq_refl) as [Hord Hhour].
  eapply emits_weaken.
  2: { intros r evs HF. rewrite app_nil_r. exact HF. }
  apply always_bind;
    [apply commit_dated_app | apply commit_dated_quiet; safe_auto | intros n].
  destruct (commit_time >? n); [apply always_ret; constructor |].
  apply always_bind; [apply commit_dated_app | | intros created].
  - eapply emits_weaken; [apply create_commit_marks |].
    intros r evs (evs' & -> & HF). apply Forall_app. split.
    + eapply Forall_impl; [exact HF |].
      intros e He. destruct e; simpl; auto. discriminate.
    + repeat constructor; simpl; lia.
  - apply commit_dated_quiet. safe_auto.
Qed.

Lemma days_loop_days (fuel : nat) (self : filler) (lo hi : Z) (first : Z)
    (current_date : Z) (t : tally) :
  first <= toordinal current_date ->
  always (Forall (commit_dated first (toordinal (end_date self))))
    (days_loop fuel self lo hi current_date t).
Proof.
  revert current_date t.
  induction fuel as [| fuel IH]; intros current_date t Hfirst; cbn [days_loop].
  - destruct (current_date <=? end_date self); apply always_ret; constructor.
  - destruct (current_date <=? end_date self) eqn:Hle; [| apply always_ret; constructor].
    apply Z.leb_le in Hle.
    apply always_bind; [apply commit_dated_app | | intros t'].
    + unfold day_body.
      apply always_bind;
        [apply commit_dated_app | apply commit_dated_quiet; safe_auto | intros active].
      destruct active; [| apply always_ret; constructor].
      apply always_bind;
        [apply commit_dated_app | apply commit_dated_quiet; safe_auto | intros n].
      apply always_for_range; [constructor | apply commit_dated_app |]. intros t'.
      apply commit_body_days. split; [exact Hfirst | apply toordinal_mono; exact Hle].
    + apply IH. rewrite toordinal_next. lia.
Qed.

(** X30. Every commit that [generate_commits] attempts is dated on a
    calendar day of the range, from the day of the start date to the day
    of the end date, at an hour from 7 to 22. *)
Theorem commits_dated_within_range (self : filler) (intensity : string) (w : world) :
  exists evs,
    trace (generate_commits self intensity w).2 = (evs ++ trace w)%list /\
    Forall (commit_dated (toordinal (start_date self)) (toordinal (end_date self))) evs.
Proof.
  revert w.
  change (always (Forall (commit_dated (toordinal (start_date self))
                            (toordinal (end_date self))))
            (generate_commits self intensity)).
  unfold generate_commits.
  apply always_bind;
    [apply commit_dated_app | apply commit_dated_quiet; safe_auto | intros valid].
  destruct (negb valid); [apply always_ret; constructor |].
  destruct (intensity_map !! intensity) as [[lo hi] |];
    [| apply commit_dated_quiet; safe_auto].
  apply always_bind;
    [apply commit_dated_app | apply commit_dated_quiet; safe_auto | intros _].
  apply always_bind;
    [apply commit_dated_app | | intros t; apply commit_dated_quiet; safe_auto].
  apply days_loop_days. lia.
Qed.

End CommitDays.

(** ** The exit status *)

Lemma past_first_prompt_not_in (evs : list event) (e : event) :
  Forall (fun e' => past_first_prompt e' = true) evs ->
  past_first_prompt e = false ->
  ~ In e evs.
Proof.
  intros HF He Hin. rewrite Forall_forall in HF. apply list_elem_of_In in Hin.
  apply HF in Hin. congruence.
Qed.

(** [absent] proves that an event is not in a list that is written out;
    [never], that being in it is equivalent to an equation between two
    different results. *)
Ltac absent :=
  let Hin := fresh "Hin" in
  intros Hin; simpl in Hin;
  repeat (destruct Hin as [Hin | Hin]; [discriminate Hin |]);
  exact Hin.

Ltac never := split; [intros ?Hin; exfalso; revert Hin; absent | discriminate].

Section ExitStatus.
Context `{PyLib} `{ArgParse}.

Lemma main_try_past_first_prompt (a : args) (start : Z) :
  always (Forall (fun e => past_first_prompt e = true)) (main_try a start).
Proof.
  apply always_main_try.
  - intros newer older Hn Ho. apply Forall_app. auto.
  - intros t. repeat constructor.
  - intros self. apply always_all_safe. safe_auto.
  - intros self e k Hh. apply always_all_safe.
    destruct e as [c | | | k' |]; simpl in Hh;
      first [discriminate Hh | injection Hh as <-]; safe_auto.
Qed.

(** How [main] ends, and what the first prompt has to do with it. *)
Lemma main_prompt_outcome (a : args) :
  emits (main a)
    (fun r evs =>
       ~ In (EvPrint (Note "usage")) evs /\
       (In (EvInput "continue" InputEOF) evs <-> r = Raise EOFError) /\
       (In (EvInput "continue" InputInterrupt) evs <-> r = Raise KeyboardInterrupt) /\
       (r = Ok tt \/ (exists c, r = Raise (SystemExit c)) \/
        r = Raise EOFError \/ r = Raise KeyboardInterrupt)).
Proof.
  intros w. rewrite main_run.
  destruct (strptime_ymd (arg_start_date a)) as [start |].
  2: { eexists [_]. split; [reflexivity |]. simpl fst.
       split; [absent |]. split; [never |]. split; [never |]. right. left. eauto. }
  cbv zeta. destruct (arg_dry_run a).
  { eexists [_; _; _; _; _]. split; [reflexivity |]. simpl fst.
    split; [absent |]. split; [never |]. split; [never |]. left. reflexivity. }
  match goal with |- context [hd InputEOF ?l] => destruct (hd InputEOF l) as [response | |] end.
  - destruct (negb (affirmative (str_lower response))).
    + eexists [_; _; _; _]. split; [reflexivity |]. simpl fst.
      split; [absent |]. split; [never |]. split; [never |]. left. reflexivity.
    + match goal with
      | |- context [main_try a start ?w3] =>
          destruct (main_try_past_first_prompt a start w3) as (evs & Ht & HF);
          pose proof (main_try_result a start w3) as Hr
      end.
      eexists (evs ++ [_; _; _])%list. split.
      { rewrite Ht, <- app_assoc. reflexivity. }
      assert (Hnot : forall e older,
                past_first_prompt e = false -> ~ In e older -> ~ In e (evs ++ older)%list).
      { intros e older He Holder Hin. apply in_app_iff in Hin as [Hin | Hin]; [| auto].
        exact (past_first_prompt_not_in evs e HF He Hin). }
      split; [apply Hnot; [reflexivity | absent] |].
      destruct Hr as [Hr | [c Hr]]; rewrite Hr.
      * split; [split; [intros Hin; exfalso; revert Hin; apply Hnot;
                        [reflexivity | absent] | discriminate] |].
        split; [split; [intros Hin; exfalso; revert Hin; apply Hnot;
                        [reflexivity | absent] | discriminate] |].
        left. reflexivity.
      * split; [split; [intros Hin; exfalso; revert Hin; apply Hnot;
                        [reflexivity | absent] | discriminate] |].
        split; [split; [intros Hin; exfalso; revert Hin; apply Hnot;
                        [reflexivity | absent] | discriminate] |].
        right. left. eauto.
  - eexists [_; _; _]. split; [reflexivity |]. simpl fst.
    split; [absent |].
    split; [split; [reflexivity | intros _; left; reflexivity] |].
    split; [never |]. right. right. left. reflexivity.
  - eexists [_; _; _]. split; [reflexivity |]. simpl fst.
    split; [absent |]. split; [never |].
    split; [split; [reflexivity | intros _; left; reflexivity] |].
    right. right. right. reflexivity.
Qed.

Lemma fatal_older (evs : list event) (e : event) :
  is_fatal_note e = false ->
  Exists (fun e' => is_fatal_note e' = true) (evs ++ [e]) <->
  Exists (fun e' => is_fatal_note e' = true) evs.
Proof.
  intros He. rewrite Exists_app. split; [| auto].
  intros [Hx | Hx]; [exact Hx |].
  inversion Hx as [? ? Hf | ? ? Hf]; subst; [congruence | inversion Hf].
Qed.

Lemma in_older (evs : list event) (e x : event) :
  x <> e -> In x (evs ++ [e]) <-> In x evs.
Proof.
  intros Hne. rewrite in_app_iff. simpl. split; [| auto].
  intros [Hin | [Heq | []]]; [exact Hin | congruence].
Qed.

(** C9, as amended.  The program ends with status 1 exactly when it has
    announced one of its fatal errors (a malformed start date, git not
    installed, no permission to create the directory, the git identity
    that could not be configured, a seed file that could not be created,
    an exception caught by the last handler of [main]) or when the end
    of input at the first prompt, which no [try] surrounds, leaves
    [main] as an unhandled exception.  It ends with status 2 exactly
    when argparse rejects the command line.  An interruption at the
    first prompt leaves [main] as an unhandled [KeyboardInterrupt],
    which is not status 0.  Every other run ends with status 0: the help
    of argparse, a dry run, a run that the user declines, per-commit
    failures, and an interruption inside the [try] block. *)
Theorem main_exit_code (argv : list string) (w : world) :
  exists evs,
    trace (main_argv argv w).2 = (evs ++ trace w)%list /\
    (exit_code (main_argv argv w).1 = Some 1 <->
     Exists (fun e => is_fatal_note e = true) evs \/
     In (EvInput "continue" InputEOF) evs) /\
    (exit_code (main_argv argv w).1 = Some 2 <-> In (EvPrint (Note "usage")) evs) /\
    (exit_code (main_argv argv w).1 = None <->
     In (EvInput "continue" InputInterrupt) evs) /\
    (exit_code (main_argv argv w).1 = Some 0 \/
     exit_code (main_argv argv w).1 = Some 1 \/
     exit_code (main_argv argv w).1 = Some 2 \/
     exit_code (main_argv argv w).1 = None).
Proof.
  unfold main_argv.
  set (n := clock w + Z.of_N (hd 0%N (ticks w))).
  set (w1 := log (EvNow n) (with_clock n (tl (ticks w)) w)).
  rewrite (bind_ok now _ w w1 n eq_refl).
  destruct (parse_args argv n) as [a | code] eqn:Hparse.
  - destruct (emits_and _ _ _ (exit_ok_main a) (main_prompt_outcome a) w1)
      as (evs & Ht & Hspec & Husage & Heof & Hint & Hr).
    exists (evs ++ [EvNow n])%list. split.
    { rewrite Ht, <- app_assoc. reflexivity. }
    rewrite (fatal_older evs (EvNow n) eq_refl).
    rewrite !(in_older evs (EvNow n)) by discriminate.
    rewrite Heof, Hint.
    destruct Hr as [Hr | [[c Hr] | [Hr | Hr]]]; rewrite Hr in *; simpl in *.
    + split; [split; [discriminate | intros [Hx | Hx]; [| discriminate]] |].
      { exfalso. eapply calm_not_fatal; eauto. }
      split; [split; [discriminate | intros Hx; contradiction] |].
      split; [split; discriminate |]. auto.
    + destruct Hspec as [-> Hfatal].
      split; [split; [auto | reflexivity] |].
      split; [split; [discriminate | intros Hx; contradiction] |].
      split; [split; discriminate |]. auto.
    + split; [split; [auto | reflexivity] |].
      split; [split; [discriminate | intros Hx; contradiction] |].
      split; [split; discriminate |]. auto.
    + split; [split; [discriminate | intros [Hx | Hx]; [| discriminate]] |].
      { exfalso. eapply calm_not_fatal; eauto. }
      split; [split; [discriminate | intros Hx; contradiction] |].
      split; [split; reflexivity |]. auto.
  - pose proof (parse_args_status argv n code Hparse) as Hcode.
    exists [EvPrint (Note (if code =? 0 then "help" else "usage")); EvNow n].
    split; [reflexivity |]. simpl fst. simpl exit_code.
    assert (Hcalm : ~ Exists (fun e => is_fatal_note e = true)
                      [EvPrint (Note (if code =? 0 then "help" else "usage")); EvNow n]).
    { apply calm_not_fatal. destruct Hcode as [-> | ->]; repeat constructor. }
    destruct Hcode as [-> | ->]; simpl in *.
    + split; [split; [discriminate | intros [Hx | [Hx | [Hx | []]]];
                                       [contradiction | discriminate | discriminate]] |].
      split; [split; [discriminate | intros [Hx | [Hx | []]]; discriminate] |].
      split; [split; [discriminate | intros [Hx | [Hx | []]]; discriminate] |]. auto.
    + split; [split; [discriminate | intros [Hx | [Hx | [Hx | []]]];
                                       [contradiction | discriminate | discriminate]] |].
      split; [split; [intros _; left; reflexivity | reflexivity] |].
      split; [split; [discriminate | intros [Hx | [Hx | []]]; discriminate] |]. auto.
Qed.

End ExitStatus.

(** ** The theorems at work on concrete runs *)

Lemma create_commit_open_failure_witness :
  hd None (io_faults Example.read_only) = Some (FaultOS PermissionDenied) /\
  (create_commit Example.today (Example.thursday + 9 * HOUR) None Example.read_only).1
    = Ok false.
Proof.
  split; [reflexivity |].
  apply (create_commit_open_failure Example.today (Example.thursday + 9 * HOUR) None
           Example.read_only PermissionDenied).
  reflexivity.
Defined.

Lemma create_initial_files_idempotent_witness :
  (_create_initial_files Example.today Example.one_commit).1 = Ok tt /\
  _create_initial_files Example.today
    (_create_initial_files Example.today Example.one_commit).2 =
    (Ok tt, (_create_initial_files Example.today Example.one_commit).2).
Proof.
  split; [vm_compute; reflexivity |].
  apply (create_initial_files_idempotent Example.today Example.one_commit).
  vm_compute. reflexivity.
Defined.

Lemma configured_name_kept_witness :
  hd (Completed 0 "") (procs Example.identity_known) = Completed 0 "Ada" /\
  truthy (Lib.strip "Ada") = true /\
  exists evs,
    trace (@_setup_git_config example_lib Example.today Example.identity_known).2
      = (evs ++ trace Example.identity_known)%list /\
    Forall (fun e => is_config_write_of "user.name" e = false) evs.
Proof.
  split; [reflexivity |]. split; [reflexivity |].
  apply (@configured_name_kept example_lib Example.today Example.identity_known "Ada");
    reflexivity.
Defined.

Lemma configured_email_kept_witness :
  hd (Completed 0 "") (tl (procs Example.identity_known)) = Completed 0 "ada@example.org" /\
  truthy (Lib.strip "ada@example.org") = true /\
  exists evs,
    trace (@_setup_git_config example_lib Example.today Example.identity_known).2
      = (evs ++ trace Example.identity_known)%list /\
    Forall (fun e => is_config_write_of "user.email" e = false) evs.
Proof.
  split; [reflexivity |]. split; [reflexivity |].
  apply (@configured_email_kept example_lib Example.today Example.identity_known
           "ada@example.org"); reflexivity.
Defined.

Lemma supplied_identity_no_prompt_witness :
  truthy_opt (author_name Example.today) = true /\
  truthy_opt (author_email Example.today) = true /\
  exists evs,
    trace (@setup_repository example_lib Example.today Example.config_locked).2
      = (evs ++ trace Example.config_locked)%list /\
    Forall (fun e => is_input e = false) evs.
Proof.
  split; [reflexivity |]. split; [reflexivity |].
  apply (@supplied_identity_no_prompt example_lib Example.today Example.config_locked);
    reflexivity.
Defined.

Lemma existing_repository_not_initialised_witness :
  present (joinpath (repo_path Example.today) ".git") Example.set_up /\
  exists evs,
    trace (@setup_repository example_lib Example.today Example.set_up).2
      = (evs ++ trace Example.set_up)%list /\
    Forall (fun e => is_init e = false) evs.
Proof.
  assert (Hgit : present (joinpath (repo_path Example.today) ".git") Example.set_up)
    by (vm_compute; reflexivity).
  split; [exact Hgit |].
  apply (@existing_repository_not_initialised example_lib Example.today Example.set_up).
  exact Hgit.
Defined.

Lemma no_mkdir_in_working_directory_witness :
  repo_path Example.today = cwd Example.set_up /\
  exists evs,
    trace (@setup_repository example_lib Example.today Example.set_up).2
      = (evs ++ trace Example.set_up)%list /\
    Forall (fun e => is_mkdir e = false) evs.
Proof.
  split; [reflexivity |].
  apply (@no_mkdir_in_working_directory example_lib Example.today Example.set_up).
  reflexivity.
Defined.

Lemma no_remote_without_url_witness :
  truthy_opt (arg_repo_url Example.run_args) = false /\
  exists evs,
    trace (@main example_lib Example.run_args Example.add_fails).2
      = (evs ++ trace Example.add_fails)%list /\
    Forall (fun e => is_remote_or_push e = false) evs.
Proof.
  split; [reflexivity |].
  apply (@no_remote_without_url example_lib Example.run_args Example.add_fails).
  reflexivity.
Defined.

Lemma attempts_within_tier_witness :
  intensity_map !! "low" = Some (1, 2) /\
  exists evs,
    trace (@generate_commits example_lib Example.one_day "low" Example.busy).2
      = (evs ++ trace Example.busy)%list /\
    attempted evs <=
      Z.max 0 (days_between (end_date Example.one_day) (start_date Example.one_day) + 1) * 2.
Proof.
  split; [reflexivity |].
  apply (@attempts_within_tier example_lib Example.one_day "low" 1 2 Example.busy).
  reflexivity.
Defined.

Lemma generate_commits_rejects_witness :
  intensity_map !! "extreme" = None /\
  (@generate_commits example_lib Example.today "extreme" Example.one_commit).1 <> Ok true.
Proof.
  split; [reflexivity |].
  apply (@generate_commits_rejects example_lib Example.today "extreme" Example.one_commit).
  right. reflexivity.
Defined.

Lemma remote_failures_caught_witness :
  (@push_to_github example_lib Example.today Example.interrupted).1 = Raise KeyboardInterrupt /\
  KeyboardInterrupt <> CalledProcessError.
Proof.
  split; [reflexivity |].
  apply (@remote_failures_caught example_lib Example.today Example.ada_url
           Example.interrupted KeyboardInterrupt).
  right. reflexivity.
Defined.

Lemma remote_already_configured_witness :
  truthy Example.ada_url = true /\
  hd (Completed 0 "") (procs Example.origin_set) = Completed 0 Example.ada_url /\
  Lib.strip Example.ada_url = Example.ada_url /\
  (@setup_remote_repository example_lib Example.today Example.ada_url Example.origin_set).1
    = Ok true.
Proof.
  split; [reflexivity |]. split; [reflexivity |]. split; [reflexivity |].
  apply (@remote_already_configured example_lib Example.today Example.ada_url
           Example.ada_url Example.origin_set); reflexivity.
Defined.

Lemma push_without_remote_witness :
  hd (Completed 0 "") (procs Example.no_origin) = Completed 2 "" /\
  2 <> 0 /\
  (@push_to_github example_lib Example.today Example.no_origin).1 = Ok false.
Proof.
  split; [reflexivity |]. split; [lia |].
  apply (@push_without_remote example_lib Example.today 2 "" Example.no_origin);
    [reflexivity | lia].
Defined.

